(** * deep-research: the recursive research orchestrator and the report assembler

    A shallow embedding of [src/deep-research.ts], and the properties its
    specification states of it.

    - The pure parts of the file ([slice], [Math.ceil(breadth / 2)],
      [Object.assign] on the progress record, the [new Set] based merge, the
      string templates of [writeFinalReport]) are Rocq functions.
    - The model calls of [factCheck] and [writeFinalReport] are functions
      from the prompt to the answer, and the calls made are logged.
    - [deepResearch] is asynchronous: its branches are interleaved by the
      answers of the outside world (the query generator, the search
      provider, the extraction call).  It is embedded as an executable step
      function [exec]: one step is one answer of the outside world together
      with the synchronous code that runs on it, up to the next [await].  A
      run is a list of answers; a property of the program is one of every
      run.  The texts of the prompts of [deepResearch] are not part of the
      state: the answers are arbitrary, and no property below reads them.

    Part I holds the definitions: the program, the readings of its state,
    the invariants and the sample runs.  Part II holds the proofs. *)

From Stdlib Require Import ZArith QArith Qround Lia.
From stdpp Require Import base list strings.

Open Scope string_scope.
Open Scope list_scope.
Open Scope Z_scope.

(** * Part I: definitions *)

(** ** Data model *)

(** [type ResearchResult] *)
Record ResearchResult := mkResult {
  learnings : list string;
  visitedUrls : list string;
  sourceContents : list string;
}.

#[global] Instance ResearchResult_eq_dec : EqDecision ResearchResult.
Proof. solve_decision. Defined.

(** The object literal returned by the [catch] block, and by the final
    [return] when [results] is empty. *)
Definition emptyResult : ResearchResult := mkResult [] [] [].

(** ** [[...new Set(xs)]] *)

(** [Set.prototype.add]: a value already in the set is ignored, a new one
    goes last in insertion order. *)
Definition Set_add (s : list string) (x : string) : list string :=
  if decide (x ∈ s) then s else s ++ [x].

(** [[...new Set(xs)]]: the elements of [xs] in first-occurrence order. *)
Definition uniq (xs : list string) : list string := fold_left Set_add xs [].

(** The final [return] of [deepResearch], lines 352-356, on the branch
    results once every reference has been read. *)
Definition merge (results : list ResearchResult) : ResearchResult :=
  {| learnings := uniq (flat_map learnings results);
     visitedUrls := uniq (flat_map visitedUrls results);
     sourceContents := uniq (flat_map sourceContents results) |}.

(** ** The progress record *)

(** [type ResearchProgress]; the optional [currentQuery] is [None] when the
    property is unset or [undefined]. *)
Record ResearchProgress := mkProgress {
  currentDepth : Z;
  totalDepth : Z;
  currentBreadth : Z;
  totalBreadth : Z;
  currentQuery : option string;
  totalQueries : Z;
  completedQueries : Z;
}.

(** [Partial<ResearchProgress>]: every key is absent ([None]) or present
    with a value.  A present [currentQuery] key may hold [undefined]
    ([Some None]), as [serpQueries[0]?.query] does on an empty list. *)
Record PartialProgress := mkPartial {
  upd_currentDepth : option Z;
  upd_totalDepth : option Z;
  upd_currentBreadth : option Z;
  upd_totalBreadth : option Z;
  upd_currentQuery : option (option string);
  upd_totalQueries : option Z;
  upd_completedQueries : option Z;
}.

(** [Object.assign(progress, update)]: the own properties of [update] are
    copied over those of [progress]. *)
Definition Object_assign (progress : ResearchProgress)
    (update : PartialProgress) : ResearchProgress :=
  {| currentDepth := default (currentDepth progress) (upd_currentDepth update);
     totalDepth := default (totalDepth progress) (upd_totalDepth update);
     currentBreadth :=
       default (currentBreadth progress) (upd_currentBreadth update);
     totalBreadth := default (totalBreadth progress) (upd_totalBreadth update);
     currentQuery := default (currentQuery progress) (upd_currentQuery update);
     totalQueries := default (totalQueries progress) (upd_totalQueries update);
     completedQueries :=
       default (completedQueries progress) (upd_completedQueries update) |}.

(** [reportProgress], lines 253-256.  [onProgress] tells whether the caller
    passed a sink ([onProgress?.(progress)]); the second component is what
    the sink is called with during the call, in order. *)
Definition reportProgress (onProgress : bool) (progress : ResearchProgress)
    (update : PartialProgress) : ResearchProgress * list ResearchProgress :=
  let progress := Object_assign progress update in
  (progress, if onProgress then [progress] else []).

(** The record [deepResearch] starts from, lines 244-251. *)
Definition initialProgress (breadth depth : Z) : ResearchProgress :=
  {| currentDepth := depth;
     totalDepth := depth;
     currentBreadth := breadth;
     totalBreadth := breadth;
     currentQuery := None;
     totalQueries := 0;
     completedQueries := 0 |}.

(** ** [slice] and [Math.ceil] *)

(** [xs.slice(0, end)] for an integer [end]: a negative [end] counts from
    the end of the array. *)
Definition slice0 {A} (end_ : Z) (xs : list A) : list A :=
  let len := Z.of_nat (length xs) in
  let final := if end_ <? 0 then Z.max (len + end_) 0 else Z.min end_ len in
  take (Z.to_nat final) xs.

(** [Math.ceil(breadth / 2)] on an integer [breadth]. *)
Definition newBreadth (breadth : Z) : Z := Qceiling (inject_Z breadth / 2).

(** Halving [n] times, rounding up each time. *)
Definition breadthAt (n : nat) (breadth : Z) : Z := Nat.iter n newBreadth breadth.

(** ** The report assembler: [factCheck] and [writeFinalReport] *)

(** The line feed of the template literals. *)
Definition LF : string := String (Ascii.ascii_of_nat 10) EmptyString.

(** [xs.join(sep)] on strings. *)
Definition join (sep : string) (xs : list string) : string := String.concat sep xs.

(** [z.enum(['HIGH', 'MEDIUM', 'LOW'])] *)
Inductive Severity := HIGH | MEDIUM | LOW.

(** The text a severity has in a template literal. *)
Definition severityText (s : Severity) : string :=
  match s with HIGH => "HIGH" | MEDIUM => "MEDIUM" | LOW => "LOW" end.

(** One element of [unsupportedFacts]. *)
Record UnsupportedFact := mkFact {
  claim : string;
  issue : string;
  severity : Severity;
}.

(** What [factCheck] resolves with. *)
Record FactCheckResult := mkFactCheck {
  unsupportedFacts : list UnsupportedFact;
  overallAssessment : string;
}.

(** A [generateObject] call made by the assembler, with its prompt. *)
Inductive ModelCall :=
| ReportCall (prompt : string)
| FactCheckCall (prompt : string).

(** The result of the early [return] of [factCheck], lines 144-147. *)
Definition factCheckFallback : FactCheckResult :=
  {| unsupportedFacts := [];
     overallAssessment := "Unable to fact check - no source content available" |}.

(** The line of one flagged claim, line 215. *)
Definition factEntry (fact : UnsupportedFact) : string :=
  "**[" +:+ severityText (severity fact) +:+ "]** " +:+ claim fact +:+ LF +:+
  "- " +:+ issue fact.

(** The text after the assessment, lines 211-218. *)
Definition factCheckIssues (facts : list UnsupportedFact) : string :=
  if bool_decide (0 < length facts)%nat
  then "### Potential Issues" +:+ LF +:+ LF +:+
       join (LF +:+ LF) (factEntry <$> facts)
  else "### No Factual Issues Found" +:+ LF +:+ LF +:+
       "All claims in the report appear to be well-supported by the source material.".

(** [factCheckSection], lines 210-219. *)
Definition factCheckSection (factCheckResults : FactCheckResult) : string :=
  LF +:+ LF +:+ "## Fact Check" +:+ LF +:+ LF +:+
  overallAssessment factCheckResults +:+ LF +:+ LF +:+
  factCheckIssues (unsupportedFacts factCheckResults).

(** [urlsSection], line 222. *)
Definition urlsSection (visitedUrls : list string) : string :=
  LF +:+ LF +:+ "## Sources" +:+ LF +:+ LF +:+
  join LF ((λ url, "- " +:+ url) <$> visitedUrls).

Section Assembler.

(** [trimPrompt] of [./ai/providers], which is not part of the sources at
    hand: any function of the text and the budget. *)
Variable trimPrompt : string → Z → string.

(** The two [generateObject] calls: the answer of the model to a prompt,
    [None] when the call rejects. *)
Variable generateReport : string → option string.
Variable generateFactCheck : string → option FactCheckResult.

Definition factCheckPrompt (report : string) (sourceContents : list string) : string :=
  let contentsString :=
    trimPrompt
      (join LF ((λ content, "<content>" +:+ LF +:+ content +:+ LF +:+ "</content>")
                  <$> sourceContents))
      200000 in
  "You are a fact checker. Given the following report and the original source contents, identify any facts in the report that are either not supported by or contradicted by the source material. Focus on specific claims, numbers, dates, and attributions." +:+
  LF +:+ LF +:+ "<report>" +:+ report +:+ "</report>" +:+ LF +:+ LF +:+
  "Here are the original source contents:" +:+ LF +:+ LF +:+
  "<sources>" +:+ LF +:+ contentsString +:+ LF +:+ "</sources>".

(** [factCheck], lines 135-172.  [sourceContents] is [None] when the caller
    leaves the property out, which the default [= []] turns into the empty
    array.  The first component lists the model calls made. *)
Definition factCheck (report : string) (sourceContents : option (list string))
    : list ModelCall * option FactCheckResult :=
  let sourceContents := default [] sourceContents in
  if bool_decide (length sourceContents = 0%nat)
  then ([], Some factCheckFallback)
  else
    let prompt := factCheckPrompt report sourceContents in
    ([FactCheckCall prompt], generateFactCheck prompt).

Definition reportPrompt (prompt : string) (learnings : list string) : string :=
  let learningsString :=
    trimPrompt
      (join LF ((λ learning, "<learning>" +:+ LF +:+ learning +:+ LF +:+ "</learning>")
                  <$> learnings))
      150000 in
  "Given the following prompt from the user, write a final report on the topic using the learnings from research. Make it as as detailed as possible, aim for 3 or more pages, include ALL the learnings from research:" +:+
  LF +:+ LF +:+ "<prompt>" +:+ prompt +:+ "</prompt>" +:+ LF +:+ LF +:+
  "Here are all the learnings from previous research:" +:+ LF +:+ LF +:+
  "<learnings>" +:+ LF +:+ learningsString +:+ LF +:+ "</learnings>".

(** [writeFinalReport], lines 174-225: the model calls made and the string
    returned, [None] when a model call rejects. *)
Definition writeFinalReport (prompt : string) (learnings visitedUrls : list string)
    (sourceContents : option (list string)) : list ModelCall * option string :=
  let ask := reportPrompt prompt learnings in
  match generateReport ask with
  | None => ([ReportCall ask], None)
  | Some reportMarkdown =>
      let '(calls, checked) := factCheck reportMarkdown sourceContents in
      (ReportCall ask :: calls,
       factCheckResults ← checked;
       Some (reportMarkdown +:+ factCheckSection factCheckResults +:+
             urlsSection visitedUrls))
  end.

End Assembler.

(** ** The orchestrator: [deepResearch] *)

(** One element of [res.object.queries]. *)
Record SerpQuery := mkQuery {
  query : string;
  researchGoal : string;
}.

(** One element of [result.data] of the search provider; either property
    may be missing. *)
Record SearchItem := mkItem {
  url : option string;
  markdown : option string;
}.

(** [result.data] of a [SearchResponse]. *)
Definition SearchResponse := list SearchItem.

(** [res.object] of [processSerpResult]. *)
Record Extraction := mkExtraction {
  res_learnings : list string;
  res_followUpQuestions : list string;
}.

(** lodash [compact] on optional strings: [undefined] and the empty string
    are falsy and dropped. *)
Definition compact (xs : list (option string)) : list string :=
  omap (λ x, match x with
             | Some s => if decide (s = "") then None else Some s
             | None => None
             end) xs.

(** [const ConcurrencyLimit = 2], line 36. *)
Definition ConcurrencyLimit : nat := 2.

(** What a branch resolves with.  The terminal case returns an object that
    holds the accumulator arrays themselves ([RShared]: they are read when
    the results are merged); the [catch] block and a finished recursive call
    return arrays of their own ([ROwn]). *)
Inductive BranchResult :=
| RShared
| ROwn (r : ResearchResult).

#[global] Instance BranchResult_eq_dec : EqDecision BranchResult.
Proof. solve_decision. Defined.

(** A pending [deepResearch] call and the branches it has fanned out.  Each
    call has its own progress record (line 244) and its own limiter
    (line 269): the limiter is the [Queued] / started split of the branches
    of one [Running] call. *)
Inductive Invocation :=
| Generating (breadth depth : Z) (progress : ResearchProgress)
    (* awaiting generateSerpQueries, line 258 *)
| Running (breadth depth : Z) (progress : ResearchProgress)
    (branches : list Branch)
    (* awaiting Promise.all, line 271 *)
| Returned (result : ResearchResult)
    (* resolved: the call is over *)
| Threw
    (* rejected: the call is over, whatever its branches still await *)
with Branch :=
| Queued (serpQuery : SerpQuery)
    (* in the queue of the limiter *)
| Searching (serpQuery : SerpQuery)
    (* started; awaiting firecrawl.search, line 275 *)
| Processing (serpQuery : SerpQuery) (result : SearchResponse)
    (* awaiting processSerpResult, line 281 *)
| Recursing (serpQuery : SerpQuery) (child : Invocation)
    (* awaiting the recursive call returned at line 312 *)
| Resolved (r : BranchResult).

(** An answer of the outside world to a call that is awaited. *)
Inductive Answer :=
| GenerateOk (queries : list SerpQuery)
    (* generateObject of generateSerpQueries resolves *)
| GenerateErr
    (* it rejects *)
| SearchOk (i : nat) (result : SearchResponse)
    (* firecrawl.search of branch i resolves *)
| SearchErr (i : nat) (message : string)
    (* it rejects with an error of this message *)
| ExtractOk (i : nat) (object : Extraction)
    (* generateObject of processSerpResult of branch i resolves *)
| ExtractErr (i : nat) (message : string).
    (* it rejects *)

(** The position of a call in the recursion: the branch indices from the
    top-level call down to it. *)
Definition Path := list nat.

(** *** The limiter of one call *)

(** A branch holds a permit from the moment the limiter starts it until it
    resolves. *)
Definition holdsPermit (b : Branch) : bool :=
  match b with
  | Searching _ | Processing _ _ | Recursing _ _ => true
  | Queued _ | Resolved _ => false
  end.

(** [limit.activeCount] *)
Definition activeCount (branches : list Branch) : nat :=
  length (filter (λ b, holdsPermit b = true) branches).

(** Start the first [room] queued branches, in queue order: a started
    branch calls the search provider. *)
Fixpoint startQueued (room : nat) (branches : list Branch) : list Branch :=
  match branches with
  | [] => []
  | Queued serpQuery :: rest =>
      match room with
      | O => branches
      | S room => Searching serpQuery :: startQueued room rest
      end
  | b :: rest => b :: startQueued room rest
  end.

(** [pLimit(ConcurrencyLimit)] of the p-limit package: whenever fewer than
    [ConcurrencyLimit] of the functions given to [limit] run, the next of
    the queue is started. *)
Definition pLimit (branches : list Branch) : list Branch :=
  startQueued (ConcurrencyLimit - activeCount branches) branches.

(** Branch [i] resolves with [r]; its permit goes to the queue. *)
Definition resolve (i : nat) (r : BranchResult) (branches : list Branch)
    : list Branch :=
  pLimit (<[i := Resolved r]> branches).

(** *** The join *)

Definition settled (b : Branch) : option BranchResult :=
  match b with Resolved r => Some r | _ => None end.

(** Read a branch result, the shared arrays being [shared]. *)
Definition deref (shared : ResearchResult) (r : BranchResult) : ResearchResult :=
  match r with RShared => shared | ROwn r => r end.

(** [Promise.all] and lines 352-356: once every branch has resolved, the
    call returns the merge of the results. *)
Definition joinAll (shared : ResearchResult) (inv : Invocation) : Invocation :=
  match inv with
  | Running _ _ _ branches =>
      match mapM settled branches with
      | Some results => Returned (merge (deref shared <$> results))
      | None => inv
      end
  | _ => inv
  end.

(** *** One call *)

(** Entering [deepResearch], lines 244-262: the progress record is created
    and the query generator is called. *)
Definition deepResearch (breadth depth : Z) : Invocation :=
  Generating breadth depth (initialProgress breadth depth).

Section Orchestrator.

(** [trimPrompt] of [./ai/providers], not part of the sources at hand. *)
Variable trimPrompt : string → Z → string.

(** Whether the caller passed [onProgress]. *)
Variable onProgress : bool.

(** [contents] of [processSerpResult], lines 101-103. *)
Definition contentsOf (result : SearchResponse) : list string :=
  (λ content, trimPrompt content 25000) <$> compact (markdown <$> result).

(** Lines 286-290: the three [push] calls on the shared arrays. *)
Definition pushAll (shared : ResearchResult) (result : SearchResponse)
    (object : Extraction) : ResearchResult :=
  {| learnings := learnings shared ++ res_learnings object;
     visitedUrls := visitedUrls shared ++ compact (url <$> result);
     sourceContents := sourceContents shared ++ contentsOf result |}.

(** The code that runs in the call [inv] when the outside world answers one
    of its awaited calls: the new shared arrays, the new state of the call,
    and what the sink was called with.  [None]: the call awaits no such
    answer. *)
Definition execHere (a : Answer) (shared : ResearchResult) (inv : Invocation)
    : option (ResearchResult * Invocation * list ResearchProgress) :=
  match a, inv with
  | GenerateOk queries, Generating breadth depth progress =>
      (* lines 87, 264-272 *)
      let serpQueries := slice0 breadth queries in
      let '(progress, notes) :=
        reportProgress onProgress progress
          {| upd_currentDepth := None; upd_totalDepth := None;
             upd_currentBreadth := None; upd_totalBreadth := None;
             upd_currentQuery := Some (query <$> head serpQueries);
             upd_totalQueries := Some (Z.of_nat (length serpQueries));
             upd_completedQueries := None |} in
      Some (shared,
            joinAll shared
              (Running breadth depth progress (pLimit (Queued <$> serpQueries))),
            notes)
  | GenerateErr, Generating _ _ _ =>
      (* the rejection is not caught: the call rejects *)
      Some (shared, Threw, [])
  | SearchOk i result, Running breadth depth progress branches =>
      match branches !! i with
      | Some (Searching serpQuery) =>
          Some (shared,
                Running breadth depth progress
                  (<[i := Processing serpQuery result]> branches),
                [])
      | _ => None
      end
  | SearchErr i _, Running breadth depth progress branches =>
      (* lines 333-347 *)
      match branches !! i with
      | Some (Searching _) =>
          Some (shared,
                joinAll shared
                  (Running breadth depth progress
                     (resolve i (ROwn emptyResult) branches)),
                [])
      | _ => None
      end
  | ExtractErr i _, Running breadth depth progress branches =>
      (* lines 333-347 *)
      match branches !! i with
      | Some (Processing _ _) =>
          Some (shared,
                joinAll shared
                  (Running breadth depth progress
                     (resolve i (ROwn emptyResult) branches)),
                [])
      | _ => None
      end
  | ExtractOk i object, Running breadth depth progress branches =>
      (* lines 286-332 *)
      match branches !! i with
      | Some (Processing serpQuery result) =>
          let shared := pushAll shared result object in
          let newBreadth := newBreadth breadth in
          let newDepth := depth - 1 in
          if bool_decide (newDepth > 0) then
            let '(progress, notes) :=
              reportProgress onProgress progress
                {| upd_currentDepth := Some newDepth; upd_totalDepth := None;
                   upd_currentBreadth := Some newBreadth;
                   upd_totalBreadth := None;
                   upd_currentQuery := Some (Some (query serpQuery));
                   upd_totalQueries := None;
                   upd_completedQueries :=
                     Some (completedQueries progress + 1) |} in
            Some (shared,
                  Running breadth depth progress
                    (<[i := Recursing serpQuery (deepResearch newBreadth newDepth)]>
                       branches),
                  notes)
          else
            let '(progress, notes) :=
              reportProgress onProgress progress
                {| upd_currentDepth := Some 0; upd_totalDepth := None;
                   upd_currentBreadth := None; upd_totalBreadth := None;
                   upd_currentQuery := Some (Some (query serpQuery));
                   upd_totalQueries := None;
                   upd_completedQueries :=
                     Some (completedQueries progress + 1) |} in
            Some (shared,
                  joinAll shared
                    (Running breadth depth progress (resolve i RShared branches)),
                  notes)
      | _ => None
      end
  | _, _ => None
  end.

(** The answer [a] reaches the call at path [p] below [inv].  When a
    recursive call returns, the branch that awaits it resolves with its
    result; when it rejects, the rejection goes up through the [return] of
    line 312 and [Promise.all] to the caller. *)
Fixpoint execAt (p : Path) (a : Answer) (shared : ResearchResult)
    (inv : Invocation)
    : option (ResearchResult * Invocation * list ResearchProgress) :=
  match p with
  | [] => execHere a shared inv
  | i :: p =>
      match inv with
      | Running breadth depth progress branches =>
          match branches !! i with
          | Some (Recursing serpQuery child) =>
              '(shared, child, notes) ← execAt p a shared child;
              Some (shared,
                    match child with
                    | Returned r =>
                        joinAll shared
                          (Running breadth depth progress
                             (resolve i (ROwn r) branches))
                    | Threw => Threw
                    | _ =>
                        Running breadth depth progress
                          (<[i := Recursing serpQuery child]> branches)
                    end,
                    notes)
          | _ => None
          end
      | _ => None
      end
  end.

(** The state of one top-level call: the accumulator arrays shared by the
    whole recursion, the call itself, and every call of the sink so far,
    each with the path of the call whose progress record it was given. *)
Record State := mkState {
  shared : ResearchResult;
  call : Invocation;
  sink : list (Path * ResearchProgress);
}.

(** One step: the answer [a.2] to the call at path [a.1]. *)
Definition exec (a : Path * Answer) (s : State) : option State :=
  '(shared', call', notes) ← execAt a.1 a.2 (shared s) (call s);
  Some {| shared := shared'; call := call';
          sink := sink s ++ ((λ progress, (a.1, progress)) <$> notes) |}.

(** A run: the answers of the outside world, in the order they arrive. *)
Fixpoint run (answers : list (Path * Answer)) (s : State) : option State :=
  match answers with
  | [] => Some s
  | a :: answers => s ← exec a s; run answers s
  end.

(** The call [deepResearch({query, breadth, depth, learnings, visitedUrls,
    sourceContents, onProgress})] of the caller. *)
Definition start (accumulators : ResearchResult) (breadth depth : Z) : State :=
  {| shared := accumulators; call := deepResearch breadth depth; sink := [] |}.

End Orchestrator.

(** ** Reading a state *)

(** The pending call at path [p] below [inv]. *)
Fixpoint callAt (p : Path) (inv : Invocation) : option Invocation :=
  match p with
  | [] => Some inv
  | i :: p =>
      match inv with
      | Running _ _ _ branches =>
          match branches !! i with
          | Some (Recursing _ child) => callAt p child
          | _ => None
          end
      | _ => None
      end
  end.

(** The permits held in the whole recursion: those of the limiter of [inv]
    and of the limiters of every call below it. *)
Fixpoint permitsHeld (inv : Invocation) : nat :=
  match inv with
  | Running _ _ _ branches => list_sum (branchPermits <$> branches)
  | _ => 0
  end
with branchPermits (b : Branch) : nat :=
  match b with
  | Searching _ | Processing _ _ => 1
  | Recursing _ child => 1 + permitsHeld child
  | Queued _ | Resolved _ => 0
  end.

(** The calls of the search provider in flight in the whole recursion. *)
Fixpoint searchesInFlight (inv : Invocation) : nat :=
  match inv with
  | Running _ _ _ branches => list_sum (branchSearches <$> branches)
  | _ => 0
  end
with branchSearches (b : Branch) : nat :=
  match b with
  | Searching _ => 1
  | Recursing _ child => searchesInFlight child
  | Queued _ | Processing _ _ | Resolved _ => 0
  end.

(** The call is still pending. *)
Definition pending (inv : Invocation) : Prop :=
  match inv with
  | Generating _ _ _ | Running _ _ _ _ => True
  | Returned _ | Threw => False
  end.

(** The [breadth] and [depth] arguments of a pending call. *)
Definition breadthOf (inv : Invocation) : option Z :=
  match inv with
  | Generating breadth _ _ | Running breadth _ _ _ => Some breadth
  | Returned _ | Threw => None
  end.

Definition depthOf (inv : Invocation) : option Z :=
  match inv with
  | Generating _ depth _ | Running _ depth _ _ => Some depth
  | Returned _ | Threw => None
  end.

(** The generated pair a branch works on, until it resolves. *)
Definition serpQueryOf (b : Branch) : option SerpQuery :=
  match b with
  | Queued q | Searching q | Processing q _ | Recursing q _ => Some q
  | Resolved _ => None
  end.

(** The [completedQueries] fields of the notifications that carry the
    progress record of the call at path [p], in the order the sink got
    them. *)
Definition notesOf (p : Path) (sink : list (Path * ResearchProgress)) : list Z :=
  completedQueries <$> (snd <$> filter (λ note, note.1 = p) sink).

(** The [completedQueries] fields of every notification, in order. *)
Definition allNotes (sink : list (Path * ResearchProgress)) : list Z :=
  completedQueries <$> (snd <$> sink).

(** ** Kinds of answers and of branches *)

(** The answers that make the [catch] block of a branch run. *)
Definition isFailure (a : Answer) : bool :=
  match a with
  | SearchErr _ _ | ExtractErr _ _ => true
  | _ => false
  end.

Definition isExtractOk (a : Answer) : bool :=
  match a with ExtractOk _ _ => true | _ => false end.

(** The branches waiting in the queue of the limiter. *)
Definition isQueued (b : Branch) : bool :=
  match b with Queued _ => true | _ => false end.

Definition queuedCount (branches : list Branch) : nat :=
  length (filter (λ b, isQueued b = true) branches).

(** ** The words of the statements *)

(** Two lists hold the same strings. *)
Definition same_set (l1 l2 : list string) : Prop := ∀ x, x ∈ l1 ↔ x ∈ l2.

Definition same_result (r1 r2 : ResearchResult) : Prop :=
  same_set (learnings r1) (learnings r2) ∧
  same_set (visitedUrls r1) (visitedUrls r2) ∧
  same_set (sourceContents r1) (sourceContents r2).

(** Monotonically non-decreasing. *)
Definition nondecreasing (xs : list Z) : Prop :=
  ∀ i j x y, (i ≤ j)%nat → xs !! i = Some x → xs !! j = Some y → x ≤ y.

(** Every string of [r] is in the same field of [bound]. *)
Definition within (bound r : ResearchResult) : Prop :=
  learnings r ⊆ learnings bound ∧
  visitedUrls r ⊆ visitedUrls bound ∧
  sourceContents r ⊆ sourceContents bound.

(** The wording of the specification, where it is compared with what
    the code does. *)

(** The entry of a flagged claim as the specification words it:
    [**[SEVERITY]** claim — issue], on one line. *)
Definition specFactEntry (fact : UnsupportedFact) : string :=
  "**[" +:+ severityText (severity fact) +:+ "]** " +:+ claim fact +:+
  " — " +:+ issue fact.

(** [needle] occurs in [text]. *)
Definition occurs (needle text : string) : bool :=
  bool_decide (is_Some (String.index 0 needle text)).

(** ** Invariants of a run *)

(** What holds of every call of a recursion entered with breadth [b0] and
    depth [d0], [n] levels below the top-level call: its breadth and depth,
    the bound of its limiter, the number of its branches, and which depth
    lets a branch recurse or end. *)
Inductive SoundCall (b0 d0 : Z) : nat → Invocation → Prop :=
| sound_generating n breadth depth progress :
    breadth = breadthAt n b0 →
    depth = d0 - Z.of_nat n →
    SoundCall b0 d0 n (Generating breadth depth progress)
| sound_running n breadth depth progress branches :
    breadth = breadthAt n b0 →
    depth = d0 - Z.of_nat n →
    (activeCount branches ≤ ConcurrencyLimit)%nat →
    (0 ≤ breadth → Z.of_nat (length branches) ≤ breadth) →
    Forall (SoundBranch b0 d0 n) branches →
    SoundCall b0 d0 n (Running breadth depth progress branches)
| sound_returned n r : SoundCall b0 d0 n (Returned r)
| sound_threw n : SoundCall b0 d0 n Threw
with SoundBranch (b0 d0 : Z) : nat → Branch → Prop :=
| sound_queued n q : SoundBranch b0 d0 n (Queued q)
| sound_searching n q : SoundBranch b0 d0 n (Searching q)
| sound_processing n q result : SoundBranch b0 d0 n (Processing q result)
| sound_recursing n q child :
    d0 - Z.of_nat n - 1 > 0 →
    pending child →
    SoundCall b0 d0 (S n) child →
    SoundBranch b0 d0 n (Recursing q child)
| sound_resolved_shared n :
    d0 - Z.of_nat n - 1 ≤ 0 →
    SoundBranch b0 d0 n (Resolved RShared)
| sound_resolved_own n r : SoundBranch b0 d0 n (Resolved (ROwn r)).

(** *** The sink against the state *)

(** What a path stands for in a state: a pending call with its count of
    completed queries, a place where a call may still be made, or a place
    where none is and none will be. *)
Inductive Status :=
| Live (completed : Z)
| Fresh
| Dead.

Fixpoint status (inv : Invocation) (p : Path) : Status :=
  match p with
  | [] =>
      match inv with
      | Generating _ _ progress | Running _ _ progress _ =>
          Live (completedQueries progress)
      | Returned _ | Threw => Dead
      end
  | i :: p =>
      match inv with
      | Generating _ _ _ => Fresh
      | Running _ _ _ branches =>
          match branches !! i with
          | Some (Recursing _ child) => status child p
          | Some (Queued _) | Some (Searching _) | Some (Processing _ _) => Fresh
          | Some (Resolved _) | None => Dead
          end
      | Returned _ | Threw => Dead
      end
  end.

(** The status of the paths below branch [i] of a running call. *)
Definition branchStatus (branch : option Branch) (p : Path) : Status :=
  match branch with
  | Some (Recursing _ child) => status child p
  | Some (Queued _) | Some (Searching _) | Some (Processing _ _) => Fresh
  | Some (Resolved _) | None => Dead
  end.

(** How the status of a path may change in a step that is not for it. *)
Definition statusStep (before after : Status) : Prop :=
  match before, after with
  | _, Dead => True
  | Live k, Live k' => k ≤ k'
  | Fresh, Fresh | Fresh, Live _ => True
  | _, _ => False
  end.

(** How the status of the path of a step changes, against the
    notifications of the step. *)
Definition notesStep (before after : Status) (notes : list ResearchProgress)
    : Prop :=
  ∃ k, before = Live k ∧
       Forall (λ note, k ≤ completedQueries note) notes ∧
       nondecreasing (completedQueries <$> notes) ∧
       match after with
       | Live k' => k ≤ k' ∧ Forall (λ note, completedQueries note ≤ k') notes
       | Fresh => False
       | Dead => True
       end.

(** The sink against the state: for every path, the notifications of its
    call so far are non-decreasing and bounded by the count of the call. *)
Definition SinkOk (sink : list (Path * ResearchProgress)) (root : Invocation)
    : Prop :=
  ∀ p, nondecreasing (notesOf p sink) ∧
       match status root p with
       | Live k => Forall (λ x, x ≤ k) (notesOf p sink)
       | Fresh => notesOf p sink = []
       | Dead => True
       end.

(** *** One level of branches *)

(** The limiter leaves a branch in its queue only when it is at capacity. *)
Definition Saturated (branches : list Branch) : Prop :=
  (0 < queuedCount branches)%nat →
  (ConcurrencyLimit ≤ activeCount branches)%nat.

(** A branch of a call that has not recursed, and whose result is the
    shared arrays (only where [allowShared]) or empty. *)
Definition flatBranch (allowShared : bool) (b : Branch) : Prop :=
  match b with
  | Queued _ | Searching _ | Processing _ _ => True
  | Recursing _ _ => False
  | Resolved RShared => allowShared = true
  | Resolved (ROwn r) => r = emptyResult
  end.

(** A state with one level of branches: none has recursed.  This holds of
    a call of depth at most 1 ([allowShared]), and of any call as long as
    no extraction has succeeded. *)
Definition Flat (allowShared : bool) (s : State) : Prop :=
  match call s with
  | Generating _ depth _ => allowShared = true → depth ≤ 1
  | Running _ depth _ branches =>
      (allowShared = true → depth ≤ 1) ∧
      (activeCount branches ≤ ConcurrencyLimit)%nat ∧
      Saturated branches ∧
      Forall (flatBranch allowShared) branches
  | Returned r => r = emptyResult ∨ (allowShared = true ∧ r = merge [shared s])
  | Threw => True
  end.

(** *** What the results hold *)

(** Every result held in the state of a call is within [bound]. *)
Inductive Within (bound : ResearchResult) : Invocation → Prop :=
| within_generating breadth depth progress :
    Within bound (Generating breadth depth progress)
| within_running breadth depth progress branches :
    Forall (WithinBranch bound) branches →
    Within bound (Running breadth depth progress branches)
| within_returned r : within bound r → Within bound (Returned r)
| within_threw : Within bound Threw
with WithinBranch (bound : ResearchResult) : Branch → Prop :=
| within_queued q : WithinBranch bound (Queued q)
| within_searching q : WithinBranch bound (Searching q)
| within_processing q result : WithinBranch bound (Processing q result)
| within_recursing q child :
    Within bound child → WithinBranch bound (Recursing q child)
| within_shared : WithinBranch bound (Resolved RShared)
| within_own r : within bound r → WithinBranch bound (Resolved (ROwn r)).

(** ** Sample answers of the outside world, and sample runs *)

Definition sampleQuery (name : string) : SerpQuery :=
  {| query := name; researchGoal := "goal of " +:+ name |}.

Definition sampleResponse (name : string) : SearchResponse :=
  [ {| url := Some ("https://" +:+ name); markdown := Some ("text of " +:+ name) |} ].

Definition sampleExtraction (name : string) : Extraction :=
  {| res_learnings := ["learning of " +:+ name];
     res_followUpQuestions := ["more on " +:+ name] |}.

(** A [trimPrompt] that keeps short texts as they are. *)
Definition keepText (text : string) (budget : Z) : string := text.

(** Breadth 4 and depth 2: the limiter of the top-level call starts two of
    the four branches; both search, extract and recurse; the two recursive
    calls, of breadth 2, have each started their two branches. *)
Definition twoLevels : list (Path * Answer) :=
  [ ([], GenerateOk [sampleQuery "Q1"; sampleQuery "Q2";
                     sampleQuery "Q3"; sampleQuery "Q4"]);
    ([], SearchOk 0 (sampleResponse "a"));
    ([], ExtractOk 0 (sampleExtraction "a"));
    ([], SearchOk 1 (sampleResponse "b"));
    ([], ExtractOk 1 (sampleExtraction "b"));
    ([0%nat], GenerateOk [sampleQuery "Q5"; sampleQuery "Q6"]);
    ([1%nat], GenerateOk [sampleQuery "Q7"; sampleQuery "Q8"]) ].

(** The state [twoLevels] leads to. *)
Definition twoLevelsState : State :=
  Eval vm_compute in
    default (start emptyResult 4 2)
      (run keepText true twoLevels (start emptyResult 4 2)).

(** The state before the last answer of [twoLevels]: the second recursive
    call still awaits its generated pairs. *)
Definition sixAnswersState : State :=
  Eval vm_compute in
    default (start emptyResult 4 2)
      (run keepText true (take 6 twoLevels) (start emptyResult 4 2)).

(** Answers that follow the first branch of every call [n] levels down from
    the call at path [p]: each call is given exactly [breadth] pairs, its
    first branch searches, extracts and recurses, and at the last level the
    first branch has searched. *)
Fixpoint descend (n : nat) (p : Path) (breadth : Z) : list (Path * Answer) :=
  (p, GenerateOk (replicate (Z.to_nat breadth) (sampleQuery "Q"))) ::
  (p, SearchOk 0 (sampleResponse "a")) ::
  match n with
  | O => []
  | S n =>
      (p, ExtractOk 0 (sampleExtraction "a")) ::
      descend n (p ++ [0%nat]) (newBreadth breadth)
  end.

(** Breadth 1 and depth 2: the top-level branch recurses, and the recursive
    call reports its own progress record. *)
Definition oneThenDeeper : list (Path * Answer) :=
  [ ([], GenerateOk [sampleQuery "Q1"]);
    ([], SearchOk 0 (sampleResponse "a"));
    ([], ExtractOk 0 (sampleExtraction "a"));
    ([0%nat], GenerateOk [sampleQuery "Q2"]) ].

Definition oneThenDeeperState : State :=
  Eval vm_compute in
    default (start emptyResult 1 2)
      (run keepText true oneThenDeeper (start emptyResult 1 2)).

(** Breadth 2 and depth 1, the second search times out: the scenario of
    the specification. *)
Definition oneTimeout : list (Path * Answer) :=
  [ ([], GenerateOk [mkQuery "Q1" "G1"; mkQuery "Q2" "G2"]);
    ([], SearchOk 0 (sampleResponse "a"));
    ([], SearchErr 1 "Timeout");
    ([], ExtractOk 0 (sampleExtraction "a")) ].

Definition oneTimeoutState : State :=
  Eval vm_compute in
    default (start emptyResult 2 1)
      (run keepText true oneTimeout (start emptyResult 2 1)).

(** Breadth 1 and depth 0: the top-level call still generates, searches
    and extracts once, then takes the terminal case. *)
Definition depthZero : list (Path * Answer) :=
  [ ([], GenerateOk [sampleQuery "Q1"]);
    ([], SearchOk 0 (sampleResponse "a"));
    ([], ExtractOk 0 (sampleExtraction "a")) ].

(** The state of [oneTimeout] before the time-out arrives. *)
Definition beforeTimeoutState : State :=
  Eval vm_compute in
    default (start emptyResult 2 1)
      (run keepText true (take 2 oneTimeout) (start emptyResult 2 1)).

(** ** More readings of a state *)

(** The branches that have not resolved: they wait in the queue of the
    limiter or hold one of its permits. *)
Definition isUnresolved (b : Branch) : bool :=
  match b with Resolved _ => false | _ => true end.

Definition unresolvedCount (branches : list Branch) : nat :=
  length (filter (λ b, isUnresolved b = true) branches).

(** The branches that are past line 290: their extraction has arrived, or
    they have failed. *)
Definition isDone (b : Branch) : bool :=
  match b with Recursing _ _ | Resolved _ => true | _ => false end.

Definition doneCount (branches : list Branch) : nat :=
  length (filter (λ b, isDone b = true) branches).

(** What an answer makes line 286 push: the learnings of a successful
    extraction. *)
Definition learnedFrom (a : Answer) : list string :=
  match a with
  | ExtractOk _ object => res_learnings object
  | _ => []
  end.

(** No field of [r] holds a string twice. *)
Definition distinct (r : ResearchResult) : Prop :=
  NoDup (learnings r) ∧ NoDup (visitedUrls r) ∧ NoDup (sourceContents r).

(** The limiter has started its branches in queue order: behind a branch
    that waits, every branch waits. *)
Definition startedInOrder (branches : list Branch) : Prop :=
  ∀ i j b b', (i ≤ j)%nat →
    branches !! i = Some b → branches !! j = Some b' →
    isQueued b = true → isQueued b' = true.

(** The progress record of a running call against the arguments and the
    branches of the call. *)
Definition ProgressOk (breadth depth : Z) (progress : ResearchProgress)
    (branches : list Branch) : Prop :=
  totalDepth progress = depth ∧
  totalBreadth progress = breadth ∧
  totalQueries progress = Z.of_nat (length branches) ∧
  (0 ≤ breadth → totalQueries progress ≤ breadth) ∧
  0 ≤ completedQueries progress ≤ Z.of_nat (doneCount branches) ∧
  (currentDepth progress = depth ∨
   currentDepth progress = Z.max (depth - 1) 0) ∧
  (currentBreadth progress = breadth ∨
   currentBreadth progress = newBreadth breadth).

(** A notification of a call of the given breadth and depth. *)
Definition NoteOk (breadth depth : Z) (note : ResearchProgress) : Prop :=
  totalDepth note = depth ∧
  totalBreadth note = breadth ∧
  (0 ≤ breadth → totalQueries note ≤ breadth) ∧
  0 ≤ completedQueries note ≤ totalQueries note ∧
  (currentDepth note = depth ∨ currentDepth note = Z.max (depth - 1) 0) ∧
  (currentBreadth note = breadth ∨ currentBreadth note = newBreadth breadth).

(** What holds of every call of a recursion, whatever its level: its
    limiter runs all it can, in queue order; a running call has a branch that
    has not resolved; its progress record fits its branches; and the result
    of a finished call holds no string twice. *)
Inductive Orderly : Invocation → Prop :=
| orderly_generating breadth depth :
    Orderly (Generating breadth depth (initialProgress breadth depth))
| orderly_running breadth depth progress branches :
    (activeCount branches ≤ ConcurrencyLimit)%nat →
    Saturated branches →
    startedInOrder branches →
    (0 < unresolvedCount branches)%nat →
    ProgressOk breadth depth progress branches →
    Forall OrderlyBranch branches →
    Orderly (Running breadth depth progress branches)
| orderly_returned r : distinct r → Orderly (Returned r)
| orderly_threw : Orderly Threw
with OrderlyBranch : Branch → Prop :=
| orderly_queued q : OrderlyBranch (Queued q)
| orderly_searching q : OrderlyBranch (Searching q)
| orderly_processing q result : OrderlyBranch (Processing q result)
| orderly_recursing q child :
    Orderly child → OrderlyBranch (Recursing q child)
| orderly_resolved_shared : OrderlyBranch (Resolved RShared)
| orderly_resolved_own r : distinct r → OrderlyBranch (Resolved (ROwn r)).

(** The sink against the recursion: each notification carries the totals of
    the call that sent it. *)
Definition NotesOk (b0 d0 : Z) (sink : list (Path * ResearchProgress)) : Prop :=
  Forall (λ note, NoteOk (breadthAt (length note.1) b0)
                         (d0 - Z.of_nat (length note.1)) note.2) sink.

(** The search responses that branches hold while they await their
    extraction, in the whole recursion. *)
Fixpoint responsesHeld (inv : Invocation) : list SearchResponse :=
  match inv with
  | Running _ _ _ branches => flat_map branchResponses branches
  | _ => []
  end
with branchResponses (b : Branch) : list SearchResponse :=
  match b with
  | Processing _ result => [result]
  | Recursing _ child => responsesHeld child
  | Queued _ | Searching _ | Resolved _ => []
  end.

(** The search response an answer brings. *)
Definition respondedBy (a : Answer) : list SearchResponse :=
  match a with
  | SearchOk _ result => [result]
  | _ => []
  end.

(** The search responses of the answers of a run. *)
Definition responsesOf (answers : list (Path * Answer)) : list SearchResponse :=
  flat_map (λ a, respondedBy a.2) answers.

(** Where the strings of a result come from: a learning is one of a
    successful extraction of the run, a URL is the non-empty [url] of an item
    of a search response of the run, a source content is the trimmed
    non-empty [markdown] of such an item. *)
Definition learningFound (answers : list (Path * Answer)) (learning : string)
    : Prop :=
  ∃ p i object,
    (p, ExtractOk i object) ∈ answers ∧ learning ∈ res_learnings object.

Definition urlFound (answers : list (Path * Answer)) (link : string) : Prop :=
  link ≠ "" ∧
  ∃ p i result item,
    (p, SearchOk i result) ∈ answers ∧ item ∈ result ∧ url item = Some link.

Definition contentFound (trimPrompt : string → Z → string)
    (answers : list (Path * Answer)) (content : string) : Prop :=
  ∃ p i result item text,
    (p, SearchOk i result) ∈ answers ∧ item ∈ result ∧
    markdown item = Some text ∧ text ≠ "" ∧
    content = trimPrompt text 25000.

(** *** The result against the shared arrays *)

(** [r] is an initial segment of the arrays [store] without their
    duplicates, field by field. *)
Definition segmentOf (store r : ResearchResult) : Prop :=
  learnings r `prefix_of` uniq (learnings store) ∧
  visitedUrls r `prefix_of` uniq (visitedUrls store) ∧
  sourceContents r `prefix_of` uniq (sourceContents store).

(** The arrays [store] have grown into [store']. *)
Definition grownInto (store store' : ResearchResult) : Prop :=
  learnings store `prefix_of` learnings store' ∧
  visitedUrls store `prefix_of` visitedUrls store' ∧
  sourceContents store `prefix_of` sourceContents store'.

(** Every result held in the state of a call is an initial segment of
    [bound] without its duplicates. *)
Inductive Segments (bound : ResearchResult) : Invocation → Prop :=
| segments_generating breadth depth progress :
    Segments bound (Generating breadth depth progress)
| segments_running breadth depth progress branches :
    Forall (SegmentsBranch bound) branches →
    Segments bound (Running breadth depth progress branches)
| segments_returned r : segmentOf bound r → Segments bound (Returned r)
| segments_threw : Segments bound Threw
with SegmentsBranch (bound : ResearchResult) : Branch → Prop :=
| segments_queued q : SegmentsBranch bound (Queued q)
| segments_searching q : SegmentsBranch bound (Searching q)
| segments_processing q result : SegmentsBranch bound (Processing q result)
| segments_recursing q child :
    Segments bound child → SegmentsBranch bound (Recursing q child)
| segments_shared : SegmentsBranch bound (Resolved RShared)
| segments_own r : segmentOf bound r → SegmentsBranch bound (Resolved (ROwn r)).

(** Breadth 2 and depth 2.  The first branch recurses, and the call it
    makes returns what the arrays hold by then.  The second branch extracts
    a learning after that and recurses, and the one search of the call it
    makes times out. *)
Definition lateLearning : list (Path * Answer) :=
  [ ([], GenerateOk [sampleQuery "Q1"; sampleQuery "Q2"]);
    ([], SearchOk 0 (sampleResponse "a"));
    ([], ExtractOk 0 (sampleExtraction "a"));
    ([0%nat], GenerateOk [sampleQuery "Q3"]);
    ([0%nat], SearchOk 0 (sampleResponse "c"));
    ([0%nat], ExtractOk 0 (sampleExtraction "c"));
    ([], SearchOk 1 (sampleResponse "b"));
    ([], ExtractOk 1 (sampleExtraction "b"));
    ([1%nat], GenerateOk [sampleQuery "Q4"]);
    ([1%nat], SearchErr 0 "Timeout") ].

Definition lateLearningState : State :=
  Eval vm_compute in
    default (start emptyResult 2 2)
      (run keepText true lateLearning (start emptyResult 2 2)).

(** *** The answers a call can take *)

(** The levels below a call of depth [depth]: a branch recurses while
    [depth - 1 > 0]. *)
Definition levelsBelow (depth : Z) : nat := Z.to_nat (depth - 1).

(** The answers a call of breadth [breadth] with [below] levels below it can
    take: one for its queries and, for each of its [breadth] branches, one
    for the search, one for the extraction and those of the recursive
    call. *)
Fixpoint answersBound (below : nat) (breadth : Z) : nat :=
  1 + Z.to_nat breadth *
      (2 + match below with
           | O => 0
           | S below => answersBound below (newBreadth breadth)
           end).

(** The answers the recursive call of a branch can take. *)
Definition deeperBound (below : nat) (breadth : Z) : nat :=
  match below with
  | O => 0
  | S below => answersBound below (newBreadth breadth)
  end.

(** The answers a call can still take, in the state it is in. *)
Fixpoint answersLeft (inv : Invocation) : nat :=
  match inv with
  | Generating breadth depth _ => answersBound (levelsBelow depth) breadth
  | Running breadth depth _ branches =>
      list_sum (branchAnswersLeft (deeperBound (levelsBelow depth) breadth)
                  <$> branches)
  | Returned _ | Threw => 0
  end
with branchAnswersLeft (deeper : nat) (b : Branch) {struct b} : nat :=
  match b with
  | Queued _ | Searching _ => 2 + deeper
  | Processing _ _ => 1 + deeper
  | Recursing _ child => answersLeft child
  | Resolved _ => 0
  end.

(** * The command-line program: [src/run.ts]

    [run] asks for a query, a breadth and a depth, researches, and then
    answers follow-up questions until the user types [exit];
    [performResearch] is one research: it calls [deepResearch] and
    [writeFinalReport] of [src/deep-research.ts] and keeps [output.md] and
    the module variable [previousReport].

    The program is embedded in a state monad over a [World]: the lines the
    user will type, the file [output.md], the variable [previousReport], and
    the calls made so far.  A promise resolves ([Done]), rejects
    ([Rejected]) or stays pending ([Waiting]).  The texts written to the
    console are not part of the world. *)

Module Cli.

(** The calls the program makes, in order. *)
Inductive Event :=
| Asked (question : string)
    (* rl.question, line 23 *)
| FeedbackCall (query : string)
    (* generateFeedback, line 41 *)
| ResearchCall (query : string) (breadth depth : Z)
    (* deepResearch, line 67 *)
| Called (modelCall : ModelCall).
    (* a generateObject call of writeFinalReport, line 84 *)

Record World := mkWorld {
  stdin : list string;
    (* the lines the user will type, in order *)
  outputMd : option string;
    (* the content of output.md, [None] while there is no such file *)
  previousReport : string;
    (* [let previousReport = ''], line 30 *)
  events : list Event;
}.

(** The state of a promise when nothing more happens. *)
Inductive Outcome (A : Type) :=
| Done (a : A)
| Rejected
| Waiting.

Arguments Done {A} a.
Arguments Rejected {A}.
Arguments Waiting {A}.

Definition M (A : Type) : Type := World → Outcome A * World.

#[global] Instance M_ret : MRet M := λ A a w, (Done a, w).

#[global] Instance M_bind : MBind M := λ A B k m w,
  match m w with
  | (Done a, w) => k a w
  | (Rejected, w) => (Rejected, w)
  | (Waiting, w) => (Waiting, w)
  end.

Definition record (e : list Event) : M unit := λ w,
  (Done tt, {| stdin := stdin w; outputMd := outputMd w;
               previousReport := previousReport w;
               events := events w ++ e |}).

Definition getPreviousReport : M string := λ w, (Done (previousReport w), w).

Definition setPreviousReport (text : string) : M unit := λ w,
  (Done tt, {| stdin := stdin w; outputMd := outputMd w;
               previousReport := text; events := events w |}).

(** [fs.writeFile('output.md', data)]: the file is created or replaced. *)
Definition writeFile (data : string) : M unit := λ w,
  (Done tt, {| stdin := stdin w; outputMd := Some data;
               previousReport := previousReport w; events := events w |}).

(** [fs.appendFile('output.md', data)]: the file is created when there is
    none. *)
Definition appendFile (data : string) : M unit := λ w,
  (Done tt, {| stdin := stdin w;
               outputMd := Some (default "" (outputMd w) +:+ data);
               previousReport := previousReport w; events := events w |}).

(** [askQuestion], lines 21-27: the promise resolves with the next line the
    user types, and stays pending when there is none. *)
Definition askQuestion (query : string) : M string := λ w,
  match stdin w with
  | [] =>
      (Waiting, {| stdin := []; outputMd := outputMd w;
                   previousReport := previousReport w;
                   events := events w ++ [Asked query] |})
  | answer :: rest =>
      (Done answer, {| stdin := rest; outputMd := outputMd w;
                       previousReport := previousReport w;
                       events := events w ++ [Asked query] |})
  end.

(** The prompt of line 52. *)
Definition questionPrompt (question : string) : string :=
  LF +:+ question +:+ LF +:+ "Your answer: ".

(** Lines 51-54: the answers to the questions, asked one by one. *)
Fixpoint askAll (questions : list string) : M (list string) :=
  match questions with
  | [] => mret []
  | question :: questions =>
      answer ← askQuestion (questionPrompt question);
      answers ← askAll questions;
      mret (answer :: answers)
  end.

(** [contextualQuery], lines 35-37. *)
Definition contextualQuery (previousReport query : string) (isFollowUp : bool)
    : string :=
  if isFollowUp
  then "Previous Research:" +:+ LF +:+ previousReport +:+ LF +:+ LF +:+
       "Follow-up Question: " +:+ query
  else query.

(** The text of lines 57-61; [answers] is as long as [followUpQuestions]. *)
Definition combinedQuery (query : string) (followUpQuestions answers : list string)
    : string :=
  LF +:+ "Initial Query: " +:+ query +:+ LF +:+
  "Follow-up Questions and Answers:" +:+ LF +:+
  join LF (zip_with (λ q a, "Q: " +:+ q +:+ LF +:+ "A: " +:+ a)
             followUpQuestions answers) +:+ LF.

(** [followUpSection], line 98. *)
Definition followUpSection (query report : string) : string :=
  LF +:+ LF +:+ "## Follow-up Question" +:+ LF +:+ "**Q:** " +:+ query +:+
  LF +:+ LF +:+ "**A:** " +:+ report.

(** [n || d] on numbers: [NaN] ([None]) and [0] are falsy. *)
Definition orDefault (n : option Z) (d : Z) : Z :=
  match n with
  | Some n => if decide (n = 0) then d else n
  | None => d
  end.

(** The double quote of the follow-up prompt. *)
Definition DQ : string := String (Ascii.ascii_of_nat 34) EmptyString.

(** The prompt of line 138. *)
Definition followUpPrompt : string :=
  LF +:+ "Enter a follow-up question (or type " +:+ DQ +:+ "exit" +:+ DQ +:+
  " to quit): ".

Section Program.

(** [trimPrompt] of [./ai/providers], not part of the sources at hand. *)
Variable trimPrompt : string → Z → string.

(** [parseInt(text, 10)], [None] for [NaN], and [text.toLowerCase()]. *)
Variable parseInt : string → option Z.
Variable toLowerCase : string → string.

(** The outside world, which may answer by everything that has happened:
    [generateFeedback] of [./feedback], not part of the sources at hand
    ([None] when it rejects); the answers given to the awaited calls of a
    [deepResearch] call, in the order they arrive; the two model calls of
    [writeFinalReport]. *)
Variable generateFeedback : list Event → string → option (list string).
Variable outside : list Event → string → Z → Z → list (Path * Answer).
Variable generateReport : list Event → string → option string.
Variable generateFactCheck : list Event → string → option FactCheckResult.

(** Line 41. *)
Definition feedback (query : string) : M (list string) := λ w,
  let w' := {| stdin := stdin w; outputMd := outputMd w;
               previousReport := previousReport w;
               events := events w ++ [FeedbackCall query] |} in
  match generateFeedback (events w) query with
  | Some questions => (Done questions, w')
  | None => (Rejected, w')
  end.

(** Lines 67-74: [deepResearch({query, breadth, depth, onProgress})], with
    empty accumulators of its own and a sink.  The call resolves with what
    the top-level call returns, rejects when it throws, and stays pending
    while it is pending; answers that no call awaits describe no execution
    and leave it pending too. *)
Definition research (query : string) (breadth depth : Z) : M ResearchResult :=
  λ w,
  let w' := {| stdin := stdin w; outputMd := outputMd w;
               previousReport := previousReport w;
               events := events w ++ [ResearchCall query breadth depth] |} in
  match run trimPrompt true (outside (events w) query breadth depth)
          (start emptyResult breadth depth) with
  | Some s =>
      match call s with
      | Returned result => (Done result, w')
      | Threw => (Rejected, w')
      | Generating _ _ _ | Running _ _ _ _ => (Waiting, w')
      end
  | None => (Waiting, w')
  end.

(** Lines 84-88: [writeFinalReport({prompt, learnings, visitedUrls})]; the
    caller leaves [sourceContents] out. *)
Definition finalReport (prompt : string) (learnings visitedUrls : list string)
    : M string := λ w,
  let '(calls, report) :=
    writeFinalReport trimPrompt (generateReport (events w))
      (generateFactCheck (events w)) prompt learnings visitedUrls None in
  let w' := {| stdin := stdin w; outputMd := outputMd w;
               previousReport := previousReport w;
               events := events w ++ (Called <$> calls) |} in
  match report with
  | Some report => (Done report, w')
  | None => (Rejected, w')
  end.

(** [performResearch], lines 33-110.  The text that line 57 assigns to
    [query] holds the answers of the user; it is read only by the follow-up
    section of line 98, which a call that has asked the questions does not
    reach. *)
Definition performResearch (query : string) (breadth depth : Z)
    (isFollowUp : bool) : M string :=
  previous ← getPreviousReport;
  let contextualQuery := contextualQuery previous query isFollowUp in
  query ← (if negb isFollowUp
           then
             followUpQuestions ← feedback contextualQuery;
             answers ← askAll followUpQuestions;
             mret (combinedQuery query followUpQuestions answers)
           else mret query);
  result ← research contextualQuery breadth depth;
  report ← finalReport contextualQuery (learnings result) (visitedUrls result);
  if negb isFollowUp
  then
    writeFile report;;
    setPreviousReport report;;
    mret report
  else
    let followUpSection := followUpSection query report in
    appendFile followUpSection;;
    previous ← getPreviousReport;
    setPreviousReport (previous +:+ followUpSection);;
    mret report.

(** The loop of lines 137-146.  Each turn reads a line; [fuel] bounds the
    turns, and [None] tells that it ran out. *)
Fixpoint followUps (fuel : nat) (breadth depth : Z) (w : World)
    : option (Outcome unit * World) :=
  match fuel with
  | O => None
  | S fuel =>
      match askQuestion followUpPrompt w with
      | (Done followUpQuery, w) =>
          if decide (toLowerCase followUpQuery = "exit")
          then Some (Done tt, w)
          else
            match performResearch followUpQuery (Z.min breadth 2)
                    (Z.min depth 2) true w with
            | (Done _, w) => followUps fuel breadth depth w
            | (Rejected, w) => Some (Rejected, w)
            | (Waiting, w) => Some (Waiting, w)
            end
      | (Rejected, w) => Some (Rejected, w)
      | (Waiting, w) => Some (Waiting, w)
      end
  end.

(** Lines 115-134: the three questions and the initial research. *)
Definition initialResearch : M (Z * Z) :=
  initialQuery ← askQuestion "What would you like to research? ";
  breadthText ←
    askQuestion "Enter research breadth (recommended 2-10, default 4): ";
  let breadth := orDefault (parseInt breadthText) 4 in
  depthText ←
    askQuestion "Enter research depth (recommended 1-5, default 2): ";
  let depth := orDefault (parseInt depthText) 2 in
  performResearch initialQuery breadth depth false;;
  mret (breadth, depth).

(** [run], lines 113-149. *)
Definition run (fuel : nat) (w : World) : option (Outcome unit * World) :=
  match initialResearch w with
  | (Done (breadth, depth), w) => followUps fuel breadth depth w
  | (Rejected, w) => Some (Rejected, w)
  | (Waiting, w) => Some (Waiting, w)
  end.

End Program.

(** The [deepResearch] calls among the events, with their arguments. *)
Definition researchCalls (events : list Event) : list (string * Z * Z) :=
  omap (λ e, match e with
             | ResearchCall query breadth depth => Some (query, breadth, depth)
             | _ => None
             end) events.

(** The calls of the fact-check model among the events. *)
Definition isFactCheck (e : Event) : bool :=
  match e with Called (FactCheckCall _) => true | _ => false end.

(** The world [w] with other lines to come from the user. *)
Definition typing (lines : list string) (w : World) : World :=
  {| stdin := lines; outputMd := outputMd w;
     previousReport := previousReport w; events := events w |}.

(** The world the program starts in: no line read, no call made, and
    [output.md] as an earlier session may have left it. *)
Definition initialWorld (lines : list string) (file : option string) : World :=
  {| stdin := lines; outputMd := file; previousReport := ""; events := [] |}.

End Cli.

(** ** A sample session of the command-line program *)

(** A [parseInt] that knows three numerals, and a [toLowerCase] that knows
    one word. *)
Definition sampleParseInt (text : string) : option Z :=
  if decide (text = "2") then Some 2
  else if decide (text = "1") then Some 1
  else if decide (text = "0") then Some 0
  else None.

Definition sampleLower (text : string) : string :=
  if decide (text = "EXIT") then "exit" else text.

(** An outside world that asks one question, answers every research as in
    [oneTimeout], writes the same report body every time, and has a
    fact-check model that would reject. *)
Definition sampleFeedback (history : list Cli.Event) (query : string)
    : option (list string) :=
  Some ["Which years?"].

Definition sampleOutside (history : list Cli.Event) (query : string)
    (breadth depth : Z) : list (Path * Answer) :=
  oneTimeout.

Definition sampleReportModel (history : list Cli.Event) (prompt : string)
    : option string :=
  Some "Body".

Definition sampleFactCheckModel (history : list Cli.Event) (prompt : string)
    : option FactCheckResult :=
  None.

(** The user asks for a topic with breadth 2 and depth 1, answers the
    question, asks one follow-up question and leaves. *)
Definition sampleLines : list string :=
  ["topic"; "2"; "1"; "the 1990s"; "and later?"; "EXIT"].

Definition sampleProgram (fuel : nat) (w : Cli.World)
    : option (Cli.Outcome unit * Cli.World) :=
  Cli.run keepText sampleParseInt sampleLower sampleFeedback sampleOutside
    sampleReportModel sampleFactCheckModel fuel w.

(** The initial research of the sample session, and the whole session. *)
Definition sampleResearch : Cli.Outcome string * Cli.World :=
  Eval vm_compute in
    Cli.performResearch keepText sampleFeedback sampleOutside sampleReportModel
      sampleFactCheckModel "topic" 2 1 false
      (Cli.initialWorld ["the 1990s"; "and later?"; "EXIT"] None).

Definition sampleSession : Cli.Outcome unit * Cli.World :=
  Eval vm_compute in
    default (Cli.Waiting, Cli.initialWorld [] None)
      (sampleProgram 7 (Cli.initialWorld sampleLines None)).

(** The report of the initial research of the sample session. *)
Definition sampleReport : string :=
  Eval vm_compute in
    match sampleResearch.1 with
    | Cli.Done report => report
    | _ => ""
    end.

(** Three generated pairs, for a call of negative breadth. *)
Definition threeQueries : list SerpQuery :=
  [sampleQuery "Q1"; sampleQuery "Q2"; sampleQuery "Q3"].


(** ** What the surviving branches found *)

(** The search responses received in a run, each with the branch that
    received it (the path of its call and its index there), the latest
    first. *)
Definition Responses : Type := list (Path * nat * SearchResponse).

Fixpoint responseAt (p : Path) (i : nat) (held : Responses)
    : option SearchResponse :=
  match held with
  | [] => None
  | (p', j, result) :: held =>
      if decide (p' = p ∧ j = i) then Some result else responseAt p i held
  end.

(** The responses received once the answer [a] has arrived. *)
Definition hold (held : Responses) (a : Path * Answer) : Responses :=
  match a.2 with
  | SearchOk i result => (a.1, i, result) :: held
  | _ => held
  end.

(** The response an answer brings to the branch [i] of the call at [p]. *)
Definition broughtTo (a : Path * Answer) (p : Path) (i : nat)
    : option SearchResponse :=
  match a.2 with
  | SearchOk j result => if decide (a.1 = p ∧ j = i) then Some result else None
  | _ => None
  end.

(** The response that the branch [i] of the call at [p] holds while it
    awaits its extraction. *)
Definition heldAt (p : Path) (i : nat) (inv : Invocation)
    : option SearchResponse :=
  match callAt p inv with
  | Some (Running _ _ _ branches) =>
      match branches !! i with
      | Some (Processing _ result) => Some result
      | _ => None
      end
  | _ => None
  end.

Section Found.

Variable trimPrompt : string → Z → string.

(** What a branch finds, by the answers alone: the search of the branch
    succeeded with [result] and its extraction has now succeeded too (the
    branch survives), so it adds its learnings, the URLs of the response
    that are not empty, and the trimmed contents of the response that are
    not empty.  Any other answer, a failure among them, adds nothing. *)
Definition foundAt (held : Responses) (found : ResearchResult)
    (a : Path * Answer) : ResearchResult :=
  match a.2 with
  | ExtractOk i object =>
      match responseAt a.1 i held with
      | Some result =>
          {| learnings := learnings found ++ res_learnings object;
             visitedUrls := visitedUrls found ++ compact (url <$> result);
             sourceContents :=
               sourceContents found
               ++ ((λ content, trimPrompt content 25000)
                     <$> compact (markdown <$> result)) |}
      | None => found
      end
  | _ => found
  end.

(** What the surviving branches of a run have found, in the order in which
    their extractions arrived, after [found]. *)
Fixpoint foundBy (held : Responses) (found : ResearchResult)
    (answers : list (Path * Answer)) : ResearchResult :=
  match answers with
  | [] => found
  | a :: answers => foundBy (hold held a) (foundAt held found a) answers
  end.

End Found.

(** A branch of the run has survived: an extraction has succeeded. *)
Definition survived (answers : list (Path * Answer)) : bool :=
  existsb (λ a, isExtractOk a.2) answers.

(** A branch of [branches] has resolved with the shared arrays. *)
Definition resolvedShared (branches : list Branch) : Prop :=
  ∃ i, branches !! i = Some (Resolved RShared).

(** A state with one level of branches against the answers so far: a branch
    has resolved with the shared arrays exactly when an extraction has
    succeeded, and the call returns the shared arrays without duplicates
    when one has, the empty result when none has. *)
Definition Survived (flag : bool) (s : State) : Prop :=
  match call s with
  | Generating _ _ _ => flag = false
  | Running _ _ _ branches => flag = true ↔ resolvedShared branches
  | Returned r => r = if flag then merge [shared s] else emptyResult
  | Threw => True
  end.

(** The wording of the specification, where it is compared with what the
    code does: the result of a call whose caller passed no arrays holds
    exactly what the surviving branches found. *)
Definition holdsWhatSurvivorsFound (trimPrompt : string → Z → string)
    (answers : list (Path * Answer)) (r : ResearchResult) : Prop :=
  let found := foundBy trimPrompt [] emptyResult answers in
  (∀ x, x ∈ learnings r ↔ x ∈ learnings found) ∧
  (∀ x, x ∈ visitedUrls r ↔ x ∈ visitedUrls found) ∧
  (∀ x, x ∈ sourceContents r ↔ x ∈ sourceContents found).

(** Breadth 1 and depth 2: the branch of the top-level call searches,
    extracts and recurses; the search of the one branch of the recursive
    call times out. *)
Definition nestedFailure : list (Path * Answer) :=
  oneThenDeeper ++ [([0%nat], SearchErr 0 "Timeout")].

Definition nestedFailureState : State :=
  Eval vm_compute in
    default (start emptyResult 1 2)
      (run keepText true nestedFailure (start emptyResult 1 2)).
(** * Part II: proofs *)

(** Case analysis on the branch an answer is for, and on the depth test of
    line 295. *)
Ltac answer_cases :=
  repeat match goal with
    | H : context [?bs !! ?i] |- _ =>
        destruct (bs !! i) as [[] |]; simplify_eq/=
    | H : context [bool_decide _] |- _ => case_bool_decide; simplify_eq/=
    end.

(** ** Facts about [uniq] *)

Section Uniq.

Lemma elem_of_Set_add s x y : y ∈ Set_add s x ↔ y ∈ s ∨ y = x.
Proof.
  unfold Set_add. case_decide as Hin.
  - split; [by left | intros [? | ->]; done].
  - rewrite elem_of_app, list_elem_of_singleton. done.
Qed.

Lemma elem_of_fold_Set_add xs s y :
  y ∈ fold_left Set_add xs s ↔ y ∈ s ∨ y ∈ xs.
Proof.
  revert s. induction xs as [| x xs IH]; intros s; simpl.
  - rewrite elem_of_nil. tauto.
  - rewrite IH, elem_of_Set_add, elem_of_cons. tauto.
Qed.

Lemma elem_of_uniq xs y : y ∈ uniq xs ↔ y ∈ xs.
Proof.
  unfold uniq. rewrite elem_of_fold_Set_add, elem_of_nil. tauto.
Qed.

Lemma NoDup_Set_add s x : NoDup s → NoDup (Set_add s x).
Proof.
  intros Hs. unfold Set_add. case_decide as Hin; [done |].
  apply NoDup_app. split_and!; [done | | apply NoDup_singleton].
  intros y Hy ->%list_elem_of_singleton. done.
Qed.

Lemma NoDup_fold_Set_add xs s : NoDup s → NoDup (fold_left Set_add xs s).
Proof.
  revert s. induction xs as [| x xs IH]; intros s Hs; simpl; [done |].
  by apply IH, NoDup_Set_add.
Qed.

Lemma NoDup_uniq xs : NoDup (uniq xs).
Proof. apply NoDup_fold_Set_add, NoDup_nil_2. Qed.

(** Adding strings that are all present changes nothing. *)
Lemma fold_Set_add_absorb xs s :
  (∀ x, x ∈ xs → x ∈ s) → fold_left Set_add xs s = s.
Proof.
  induction xs as [| x xs IH]; intros Hsub; simpl; [done |].
  unfold Set_add at 2. rewrite decide_True by (apply Hsub; left).
  apply IH. intros y Hy. apply Hsub. by right.
Qed.

Lemma uniq_app xs ys : uniq (xs ++ ys) = fold_left Set_add ys (uniq xs).
Proof. unfold uniq. by rewrite fold_left_app. Qed.

Lemma uniq_app_same xs : uniq (xs ++ xs) = uniq xs.
Proof.
  rewrite uniq_app. apply fold_Set_add_absorb.
  intros x Hx. by apply elem_of_uniq.
Qed.

Lemma uniq_nil : uniq [] = [].
Proof. done. Qed.

Lemma uniq_same_set xs ys : same_set xs ys → same_set (uniq xs) (uniq ys).
Proof. intros H x. rewrite !elem_of_uniq. apply H. Qed.

Lemma uniq_perm xs ys : same_set xs ys → uniq xs ≡ₚ uniq ys.
Proof.
  intros H. apply NoDup_Permutation; [apply NoDup_uniq .. |].
  by apply uniq_same_set.
Qed.

End Uniq.

(** ** Facts about [merge] *)

Lemma elem_of_flat_map_field (f : ResearchResult → list string) rs x :
  x ∈ flat_map f rs ↔ ∃ r, r ∈ rs ∧ x ∈ f r.
Proof.
  rewrite list_elem_of_In, in_flat_map.
  split; intros (r & Hr & Hx); exists r; by rewrite ?list_elem_of_In in *.
Qed.

(** C4: [merge] is the union of the branch results, field by field, on exact
    string equality; it does not depend on the order of its two arguments as
    far as the set of strings of each field goes (the two lists are
    permutations of each other), and merging a result with itself is merging
    it once. *)
Theorem merge_commutative_idempotent (A B : ResearchResult) :
  (∀ x, x ∈ learnings (merge [A; B]) ↔ x ∈ learnings A ∨ x ∈ learnings B) ∧
  (∀ x, x ∈ visitedUrls (merge [A; B]) ↔
        x ∈ visitedUrls A ∨ x ∈ visitedUrls B) ∧
  (∀ x, x ∈ sourceContents (merge [A; B]) ↔
        x ∈ sourceContents A ∨ x ∈ sourceContents B) ∧
  (NoDup (learnings (merge [A; B])) ∧ NoDup (visitedUrls (merge [A; B])) ∧
   NoDup (sourceContents (merge [A; B]))) ∧
  same_result (merge [A; B]) (merge [B; A]) ∧
  (learnings (merge [A; B]) ≡ₚ learnings (merge [B; A]) ∧
   visitedUrls (merge [A; B]) ≡ₚ visitedUrls (merge [B; A]) ∧
   sourceContents (merge [A; B]) ≡ₚ sourceContents (merge [B; A])) ∧
  merge [A; A] = merge [A].
Proof.
  assert (Hsw : ∀ f : ResearchResult → list string,
             same_set (flat_map f [A; B]) (flat_map f [B; A])).
  { intros f x. simpl. rewrite !app_nil_r, !elem_of_app. tauto. }
  assert (Hun : ∀ (f : ResearchResult → list string) x,
             x ∈ uniq (flat_map f [A; B]) ↔ x ∈ f A ∨ x ∈ f B).
  { intros f x. simpl. by rewrite app_nil_r, elem_of_uniq, elem_of_app. }
  split_and!.
  - apply (Hun learnings).
  - apply (Hun visitedUrls).
  - apply (Hun sourceContents).
  - apply NoDup_uniq.
  - apply NoDup_uniq.
  - apply NoDup_uniq.
  - split_and!; apply uniq_same_set, Hsw.
  - apply uniq_perm, Hsw.
  - apply uniq_perm, Hsw.
  - apply uniq_perm, Hsw.
  - unfold merge; simpl. rewrite !app_nil_r, !uniq_app_same. done.
Qed.

(** C9: an update overwrites exactly the fields present in the partial
    record, each other field keeps its value, and the sink is then called
    once, with the whole updated record. *)
Theorem reportProgress_frame (progress : ResearchProgress)
    (update : PartialProgress) :
  let progress' := (reportProgress true progress update).1 in
  (∀ v, upd_currentDepth update = Some v → currentDepth progress' = v) ∧
  (upd_currentDepth update = None →
   currentDepth progress' = currentDepth progress) ∧
  (∀ v, upd_totalDepth update = Some v → totalDepth progress' = v) ∧
  (upd_totalDepth update = None → totalDepth progress' = totalDepth progress) ∧
  (∀ v, upd_currentBreadth update = Some v → currentBreadth progress' = v) ∧
  (upd_currentBreadth update = None →
   currentBreadth progress' = currentBreadth progress) ∧
  (∀ v, upd_totalBreadth update = Some v → totalBreadth progress' = v) ∧
  (upd_totalBreadth update = None →
   totalBreadth progress' = totalBreadth progress) ∧
  (∀ v, upd_currentQuery update = Some v → currentQuery progress' = v) ∧
  (upd_currentQuery update = None →
   currentQuery progress' = currentQuery progress) ∧
  (∀ v, upd_totalQueries update = Some v → totalQueries progress' = v) ∧
  (upd_totalQueries update = None →
   totalQueries progress' = totalQueries progress) ∧
  (∀ v, upd_completedQueries update = Some v → completedQueries progress' = v) ∧
  (upd_completedQueries update = None →
   completedQueries progress' = completedQueries progress) ∧
  (reportProgress true progress update).2 = [progress'].
Proof.
  destruct update; simpl.
  split_and!; first [by intros ? -> | by intros -> | done].
Qed.

Lemma slice0_nonneg {A} (n : Z) (xs : list A) :
  0 ≤ n → slice0 n xs = take (Z.to_nat n) xs.
Proof.
  intros Hn. unfold slice0.
  destruct (Z.ltb_spec n 0) as [? | _]; [lia |].
  destruct (Z.le_gt_cases n (Z.of_nat (length xs))).
  - by rewrite Z.min_l.
  - rewrite Z.min_r by lia. rewrite Nat2Z.id.
    rewrite !take_ge; [done | lia | lia].
Qed.

Lemma length_slice0 {A} (n : Z) (xs : list A) :
  0 ≤ n → (Z.of_nat (length (slice0 n xs)) ≤ n)%Z.
Proof.
  intros Hn. rewrite slice0_nonneg by done. rewrite length_take. lia.
Qed.

Lemma newBreadth_div (b : Z) : newBreadth b = - (- b / 2).
Proof.
  unfold newBreadth, Qceiling, Qfloor.
  unfold Qdiv, Qmult, Qinv, Qopp, inject_Z; simpl.
  by rewrite Z.mul_1_r.
Qed.

Lemma breadthAt_div (n : nat) (b : Z) : breadthAt n b = - (- b / 2 ^ Z.of_nat n).
Proof.
  induction n as [| n IH].
  - simpl. rewrite Z.div_1_r. lia.
  - unfold breadthAt in *. simpl Nat.iter. rewrite IH, newBreadth_div.
    rewrite Z.opp_involutive, Z.div_div by lia.
    rewrite Nat2Z.inj_succ, Z.pow_succ_r by lia.
    by rewrite (Z.mul_comm 2).
Qed.

Lemma breadthAt_ceil (n : nat) (b : Z) :
  breadthAt n b = Qceiling (inject_Z b / inject_Z (2 ^ Z.of_nat n)).
Proof.
  rewrite breadthAt_div.
  assert (Hpos : 0 < 2 ^ Z.of_nat n) by (apply Z.pow_pos_nonneg; lia).
  destruct (2 ^ Z.of_nat n) as [| p | p] eqn:Hp; try lia.
  unfold Qceiling, Qfloor, Qdiv, Qmult, Qinv, Qopp, inject_Z; simpl.
  by rewrite Z.mul_1_r.
Qed.

Lemma newBreadth_nonneg (b : Z) : 0 ≤ b → 0 ≤ newBreadth b.
Proof.
  intros Hb. rewrite newBreadth_div.
  assert (- b / 2 ≤ 0) by (apply Z.div_le_upper_bound; lia). lia.
Qed.

(** ** Facts about the report assembler *)

Section AssemblerFacts.

Variable trimPrompt : string → Z → string.
Variable generateReport : string → option string.
Variable generateFactCheck : string → option FactCheckResult.

Local Abbreviation reportPrompt := (reportPrompt trimPrompt).
Local Abbreviation factCheck := (factCheck trimPrompt generateFactCheck).
Local Abbreviation writeFinalReport :=
  (writeFinalReport trimPrompt generateReport generateFactCheck).

(** C7: with no source content the fact-check model is not called, by
    [factCheck] or by the assembler around it, and the result is the fixed
    fallback: no flagged claim and the fixed assessment text. *)
Theorem factCheck_no_sources (prompt report : string)
    (learnings visitedUrls : list string) :
  factCheck report (Some []) = ([], Some factCheckFallback) ∧
  factCheck report None = ([], Some factCheckFallback) ∧
  unsupportedFacts factCheckFallback = [] ∧
  overallAssessment factCheckFallback =
    "Unable to fact check - no source content available" ∧
  (∀ ask, FactCheckCall ask ∉ (writeFinalReport prompt learnings visitedUrls (Some [])).1) ∧
  (∀ body, generateReport (reportPrompt prompt learnings) = Some body →
     writeFinalReport prompt learnings visitedUrls (Some []) =
       ([ReportCall (reportPrompt prompt learnings)],
        Some (body +:+ factCheckSection factCheckFallback +:+
              urlsSection visitedUrls))).
Proof.
  split_and!; try done.
  - intros ask. unfold writeFinalReport.
    destruct (generateReport _); simpl;
      rewrite ?elem_of_cons, ?elem_of_nil; intros [? | []]; discriminate.
  - intros body Hbody. unfold writeFinalReport. by rewrite Hbody.
Qed.

(** C8 as amended: when the model calls answer, the assembler returns the
    report body, then the fact-check section, then the sources section.
    The fact-check section is the [## Fact Check] heading and the
    assessment, followed either by the [### Potential Issues] heading and
    the flagged claims, each as [**[SEVERITY]** claim] with the bullet
    [- issue] on the line below it, blank lines between claims, or by the
    fixed [### No Factual Issues Found] notice when nothing is flagged.  The
    sources section is the [## Sources] heading and one bullet per visited
    URL.  When a model call rejects, nothing is returned. *)
Theorem writeFinalReport_layout (prompt : string)
    (learnings visitedUrls : list string) (sourceContents : option (list string)) :
  match generateReport (reportPrompt prompt learnings) with
  | None => (writeFinalReport prompt learnings visitedUrls sourceContents).2 = None
  | Some body =>
      match (factCheck body sourceContents).2 with
      | None =>
          (writeFinalReport prompt learnings visitedUrls sourceContents).2 = None
      | Some checked =>
          (writeFinalReport prompt learnings visitedUrls sourceContents).2 =
            Some (body +:+ factCheckSection checked +:+ urlsSection visitedUrls) ∧
          factCheckSection checked =
            LF +:+ LF +:+ "## Fact Check" +:+ LF +:+ LF +:+
            overallAssessment checked +:+ LF +:+ LF +:+
            match unsupportedFacts checked with
            | [] =>
                "### No Factual Issues Found" +:+ LF +:+ LF +:+
                "All claims in the report appear to be well-supported by the source material."
            | fact :: facts =>
                "### Potential Issues" +:+ LF +:+ LF +:+
                join (LF +:+ LF) (factEntry <$> fact :: facts)
            end ∧
          (∀ fact, factEntry fact =
                   "**[" +:+ severityText (severity fact) +:+ "]** " +:+
                   claim fact +:+ LF +:+ "- " +:+ issue fact ∧
                   severityText (severity fact) ∈ ["HIGH"; "MEDIUM"; "LOW"]) ∧
          urlsSection visitedUrls =
            LF +:+ LF +:+ "## Sources" +:+ LF +:+ LF +:+
            join LF ((λ url, "- " +:+ url) <$> visitedUrls)
      end
  end.
Proof.
  unfold writeFinalReport.
  destruct (generateReport _) as [body |]; [| done].
  destruct (factCheck body sourceContents) as [calls [checked |]]; [| done].
  simpl. split_and!; try done.
  - unfold factCheckSection, factCheckIssues.
    by destruct (unsupportedFacts checked).
  - intros [c i []]; (split; [done |]); simpl;
      rewrite !elem_of_cons; auto.
Qed.

End AssemblerFacts.

(** C8, counterexample: with one flagged claim the report holds the claim
    and its issue on two lines, and the one-line entry of the specification
    occurs nowhere in it. *)
Lemma writeFinalReport_entry_counterexample :
  let fact := mkFact "The sky is green" "The source says blue" HIGH in
  ∃ report,
    (writeFinalReport (λ text _, text) (λ _, Some "Body")
       (λ _, Some (mkFactCheck [fact] "One issue"))
       "topic" ["sky"] ["https://a.example"] (Some ["The sky is blue"])).2
    = Some report ∧
    report =
      "Body" +:+ LF +:+ LF +:+ "## Fact Check" +:+ LF +:+ LF +:+
      "One issue" +:+ LF +:+ LF +:+ "### Potential Issues" +:+ LF +:+ LF +:+
      "**[HIGH]** The sky is green" +:+ LF +:+ "- The source says blue" +:+
      LF +:+ LF +:+ "## Sources" +:+ LF +:+ LF +:+ "- https://a.example" ∧
    occurs (factEntry fact) report = true ∧
    occurs (specFactEntry fact) report = false.
Proof.
  intros fact. eexists. split; [reflexivity |].
  split_and!; by vm_compute.
Qed.

(** ** Facts about the limiter *)

Section Limiter.

Implicit Types (b : Branch) (branches : list Branch).

(** The permit a branch holds, as a number. *)
Let permit b : nat := if holdsPermit b then 1%nat else 0%nat.

Lemma activeCount_nil : activeCount [] = 0%nat.
Proof. done. Qed.

Lemma activeCount_cons b branches :
  activeCount (b :: branches) = (permit b + activeCount branches)%nat.
Proof.
  unfold activeCount, permit. rewrite filter_cons.
  destruct (holdsPermit b); simpl; try case_decide; done.
Qed.

Lemma activeCount_app l1 l2 :
  activeCount (l1 ++ l2) = (activeCount l1 + activeCount l2)%nat.
Proof. unfold activeCount. by rewrite filter_app, length_app. Qed.

Lemma activeCount_insert branches i b b' :
  branches !! i = Some b →
  (activeCount (<[i := b']> branches) + permit b
   = activeCount branches + permit b')%nat.
Proof.
  revert i. induction branches as [| x branches IH]; intros [| i] Hi;
    simplify_eq/=.
  - rewrite !activeCount_cons. lia.
  - rewrite !activeCount_cons. specialize (IH _ Hi). lia.
Qed.

Lemma activeCount_queued (qs : list SerpQuery) :
  activeCount (Queued <$> qs) = 0%nat.
Proof.
  induction qs as [| q qs IH]; [done |].
  rewrite fmap_cons, activeCount_cons. by rewrite IH.
Qed.

Lemma length_startQueued room branches :
  length (startQueued room branches) = length branches.
Proof.
  revert room. induction branches as [| b branches IH]; intros room; [done |].
  destruct b, room; simpl; by rewrite ?IH.
Qed.

Lemma activeCount_startQueued room branches :
  (activeCount (startQueued room branches) ≤ activeCount branches + room)%nat.
Proof.
  revert room. induction branches as [| b branches IH]; intros room.
  - cbn [startQueued]. lia.
  - destruct b; [destruct room |..]; cbn [startQueued];
      rewrite ?activeCount_cons; unfold permit; cbn [holdsPermit];
      try match goal with
          | |- context [startQueued ?r branches] => specialize (IH r)
          end; lia.
Qed.

Lemma length_pLimit branches : length (pLimit branches) = length branches.
Proof. apply length_startQueued. Qed.

(** The limiter never starts a branch beyond its capacity. *)
Lemma activeCount_pLimit branches :
  (activeCount branches ≤ ConcurrencyLimit)%nat →
  (activeCount (pLimit branches) ≤ ConcurrencyLimit)%nat.
Proof.
  intros Hle. unfold pLimit.
  pose proof (activeCount_startQueued
                (ConcurrencyLimit - activeCount branches) branches). lia.
Qed.

Lemma activeCount_resolve branches i r :
  (activeCount branches ≤ ConcurrencyLimit)%nat →
  (activeCount (resolve i r branches) ≤ ConcurrencyLimit)%nat.
Proof.
  intros Hle. apply activeCount_pLimit.
  destruct (branches !! i) as [b |] eqn:Hi.
  - pose proof (activeCount_insert branches i b (Resolved r) Hi) as Heq.
    unfold permit in Heq; simpl in Heq. lia.
  - rewrite list_insert_ge; [done |]. by apply lookup_ge_None.
Qed.

Lemma length_resolve branches i r :
  length (resolve i r branches) = length branches.
Proof. unfold resolve. by rewrite length_pLimit, length_insert. Qed.

(** A property of branches that starting a queued branch keeps. *)
Lemma Forall_startQueued (P : Branch → Prop) room branches :
  (∀ q, P (Queued q) → P (Searching q)) →
  Forall P branches → Forall P (startQueued room branches).
Proof.
  intros Hstart Hall. revert room.
  induction Hall as [| b branches Hb Hall IH]; intros room; [constructor |].
  destruct b, room; simpl; constructor; auto.
Qed.

Lemma Forall_resolve (P : Branch → Prop) branches i r :
  (∀ q, P (Queued q) → P (Searching q)) →
  P (Resolved r) →
  Forall P branches → Forall P (resolve i r branches).
Proof.
  intros Hstart Hr Hall. apply Forall_startQueued; [done |].
  by apply Forall_insert.
Qed.

Lemma lookup_startQueued_resolved room branches i r :
  branches !! i = Some (Resolved r) →
  startQueued room branches !! i = Some (Resolved r).
Proof.
  revert room i. induction branches as [| b branches IH]; intros room i Hi;
    [done |].
  destruct i as [| i]; simplify_eq/=; [done |].
  destruct b; [destruct room |..]; simpl; auto.
Qed.

Lemma lookup_resolve branches i r :
  (i < length branches)%nat → resolve i r branches !! i = Some (Resolved r).
Proof.
  intros Hi. apply lookup_startQueued_resolved.
  by apply list_lookup_insert_eq.
Qed.

End Limiter.

(** ** Facts about the join *)

Arguments joinAll : simpl never.
Arguments pLimit : simpl never.
Arguments resolve : simpl never.
Arguments activeCount : simpl never.
Arguments deepResearch : simpl never.
Arguments newBreadth : simpl never.
Arguments slice0 : simpl never.

Create HintDb sound.

Lemma joinAll_cases shared inv :
  joinAll shared inv = inv ∨ ∃ r, joinAll shared inv = Returned r.
Proof.
  destruct inv; unfold joinAll; auto.
  destruct (mapM settled branches); eauto.
Qed.

Lemma joinAll_not_threw shared inv : inv ≠ Threw → joinAll shared inv ≠ Threw.
Proof.
  intros Hinv. destruct (joinAll_cases shared inv) as [-> | [r ->]]; done.
Qed.

(** ** The invariant [SoundCall] is kept by every step *)

Section Soundness.

Variable trimPrompt : string → Z → string.
Variable onProgress : bool.
Variables b0 d0 : Z.

Local Abbreviation execHere := (execHere trimPrompt onProgress).
Local Abbreviation execAt := (execAt trimPrompt onProgress).
Local Abbreviation exec := (exec trimPrompt onProgress).
Local Abbreviation run := (run trimPrompt onProgress).

#[local] Hint Constructors SoundCall SoundBranch : sound.

Lemma SoundCall_joinAll n shared inv :
  SoundCall b0 d0 n inv → SoundCall b0 d0 n (joinAll shared inv).
Proof.
  intros Hinv.
  destruct (joinAll_cases shared inv) as [-> | [r ->]]; auto with sound.
Qed.

Lemma SoundBranch_start n q :
  SoundBranch b0 d0 n (Queued q) → SoundBranch b0 d0 n (Searching q).
Proof. auto with sound. Qed.

Lemma SoundCall_start : SoundCall b0 d0 0 (deepResearch b0 d0).
Proof. constructor; [done | simpl; lia]. Qed.

Lemma execHere_sound n a shared inv shared' inv' notes :
  SoundCall b0 d0 n inv →
  execHere a shared inv = Some (shared', inv', notes) →
  SoundCall b0 d0 n inv'.
Proof.
  intros Hinv Hexec.
  destruct a, Hinv as [n breadth depth progress Hb Hd
                      | n breadth depth progress branches Hb Hd Hact Hlen Hall
                      | |];
    simplify_eq/=; auto with sound.
  - (* the queries arrive *)
    apply SoundCall_joinAll. constructor; try done.
    + apply activeCount_pLimit. rewrite activeCount_queued. lia.
    + intros Hpos. rewrite length_pLimit, length_fmap.
      by apply length_slice0.
    + apply Forall_startQueued; [apply SoundBranch_start |].
      apply Forall_fmap, Forall_true. auto with sound.
  - (* a search result arrives *)
    destruct (branches !! i) as [[] |] eqn:Hi; simplify_eq/=.
    constructor; try done.
    + pose proof (activeCount_insert branches i _
                    (Processing serpQuery result) Hi) as Heq.
      simpl in Heq. lia.
    + by rewrite length_insert.
    + apply Forall_insert; auto with sound.
  - (* a search fails *)
    destruct (branches !! i) as [[] |] eqn:Hi; simplify_eq/=.
    apply SoundCall_joinAll. constructor; try done.
    + by apply activeCount_resolve.
    + by rewrite length_resolve.
    + apply Forall_resolve; auto using SoundBranch_start with sound.
  - (* an extraction arrives *)
    destruct (branches !! i) as [[] |] eqn:Hi; simplify_eq/=.
    case_bool_decide as Hdepth; simplify_eq/=.
    + constructor; try done.
      * pose proof (activeCount_insert branches i _
                      (Recursing serpQuery
                         (deepResearch (newBreadth (breadthAt n b0))
                            (d0 - Z.of_nat n - 1))) Hi) as Heq.
        simpl in Heq. lia.
      * by rewrite length_insert.
      * apply Forall_insert; [done |].
        constructor; [lia | done |]. constructor; [done | lia].
    + apply SoundCall_joinAll. constructor; try done.
      * by apply activeCount_resolve.
      * by rewrite length_resolve.
      * apply Forall_resolve; auto using SoundBranch_start.
        constructor. lia.
  - (* an extraction fails *)
    destruct (branches !! i) as [[] |] eqn:Hi; simplify_eq/=.
    apply SoundCall_joinAll. constructor; try done.
    + by apply activeCount_resolve.
    + by rewrite length_resolve.
    + apply Forall_resolve; auto using SoundBranch_start with sound.
Qed.

Lemma SoundCall_descend n breadth depth progress branches i q child child' :
  SoundCall b0 d0 n (Running breadth depth progress branches) →
  branches !! i = Some (Recursing q child) →
  pending child' →
  SoundCall b0 d0 (S n) child' →
  SoundCall b0 d0 n
    (Running breadth depth progress (<[i := Recursing q child']> branches)).
Proof.
  intros Hinv Hi Hpending Hchild.
  inversion Hinv as [| ? ? ? ? ? Hb Hd Hact Hlen Hall | |]; subst.
  pose proof (Forall_lookup_1 _ _ _ _ Hall Hi) as Hbranch.
  inversion Hbranch as [| | | ? ? ? Hdepth _ _ | |]; subst.
  constructor; try done.
  - pose proof (activeCount_insert branches i _ (Recursing q child') Hi) as Heq.
    simpl in Heq. lia.
  - by rewrite length_insert.
  - apply Forall_insert; [done |]. by constructor.
Qed.

Lemma SoundCall_resolve n breadth depth progress branches i r shared :
  SoundCall b0 d0 n (Running breadth depth progress branches) →
  SoundBranch b0 d0 n (Resolved r) →
  SoundCall b0 d0 n
    (joinAll shared (Running breadth depth progress (resolve i r branches))).
Proof.
  intros Hinv Hr.
  inversion Hinv as [| ? ? ? ? ? Hb Hd Hact Hlen Hall | |]; subst.
  apply SoundCall_joinAll. constructor; try done.
  - by apply activeCount_resolve.
  - by rewrite length_resolve.
  - apply Forall_resolve; auto using SoundBranch_start.
Qed.

Lemma execAt_sound p n a shared inv shared' inv' notes :
  SoundCall b0 d0 n inv →
  execAt p a shared inv = Some (shared', inv', notes) →
  SoundCall b0 d0 n inv'.
Proof.
  revert n shared inv shared' inv' notes.
  induction p as [| i p IH]; intros n shared inv shared' inv' notes Hinv Hexec.
  - by eapply execHere_sound.
  - destruct inv as [| breadth depth progress branches | |]; try done.
    simpl in Hexec.
    destruct (branches !! i) as [[| | | serpQuery child |] |] eqn:Hi; try done.
    destruct (execAt p a shared child) as [[[shared1 child1] notes1] |] eqn:Hchild;
      simplify_eq/=.
    assert (Hsound : SoundCall b0 d0 (S n) child).
    { inversion Hinv as [| ? ? ? ? ? Hb Hd Hact Hlen Hall | |]; subst.
      pose proof (Forall_lookup_1 _ _ _ _ Hall Hi) as Hbranch.
      by inversion Hbranch. }
    specialize (IH _ _ _ _ _ _ Hsound Hchild).
    destruct child1.
    + by eapply SoundCall_descend.
    + by eapply SoundCall_descend.
    + apply SoundCall_resolve; [done | constructor].
    + constructor.
Qed.

Lemma exec_sound a s s' :
  SoundCall b0 d0 0 (call s) → exec a s = Some s' → SoundCall b0 d0 0 (call s').
Proof.
  intros Hs Hexec. unfold exec in Hexec.
  destruct (execAt a.1 a.2 (shared s) (call s)) as [[[shared1 call1] notes] |]
    eqn:Hat; simplify_eq/=.
  by eapply execAt_sound.
Qed.

Lemma run_sound_from answers s s' :
  SoundCall b0 d0 0 (call s) → run answers s = Some s' →
  SoundCall b0 d0 0 (call s').
Proof.
  revert s. induction answers as [| a answers IH]; intros s Hs Hrun;
    simplify_eq/=; [done |].
  destruct (exec a s) as [s1 |] eqn:Hexec; simplify_eq/=.
  eapply IH; [| done]. by eapply exec_sound.
Qed.

(** Every state a run reaches from the call of the caller is sound. *)
Lemma run_sound accumulators answers s :
  run answers (start accumulators b0 d0) = Some s →
  SoundCall b0 d0 0 (call s).
Proof. apply run_sound_from, SoundCall_start. Qed.

(** The invariant reaches every call of the recursion. *)
Lemma SoundCall_callAt p n inv inv' :
  SoundCall b0 d0 n inv → callAt p inv = Some inv' →
  SoundCall b0 d0 (n + length p) inv'.
Proof.
  revert n inv. induction p as [| i p IH]; intros n inv Hinv Hat; simplify_eq/=.
  - by rewrite Nat.add_0_r.
  - destruct Hinv as [| n breadth depth progress branches Hb Hd Hact Hlen Hall
                      | |]; try done.
    destruct (branches !! i) as [[| | | serpQuery child |] |] eqn:Hi; try done.
    pose proof (Forall_lookup_1 _ _ _ _ Hall Hi) as Hbranch.
    inversion Hbranch as [| | | ? ? ? Hdepth Hpending Hsound | |]; subst.
    replace (n + S (length p))%nat with (S n + length p)%nat by lia.
    by eapply IH.
Qed.

End Soundness.

(** ** Breadth, depth and permits of every call *)

Lemma breadthAt_nonneg n b : 0 ≤ b → 0 ≤ breadthAt n b.
Proof.
  intros Hb. induction n as [| n IH]; [done |].
  unfold breadthAt in *. simpl. by apply newBreadth_nonneg.
Qed.

Lemma newBreadth_ceil b : newBreadth b = Qceiling (inject_Z b / 2).
Proof. done. Qed.

Lemma callAt_app p q inv : callAt (p ++ q) inv = callAt p inv ≫= callAt q.
Proof.
  revert inv. induction p as [| i p IH]; intros inv; [done |].
  simpl. destruct inv; try done.
  destruct (branches !! i) as [[] |]; try done.
Qed.

Lemma SoundCall_breadth_depth b0 d0 n inv breadth depth :
  SoundCall b0 d0 n inv →
  breadthOf inv = Some breadth → depthOf inv = Some depth →
  breadth = breadthAt n b0 ∧ depth = d0 - Z.of_nat n.
Proof. intros [] ? ?; by simplify_eq/=. Qed.

Section Levels.

Variable trimPrompt : string → Z → string.
Variable onProgress : bool.

Local Abbreviation run := (run trimPrompt onProgress).
Local Abbreviation exec := (exec trimPrompt onProgress).
Local Abbreviation execHere := (execHere trimPrompt onProgress).

(** C5: in every state of a call entered with breadth [b0] and depth [d0],
    a recursive call made by a branch of a call of breadth [b] and depth
    [d] has breadth [ceil(b / 2)] and depth [d - 1]; so the call [n]
    levels down has breadth [ceil(b0 / 2^n)], and depth [d0 - n]. *)
Theorem breadth_at_level (accumulators : ResearchResult) (b0 d0 : Z)
    (answers : list (Path * Answer)) (s : State) :
  run answers (start accumulators b0 d0) = Some s →
  (∀ p i parent child b d b' d',
     callAt p (call s) = Some parent →
     callAt (p ++ [i]) (call s) = Some child →
     breadthOf parent = Some b → depthOf parent = Some d →
     breadthOf child = Some b' → depthOf child = Some d' →
     b' = Qceiling (inject_Z b / 2) ∧ d' = d - 1) ∧
  (∀ p inv b d,
     callAt p (call s) = Some inv →
     breadthOf inv = Some b → depthOf inv = Some d →
     b = Qceiling (inject_Z b0 / inject_Z (2 ^ Z.of_nat (length p))) ∧
     d = d0 - Z.of_nat (length p)).
Proof.
  intros Hrun. pose proof (run_sound _ _ _ _ _ _ _ Hrun) as Hsound.
  assert (Hlevel : ∀ p inv b d,
             callAt p (call s) = Some inv →
             breadthOf inv = Some b → depthOf inv = Some d →
             b = breadthAt (length p) b0 ∧ d = d0 - Z.of_nat (length p)).
  { intros p inv b d Hat Hb Hd.
    pose proof (SoundCall_callAt _ _ _ _ _ _ Hsound Hat) as Hinv.
    by eapply (SoundCall_breadth_depth b0 d0 (0 + length p)). }
  split.
  - intros p i parent child b d b' d' Hp Hc Hb Hd Hb' Hd'.
    destruct (Hlevel _ _ _ _ Hp Hb Hd) as [-> ->].
    destruct (Hlevel _ _ _ _ Hc Hb' Hd') as [-> ->].
    rewrite length_app, Nat.add_1_r. split; [done | simpl; lia].
  - intros p inv b d Hat Hb Hd.
    destruct (Hlevel _ _ _ _ Hat Hb Hd) as [-> ->].
    by rewrite breadthAt_ceil.
Qed.

(** C2 as amended: every call of the recursion has a limiter of its own,
    and the permits held from one limiter never exceed
    [ConcurrencyLimit = 2]. *)
Theorem permits_per_call (accumulators : ResearchResult) (b0 d0 : Z)
    (answers : list (Path * Answer)) (s : State) :
  run answers (start accumulators b0 d0) = Some s →
  ConcurrencyLimit = 2%nat ∧
  ∀ p breadth depth progress branches,
    callAt p (call s) = Some (Running breadth depth progress branches) →
    (activeCount branches ≤ ConcurrencyLimit)%nat.
Proof.
  intros Hrun. split; [done |].
  intros p breadth depth progress branches Hat.
  pose proof (run_sound _ _ _ _ _ _ _ Hrun) as Hsound.
  pose proof (SoundCall_callAt _ _ _ _ _ _ Hsound Hat) as Hcall.
  by inversion Hcall.
Qed.

End Levels.

(** C5, witness: the second recursive call of [twoLevels]. *)
Lemma breadth_at_level_witness :
  run keepText true twoLevels (start emptyResult 4 2) = Some twoLevelsState ∧
  ∀ inv b d,
    callAt [1%nat] (call twoLevelsState) = Some inv →
    breadthOf inv = Some b → depthOf inv = Some d →
    b = Qceiling (inject_Z 4 / inject_Z (2 ^ 1)) ∧ d = 2 - 1.
Proof.
  assert (Hrun : run keepText true twoLevels (start emptyResult 4 2)
                 = Some twoLevelsState) by (by vm_compute).
  split; [exact Hrun |].
  intros inv b d.
  exact (proj2 (breadth_at_level keepText true emptyResult 4 2 twoLevels
                  twoLevelsState Hrun) [1%nat] inv b d).
Defined.

(** C2, counterexample: with breadth 4 and depth 2, six permits are held
    at once, two in the limiter of the top-level call and two in the
    limiter of each of the two recursive calls, and four searches are in
    flight. *)
Lemma permits_whole_tree_counterexample :
  run keepText true twoLevels (start emptyResult 4 2) = Some twoLevelsState ∧
  permitsHeld (call twoLevelsState) = 6%nat ∧
  searchesInFlight (call twoLevelsState) = 4%nat ∧
  ¬ (permitsHeld (call twoLevelsState) ≤ ConcurrencyLimit)%nat.
Proof.
  split; [by vm_compute |]. split; [by vm_compute |]. split; [by vm_compute |].
  vm_compute. lia.
Qed.

(** C2, witness: the limiter of the first recursive call of [twoLevels]. *)
Lemma permits_per_call_witness :
  run keepText true twoLevels (start emptyResult 4 2) = Some twoLevelsState ∧
  ∀ breadth depth progress branches,
    callAt [0%nat] (call twoLevelsState)
    = Some (Running breadth depth progress branches) →
    (activeCount branches ≤ ConcurrencyLimit)%nat.
Proof.
  assert (Hrun : run keepText true twoLevels (start emptyResult 4 2)
                 = Some twoLevelsState) by (by vm_compute).
  split; [exact Hrun |].
  exact (proj2 (permits_per_call keepText true emptyResult 4 2 twoLevels
                  twoLevelsState Hrun) [0%nat]).
Defined.

(** ** An answer reaches the call it is for *)

Lemma callAt_pending_root p inv c :
  callAt p inv = Some c → pending c → pending inv.
Proof.
  destruct p as [| i p]; intros Hat Hc; simplify_eq/=; [done |].
  by destruct inv.
Qed.

Section Reach.

Variable trimPrompt : string → Z → string.
Variable onProgress : bool.

Local Abbreviation execHere := (execHere trimPrompt onProgress).
Local Abbreviation execAt := (execAt trimPrompt onProgress).
Local Abbreviation exec := (exec trimPrompt onProgress).
Local Abbreviation run := (run trimPrompt onProgress).

(** A step of the call at path [p] is a step of the whole recursion.  The
    call is found at [p] afterwards as long as it is pending; once it has
    returned or thrown, nothing is left at [p], the top-level call apart. *)
Lemma execAt_callAt p a shared root c shared' c' notes :
  callAt p root = Some c →
  execHere a shared c = Some (shared', c', notes) →
  ∃ root',
    execAt p a shared root = Some (shared', root', notes) ∧
    (pending c' → callAt p root' = Some c') ∧
    (¬ pending c' → (p = [] ∧ root' = c') ∨ (p ≠ [] ∧ callAt p root' = None)).
Proof.
  revert root. induction p as [| i p IH]; intros root Hat Hhere.
  - simplify_eq/=. eauto 6.
  - destruct root as [| breadth depth progress branches | |]; try done.
    simpl in Hat.
    destruct (branches !! i) as [[| | | serpQuery child |] |] eqn:Hi; try done.
    destruct (IH child Hat Hhere) as (child' & Hexec & Hchild & Hgone).
    pose proof (lookup_lt_Some _ _ _ Hi) as Hlt.
    simpl. rewrite Hi. rewrite Hexec. simpl.
    eexists. split; [done |]. split.
    + intros Hc'. specialize (Hchild Hc').
      pose proof (callAt_pending_root _ _ _ Hchild Hc') as Hpending.
      destruct child'; try done; simpl;
        (rewrite list_lookup_insert_eq by done); done.
    + intros Hc'. right. split; [done |].
      destruct child' as [| | r |]; simpl.
      * rewrite list_lookup_insert_eq by done.
        destruct (Hgone Hc') as [[-> <-] | [_ Hnone]]; [by destruct Hc' | done].
      * rewrite list_lookup_insert_eq by done.
        destruct (Hgone Hc') as [[-> <-] | [_ Hnone]]; [by destruct Hc' | done].
      * destruct (joinAll_cases shared'
                    (Running breadth depth progress (resolve i (ROwn r) branches)))
          as [-> | [r' ->]]; [| done].
        simpl. by rewrite lookup_resolve.
      * done.
Qed.

Lemma exec_callAt p a s c shared' c' notes :
  callAt p (call s) = Some c →
  execHere a (shared s) c = Some (shared', c', notes) →
  ∃ s',
    exec (p, a) s = Some s' ∧
    shared s' = shared' ∧
    sink s' = sink s ++ ((λ progress, (p, progress)) <$> notes) ∧
    (pending c' → callAt p (call s') = Some c') ∧
    (¬ pending c' →
     (p = [] ∧ call s' = c') ∨ (p ≠ [] ∧ callAt p (call s') = None)).
Proof.
  intros Hat Hhere.
  destruct (execAt_callAt _ _ _ _ _ _ _ _ Hat Hhere)
    as (root' & Hexec & Hc' & Hgone).
  unfold exec. simpl. rewrite Hexec. simpl. eauto 10.
Qed.

End Reach.

(** ** The branches of a call are the first [breadth] generated pairs *)

Lemma serpQueryOf_startQueued room branches :
  serpQueryOf <$> startQueued room branches = serpQueryOf <$> branches.
Proof.
  revert room. induction branches as [| b branches IH]; intros room; [done |].
  destruct b; [destruct room |..]; simpl; by rewrite ?IH.
Qed.

Lemma serpQueryOf_pLimit_queued (qs : list SerpQuery) :
  serpQueryOf <$> pLimit (Queued <$> qs) = Some <$> qs.
Proof.
  unfold pLimit. rewrite serpQueryOf_startQueued, <- list_fmap_compose.
  by apply list_fmap_ext.
Qed.

Lemma pLimit_queued_cons q (qs : list SerpQuery) :
  pLimit (Queued <$> q :: qs) = Searching q :: startQueued 1 (Queued <$> qs).
Proof.
  unfold pLimit. by rewrite activeCount_queued.
Qed.

Lemma joinAll_unsettled shared breadth depth progress branches b i :
  branches !! i = Some b → settled b = None →
  joinAll shared (Running breadth depth progress branches)
  = Running breadth depth progress branches.
Proof.
  intros Hi Hb. unfold joinAll.
  destruct (mapM settled branches) as [results |] eqn:Hall; [| done].
  apply mapM_Some in Hall.
  destruct (Forall2_lookup_l _ _ _ _ _ Hall Hi) as (r & _ & Hr). congruence.
Qed.

Lemma merge_nil : merge [] = emptyResult.
Proof. done. Qed.

Section Breadth.

Variable trimPrompt : string → Z → string.
Variable onProgress : bool.

Local Abbreviation execHere := (execHere trimPrompt onProgress).
Local Abbreviation exec := (exec trimPrompt onProgress).
Local Abbreviation run := (run trimPrompt onProgress).

(** The code that runs when the generated pairs arrive. *)
Lemma execHere_generated queries shared breadth depth progress :
  0 ≤ breadth →
  ∃ progress' notes,
    execHere (GenerateOk queries) shared (Generating breadth depth progress)
    = Some (shared,
            joinAll shared
              (Running breadth depth progress'
                 (pLimit (Queued <$> take (Z.to_nat breadth) queries))),
            notes).
Proof.
  intros Hb. simpl. rewrite slice0_nonneg by done. eauto.
Qed.

(** C10: in a call entered with a breadth [b0 >= 0], every call of the
    recursion has at most [breadth] branches; when the generated pairs
    arrive, the branches are made of the first [breadth] of them, however
    many there are; and with [b0 = 0] the call makes no branch and returns
    the result with three empty fields. *)
Theorem breadth_bounds_branches (accumulators : ResearchResult) (b0 d0 : Z)
    (answers : list (Path * Answer)) (s : State) :
  0 ≤ b0 →
  run answers (start accumulators b0 d0) = Some s →
  (∀ p breadth depth progress branches,
     callAt p (call s) = Some (Running breadth depth progress branches) →
     Z.of_nat (length branches) ≤ breadth) ∧
  (∀ p breadth depth progress queries,
     callAt p (call s) = Some (Generating breadth depth progress) →
     ∃ s',
       exec (p, GenerateOk queries) s = Some s' ∧
       (take (Z.to_nat breadth) queries ≠ [] →
        ∃ progress' branches,
          callAt p (call s') = Some (Running breadth depth progress' branches) ∧
          serpQueryOf <$> branches = Some <$> take (Z.to_nat breadth) queries)) ∧
  (b0 = 0 →
   ∀ queries, ∃ s',
     exec ([], GenerateOk queries) (start accumulators b0 d0) = Some s' ∧
     call s' = Returned emptyResult ∧
     shared s' = accumulators).
Proof.
  intros Hb0 Hrun. pose proof (run_sound _ _ _ _ _ _ _ Hrun) as Hsound.
  split_and!.
  - intros p breadth depth progress branches Hat.
    pose proof (SoundCall_callAt _ _ _ _ _ _ Hsound Hat) as Hcall.
    inversion Hcall as [| ? ? ? ? ? Hb Hd Hact Hlen Hall | |]; subst.
    apply Hlen. by apply breadthAt_nonneg.
  - intros p breadth depth progress queries Hat.
    pose proof (SoundCall_callAt _ _ _ _ _ _ Hsound Hat) as Hcall.
    assert (0 ≤ breadth) as Hb.
    { inversion Hcall; subst. by apply breadthAt_nonneg. }
    destruct (execHere_generated queries (shared s) breadth depth progress Hb)
      as (progress' & notes & Hhere).
    destruct (exec_callAt _ _ _ _ _ _ _ _ _ Hat Hhere)
      as (s' & Hexec & _ & _ & Hafter & _).
    exists s'. split; [done |].
    intros Hsome. exists progress', (pLimit (Queued <$> take (Z.to_nat breadth) queries)).
    split; [| apply serpQueryOf_pLimit_queued].
    destruct (take (Z.to_nat breadth) queries) as [| q qs] eqn:Hqs; [done |].
    rewrite (joinAll_unsettled _ _ _ _ _ (Searching q) 0%nat) in Hafter;
      [by apply Hafter | by rewrite pLimit_queued_cons | done].
  - intros -> queries.
    destruct (execHere_generated queries accumulators 0 d0
                (initialProgress 0 d0) ltac:(lia))
      as (progress' & notes & Hhere).
    eexists. split; [| split].
    + unfold exec, start. cbn [fst snd shared call execAt].
      unfold deepResearch. rewrite Hhere. reflexivity.
    + reflexivity.
    + reflexivity.
Qed.

End Breadth.

(** C10, witness: the second recursive call of [twoLevels] has breadth 2;
    it is given three pairs and keeps the first two. *)
Lemma breadth_bounds_branches_witness :
  0 ≤ 4 ∧
  run keepText true (take 6 twoLevels) (start emptyResult 4 2)
  = Some sixAnswersState ∧
  ∃ s',
    exec keepText true
      ([1%nat], GenerateOk [sampleQuery "Q7"; sampleQuery "Q8"; sampleQuery "Q9"])
      sixAnswersState
    = Some s' ∧
    ∃ progress' branches,
      callAt [1%nat] (call s') = Some (Running 2 1 progress' branches) ∧
      serpQueryOf <$> branches
      = [Some (sampleQuery "Q7"); Some (sampleQuery "Q8")].
Proof.
  assert (Hrun : run keepText true (take 6 twoLevels) (start emptyResult 4 2)
                 = Some sixAnswersState) by (by vm_compute).
  split; [lia |]. split; [exact Hrun |].
  destruct (proj1 (proj2 (breadth_bounds_branches keepText true emptyResult 4 2
                     (take 6 twoLevels) sixAnswersState ltac:(lia) Hrun))
              [1%nat] 2 1 (initialProgress 2 1)
              [sampleQuery "Q7"; sampleQuery "Q8"; sampleQuery "Q9"] eq_refl)
    as (s' & Hexec & Hbranches).
  exists s'. split; [exact Hexec |].
  apply Hbranches. discriminate.
Defined.

(** ** The levels of the recursion *)

Lemma newBreadth_pos b : 1 ≤ b → 1 ≤ newBreadth b.
Proof.
  intros Hb. rewrite newBreadth_div.
  assert (- b / 2 < 0) by (apply Z.div_lt_upper_bound; lia). lia.
Qed.

Lemma breadthAt_succ_r n b : breadthAt n (newBreadth b) = breadthAt (S n) b.
Proof. unfold breadthAt. by rewrite Nat.iter_succ_r. Qed.

(** A call below the top-level one exists only while depth is left. *)
Lemma SoundCall_below b0 d0 n p inv c :
  SoundCall b0 d0 n inv → callAt p inv = Some c → p ≠ [] →
  d0 - Z.of_nat (n + length p) > 0.
Proof.
  revert n inv. induction p as [| i p IH]; intros n inv Hinv Hat Hp; [done |].
  destruct Hinv as [| n breadth depth progress branches Hb Hd Hact Hlen Hall
                    | |]; try done.
  simpl in Hat.
  destruct (branches !! i) as [[| | | serpQuery child |] |] eqn:Hi; try done.
  pose proof (Forall_lookup_1 _ _ _ _ Hall Hi) as Hbranch.
  inversion Hbranch as [| | | ? ? ? Hdepth Hpending Hsound | |]; subst.
  destruct p as [| j p].
  - simpl. lia.
  - specialize (IH (S n) child Hsound Hat ltac:(done)). simpl in *. lia.
Qed.

Section Depth.

Variable trimPrompt : string → Z → string.
Variable onProgress : bool.

Local Abbreviation execHere := (execHere trimPrompt onProgress).
Local Abbreviation exec := (exec trimPrompt onProgress).
Local Abbreviation run := (run trimPrompt onProgress).

(** The code that runs when the extraction of branch [i] arrives. *)
Lemma execHere_extracted i object shared breadth depth progress branches q result :
  branches !! i = Some (Processing q result) →
  ∃ progress' notes,
    execHere (ExtractOk i object) shared (Running breadth depth progress branches)
    = Some (pushAll trimPrompt shared result object,
            (if bool_decide (depth - 1 > 0)
             then Running breadth depth progress'
                    (<[i := Recursing q (deepResearch (newBreadth breadth) (depth - 1))]>
                       branches)
             else joinAll (pushAll trimPrompt shared result object)
                    (Running breadth depth progress' (resolve i RShared branches))),
            notes).
Proof.
  intros Hi. simpl. rewrite Hi. case_bool_decide; simpl; eauto.
Qed.

(** After the extraction of branch [i] of the call at [p]: a recursive
    call, one level down, when [depth - 1 > 0], and none otherwise. *)
Lemma exec_extracted p i object s breadth depth progress branches q result :
  callAt p (call s) = Some (Running breadth depth progress branches) →
  branches !! i = Some (Processing q result) →
  ∃ s',
    exec (p, ExtractOk i object) s = Some s' ∧
    shared s' = pushAll trimPrompt (shared s) result object ∧
    callAt (p ++ [i]) (call s') =
      if bool_decide (depth - 1 > 0)
      then Some (deepResearch (newBreadth breadth) (depth - 1))
      else None.
Proof.
  intros Hat Hi.
  destruct (execHere_extracted i object (shared s) breadth depth progress
              branches q result Hi) as (progress' & notes & Hhere).
  destruct (exec_callAt _ _ _ _ _ _ _ _ _ Hat Hhere)
    as (s' & Hexec & Hshared & _ & Hafter & Hgone).
  pose proof (lookup_lt_Some _ _ _ Hi) as Hlt.
  exists s'. split; [done |]. split; [done |]. rewrite callAt_app.
  case_bool_decide as Hdepth.
  - rewrite Hafter by done. simpl.
    by rewrite list_lookup_insert_eq.
  - destruct (joinAll_cases (pushAll trimPrompt (shared s) result object)
                (Running breadth depth progress' (resolve i RShared branches)))
      as [Hsame | [r Hreturned]].
    + rewrite Hsame in Hafter. rewrite Hafter by done. simpl.
      by rewrite lookup_resolve.
    + rewrite Hreturned in Hgone.
      destruct (Hgone ltac:(auto)) as [[-> ->] | [_ ->]]; done.
Qed.

Lemma run_cons a answers s : run (a :: answers) s = exec a s ≫= run answers.
Proof. done. Qed.

(** The answers of [descend] are all awaited, and lead [n] levels down. *)
Lemma descend_run n p breadth depth progress s :
  1 ≤ breadth →
  Z.of_nat n + 1 ≤ Z.max depth 1 →
  callAt p (call s) = Some (Generating breadth depth progress) →
  ∃ s' progress' branches q result,
    run (descend n p breadth) s = Some s' ∧
    callAt (p ++ replicate n 0%nat) (call s')
    = Some (Running (breadthAt n breadth) (depth - Z.of_nat n) progress' branches) ∧
    branches !! 0%nat = Some (Processing q result).
Proof.
  revert p breadth depth progress s.
  induction n as [| n IH]; intros p breadth depth progress s Hb Hn Hat.
  all: destruct (execHere_generated trimPrompt onProgress
                   (replicate (Z.to_nat breadth) (sampleQuery "Q"))
                   (shared s) breadth depth progress ltac:(lia))
         as (progress1 & notes1 & Hhere1).
  all: rewrite firstn_all2 in Hhere1 by (rewrite length_replicate; lia).
  all: destruct (Z.to_nat breadth) as [| k] eqn:Hk; [lia |].
  all: rewrite replicate_S, pLimit_queued_cons in Hhere1.
  all: rewrite (joinAll_unsettled _ _ _ _ _ (Searching (sampleQuery "Q")) 0%nat)
         in Hhere1 by done.
  all: destruct (exec_callAt _ _ _ _ _ _ _ _ _ Hat Hhere1)
         as (s1 & Hexec1 & _ & _ & Hat1 & _).
  all: specialize (Hat1 I).
  all: set (branches1 := Searching (sampleQuery "Q")
                           :: startQueued 1 (Queued <$> replicate k (sampleQuery "Q")))
         in *.
  all: assert (Hhere2 :
         execHere (SearchOk 0 (sampleResponse "a")) (shared s1)
           (Running breadth depth progress1 branches1)
         = Some (shared s1,
                 Running breadth depth progress1
                   (<[0%nat := Processing (sampleQuery "Q") (sampleResponse "a")]>
                      branches1), [])) by done.
  all: destruct (exec_callAt _ _ _ _ _ _ _ _ _ Hat1 Hhere2)
         as (s2 & Hexec2 & _ & _ & Hat2 & _).
  all: specialize (Hat2 I).
  - exists s2. do 4 eexists. split; [| split].
    + cbn [descend]. rewrite Hk, replicate_S, !run_cons, Hexec1. simpl.
      by rewrite Hexec2.
    + rewrite app_nil_r, Z.sub_0_r. exact Hat2.
    + done.
  - destruct (exec_extracted p 0%nat (sampleExtraction "a") s2 _ _ _ _
                (sampleQuery "Q") (sampleResponse "a") Hat2 eq_refl)
      as (s3 & Hexec3 & _ & Hat3).
    rewrite bool_decide_eq_true_2 in Hat3 by lia.
    destruct (IH (p ++ [0%nat]) (newBreadth breadth) (depth - 1) _ s3
                ltac:(by apply newBreadth_pos) ltac:(lia) Hat3)
      as (s' & progress' & branches & q & result & Hrun & Hat' & Hfirst).
    exists s', progress', branches, q, result. split; [| split].
    + cbn [descend]. rewrite Hk, replicate_S, !run_cons, Hexec1. simpl.
      rewrite Hexec2. simpl. rewrite Hexec3. exact Hrun.
    + rewrite <- app_assoc in Hat'. simpl in Hat'.
      rewrite breadthAt_succ_r in Hat'.
      replace (depth - Z.of_nat (S n)) with (depth - 1 - Z.of_nat n) by lia.
      exact Hat'.
    + done.
Qed.

(** C1: a call entered with depth [d0] expands [max d0 1] levels: [d0] of
    them when [d0 >= 1], and one when [d0 = 0].  In every state of a run, a
    pending call [n] levels below the top-level call has depth [d0 - n] and
    [n + 1 <= max d0 1]; a branch that took the terminal case sits at level
    [max d0 1], and a branch that recursed sits above it; the extraction of
    a branch of a call of depth [d] is followed by a recursive call of depth
    [d - 1] when [d - 1 > 0] and by none otherwise.  With a generator that
    returns [breadth] pairs every time, the last level is reached: a branch
    of a call at level [max d0 1] has searched. *)
Theorem depth_levels (accumulators : ResearchResult) (b0 d0 : Z) :
  (∀ answers s,
     run answers (start accumulators b0 d0) = Some s →
     (∀ p inv,
        callAt p (call s) = Some inv → pending inv →
        depthOf inv = Some (d0 - Z.of_nat (length p)) ∧
        Z.of_nat (length p) + 1 ≤ Z.max d0 1) ∧
     (∀ p breadth depth progress branches i,
        callAt p (call s) = Some (Running breadth depth progress branches) →
        (branches !! i = Some (Resolved RShared) →
         Z.of_nat (length p) + 1 = Z.max d0 1) ∧
        (∀ q child, branches !! i = Some (Recursing q child) →
                    Z.of_nat (length p) + 1 < d0) ∧
        (∀ q result object,
           branches !! i = Some (Processing q result) →
           ∃ s',
             exec (p, ExtractOk i object) s = Some s' ∧
             callAt (p ++ [i]) (call s') =
               if bool_decide (depth - 1 > 0)
               then Some (deepResearch (newBreadth breadth) (depth - 1))
               else None))) ∧
  (1 ≤ b0 →
   ∃ s p breadth depth progress branches q result,
     run (descend (Z.to_nat (Z.max d0 1 - 1)) [] b0) (start accumulators b0 d0)
     = Some s ∧
     Z.of_nat (length p) + 1 = Z.max d0 1 ∧
     callAt p (call s) = Some (Running breadth depth progress branches) ∧
     branches !! 0%nat = Some (Processing q result)).
Proof.
  split.
  - intros answers s Hrun.
    pose proof (run_sound _ _ _ _ _ _ _ Hrun) as Hsound.
    assert (Hdeep : ∀ p inv, callAt p (call s) = Some inv →
                             Z.of_nat (length p) + 1 ≤ Z.max d0 1).
    { intros p inv Hat. destruct (decide (p = [])) as [-> | Hp]; [simpl; lia |].
      pose proof (SoundCall_below _ _ _ _ _ _ Hsound Hat Hp). simpl in *. lia. }
    split.
    + intros p inv Hat Hpending. split; [| by eapply Hdeep].
      pose proof (SoundCall_callAt _ _ _ _ _ _ Hsound Hat) as Hinv.
      inversion Hinv; subst; simpl in *; done.
    + intros p breadth depth progress branches i Hat.
      pose proof (SoundCall_callAt _ _ _ _ _ _ Hsound Hat) as Hinv.
      pose proof (Hdeep _ _ Hat) as Hle.
      inversion Hinv as [| ? ? ? ? ? Hb Hd Hact Hlen Hall | |]; subst.
      split_and!.
      * intros Hi. pose proof (Forall_lookup_1 _ _ _ _ Hall Hi) as Hbranch.
        inversion Hbranch; subst. simpl in *. lia.
      * intros q child Hi.
        pose proof (Forall_lookup_1 _ _ _ _ Hall Hi) as Hbranch.
        inversion Hbranch; subst. simpl in *. lia.
      * intros q result object Hi.
        destruct (exec_extracted p i object s _ _ _ _ q result Hat Hi)
          as (s' & Hexec & _ & Hchild).
        by exists s'.
  - intros Hb0.
    destruct (descend_run (Z.to_nat (Z.max d0 1 - 1)) [] b0 d0
                (initialProgress b0 d0) (start accumulators b0 d0)
                Hb0 ltac:(lia) eq_refl)
      as (s & progress & branches & q & result & Hrun & Hat & Hfirst).
    exists s, (replicate (Z.to_nat (Z.max d0 1 - 1)) 0%nat).
    do 6 eexists. split; [exact Hrun |]. split; [| split; [exact Hat | exact Hfirst]].
    rewrite length_replicate. lia.
Qed.

End Depth.

(** ** The notifications of each call are non-decreasing *)

Lemma nondecreasing_nil : nondecreasing [].
Proof. intros i j x y _ Hi. by rewrite lookup_nil in Hi. Qed.

Lemma nondecreasing_singleton x : nondecreasing [x].
Proof.
  intros i j y z _ Hi Hj.
  apply list_lookup_singleton_Some in Hi as [_ <-].
  apply list_lookup_singleton_Some in Hj as [_ <-]. lia.
Qed.

Lemma nondecreasing_app xs ys :
  nondecreasing xs → nondecreasing ys →
  (∀ x y, x ∈ xs → y ∈ ys → x ≤ y) →
  nondecreasing (xs ++ ys).
Proof.
  intros Hxs Hys Hcross i j x y Hij Hi Hj.
  apply lookup_app_Some in Hi as [Hi | [Hlen Hi]];
    apply lookup_app_Some in Hj as [Hj | [Hlen' Hj]].
  - by eapply Hxs.
  - eapply Hcross; by eapply list_elem_of_lookup_2.
  - apply lookup_lt_Some in Hj. lia.
  - eapply (Hys (i - length xs)%nat (j - length xs)%nat); [lia | done..].
Qed.

Lemma notesOf_nil p : notesOf p [] = [].
Proof. done. Qed.

Lemma notesOf_app p sink1 sink2 :
  notesOf p (sink1 ++ sink2) = notesOf p sink1 ++ notesOf p sink2.
Proof. unfold notesOf. by rewrite filter_app, !fmap_app. Qed.

Lemma notesOf_tagged p q (notes : list ResearchProgress) :
  notesOf p ((λ progress, (q, progress)) <$> notes)
  = if decide (q = p) then completedQueries <$> notes else [].
Proof.
  unfold notesOf. case_decide as Hq.
  - induction notes as [| note notes IH]; [done |].
    rewrite fmap_cons, filter_cons_True by done.
    rewrite !fmap_cons. by rewrite IH.
  - induction notes as [| note notes IH]; [done |].
    by rewrite fmap_cons, filter_cons_False.
Qed.

Lemma statusStep_refl st : statusStep st st.
Proof. destruct st; simpl; lia || done. Qed.

Lemma statusStep_dead st : statusStep st Dead.
Proof. by destruct st. Qed.

Lemma notesStep_dead st st' notes :
  notesStep st st' notes → notesStep st Dead notes.
Proof. intros (k & ? & ? & ? & _). by exists k. Qed.

Lemma status_running breadth depth progress branches i p :
  status (Running breadth depth progress branches) (i :: p)
  = branchStatus (branches !! i) p.
Proof. done. Qed.

Lemma status_finished inv p : ¬ pending inv → status inv p = Dead.
Proof. destruct inv, p; simpl; tauto. Qed.

Lemma status_joinAll shared inv p :
  status (joinAll shared inv) p = status inv p ∨
  status (joinAll shared inv) p = Dead.
Proof.
  destruct (joinAll_cases shared inv) as [-> | [r ->]]; [by left | right].
  by destruct p.
Qed.

Lemma branchStatus_startQueued room branches j p :
  branchStatus (startQueued room branches !! j) p
  = branchStatus (branches !! j) p.
Proof.
  revert room j. induction branches as [| b branches IH]; intros room j;
    [done |].
  destruct b; [destruct room |..]; destruct j; simpl; auto.
Qed.

Lemma branchStatus_resolve branches i r j p :
  statusStep (branchStatus (branches !! j) p)
             (branchStatus (resolve i r branches !! j) p).
Proof.
  unfold resolve, pLimit. rewrite branchStatus_startQueued.
  rewrite list_lookup_insert. case_decide.
  - apply statusStep_dead.
  - apply statusStep_refl.
Qed.

Lemma branchStatus_insert branches i b j p :
  branchStatus (<[i := b]> branches !! j) p
  = if decide (i = j ∧ (i < length branches)%nat)
    then branchStatus (Some b) p
    else branchStatus (branches !! j) p.
Proof. rewrite list_lookup_insert. by case_decide. Qed.

Section SinkFacts.

Variable trimPrompt : string → Z → string.
Variable onProgress : bool.

Local Abbreviation execHere := (execHere trimPrompt onProgress).
Local Abbreviation execAt := (execAt trimPrompt onProgress).
Local Abbreviation exec := (exec trimPrompt onProgress).
Local Abbreviation run := (run trimPrompt onProgress).

Lemma joinAll_status_step shared inv inv' notes :
  (∀ p, p ≠ [] → statusStep (status inv p) (status inv' p)) ∧
  notesStep (status inv []) (status inv' []) notes →
  (∀ p, p ≠ [] → statusStep (status inv p) (status (joinAll shared inv') p)) ∧
  notesStep (status inv []) (status (joinAll shared inv') []) notes.
Proof.
  intros [Hstep Hnotes]. split.
  - intros p Hp. destruct (status_joinAll shared inv' p) as [-> | ->];
      [by apply Hstep | apply statusStep_dead].
  - destruct (status_joinAll shared inv' []) as [-> | ->];
      [done | by eapply notesStep_dead].
Qed.

(** The notification of one [reportProgress] call that does not lower
    [completedQueries]. *)
Lemma notesStep_report k k' note :
  k ≤ k' → completedQueries note = k' →
  notesStep (Live k) (Live k') (if onProgress then [note] else []).
Proof.
  intros Hle <-. exists k.
  destruct onProgress; simpl; split_and!;
    first [ done
          | by repeat constructor
          | apply nondecreasing_singleton
          | apply nondecreasing_nil ].
Qed.

Lemma notesStep_silent k : notesStep (Live k) (Live k) [].
Proof.
  exists k. split_and!;
    first [ done | apply nondecreasing_nil | lia | by constructor ].
Qed.

Lemma execHere_status a shared inv shared' inv' notes :
  execHere a shared inv = Some (shared', inv', notes) →
  (∀ p, p ≠ [] → statusStep (status inv p) (status inv' p)) ∧
  notesStep (status inv []) (status inv' []) notes.
Proof.
  intros Hexec.
  destruct a, inv as [breadth depth progress
                     | breadth depth progress branches | |];
    simplify_eq/=.
  - (* the queries arrive *)
    apply joinAll_status_step. split.
    + intros [| j p] Hp; [done |].
      rewrite status_running. unfold pLimit.
      rewrite branchStatus_startQueued, list_lookup_fmap.
      by destruct (slice0 breadth queries !! j).
    + apply notesStep_report; simpl; lia.
  - (* the generator fails *)
    split.
    + intros p _. rewrite (status_finished Threw p) by (simpl; tauto).
      apply statusStep_dead.
    + eapply notesStep_dead, notesStep_silent.
  - (* a search result arrives *)
    destruct (branches !! i) as [[] |] eqn:Hi; simplify_eq/=.
    split; [| apply notesStep_silent].
    intros [| j p] Hp; [done |].
    rewrite !status_running, branchStatus_insert.
    case_decide as Hj; [| apply statusStep_refl].
    destruct Hj as [<- _]. by rewrite Hi.
  - (* a search fails *)
    destruct (branches !! i) as [[] |] eqn:Hi; simplify_eq/=.
    apply joinAll_status_step. split; [| apply notesStep_silent].
    intros [| j p] Hp; [done |].
    rewrite !status_running. apply branchStatus_resolve.
  - (* an extraction arrives *)
    destruct (branches !! i) as [[] |] eqn:Hi; simplify_eq/=.
    case_bool_decide as Hdepth; simplify_eq/=.
    + split.
      * intros [| j p] Hp; [done |].
        rewrite !status_running, branchStatus_insert.
        case_decide as Hj; [| apply statusStep_refl].
        destruct Hj as [<- _]. rewrite Hi. by destruct p.
      * apply notesStep_report; simpl; lia.
    + apply joinAll_status_step. split.
      * intros [| j p] Hp; [done |].
        rewrite !status_running. apply branchStatus_resolve.
      * apply notesStep_report; simpl; lia.
  - (* an extraction fails *)
    destruct (branches !! i) as [[] |] eqn:Hi; simplify_eq/=.
    apply joinAll_status_step. split; [| apply notesStep_silent].
    intros [| j p] Hp; [done |].
    rewrite !status_running. apply branchStatus_resolve.
Qed.

(** The three ways the caller of a recursive call sees a step of it. *)
Lemma status_caller shared breadth depth progress branches i q child child' :
  branches !! i = Some (Recursing q child) →
  let root := Running breadth depth progress branches in
  let root' :=
    match child' with
    | Returned r =>
        joinAll shared (Running breadth depth progress (resolve i (ROwn r) branches))
    | Threw => Threw
    | _ => Running breadth depth progress (<[i := Recursing q child']> branches)
    end in
  (∀ p, status root' (i :: p) = status child' p) ∧
  (∀ j p, j ≠ i → statusStep (status root (j :: p)) (status root' (j :: p))) ∧
  statusStep (status root []) (status root' []).
Proof.
  intros Hi root root'. pose proof (lookup_lt_Some _ _ _ Hi) as Hlt.
  destruct child' as [cb cd cp | cb cd cp cbs | r |]; subst root root'.
  - split_and!.
    + intros p. by rewrite status_running, list_lookup_insert_eq.
    + intros j p Hj. rewrite !status_running, list_lookup_insert_ne by done.
      apply statusStep_refl.
    + apply statusStep_refl.
  - split_and!.
    + intros p. by rewrite status_running, list_lookup_insert_eq.
    + intros j p Hj. rewrite !status_running, list_lookup_insert_ne by done.
      apply statusStep_refl.
    + apply statusStep_refl.
  - split_and!.
    + intros p. rewrite (status_finished (Returned r)) by (simpl; tauto).
      destruct (status_joinAll shared
                  (Running breadth depth progress (resolve i (ROwn r) branches))
                  (i :: p)) as [-> | ->]; [| done].
      by rewrite status_running, lookup_resolve.
    + intros j p Hj.
      destruct (status_joinAll shared
                  (Running breadth depth progress (resolve i (ROwn r) branches))
                  (j :: p)) as [-> | ->]; [| apply statusStep_dead].
      rewrite !status_running. apply branchStatus_resolve.
    + destruct (status_joinAll shared
                  (Running breadth depth progress (resolve i (ROwn r) branches))
                  []) as [-> | ->]; [apply statusStep_refl | apply statusStep_dead].
  - split_and!.
    + intros p. by destruct p.
    + intros j p _. apply statusStep_dead.
    + apply statusStep_dead.
Qed.

Lemma execAt_status pa a shared root shared' root' notes :
  execAt pa a shared root = Some (shared', root', notes) →
  (∀ p, p ≠ pa → statusStep (status root p) (status root' p)) ∧
  notesStep (status root pa) (status root' pa) notes.
Proof.
  revert root root'. induction pa as [| i pa IH]; intros root root' Hexec.
  - by apply execHere_status in Hexec.
  - destruct root as [| breadth depth progress branches | |]; try done.
    simpl in Hexec.
    destruct (branches !! i) as [[| | | q child |] |] eqn:Hi; try done.
    destruct (execAt pa a shared child) as [[[shared1 child'] notes1] |] eqn:Hchild;
      [| done].
    simpl in Hexec. injection Hexec as <- <- <-.
    destruct (IH _ _ Hchild) as [Hstep Hnotes].
    destruct (status_caller shared1 breadth depth progress branches i q child
                child' Hi) as (Hbelow & Hbeside & Hself).
    split.
    + intros [| j p] Hp; [exact Hself |].
      destruct (decide (j = i)) as [-> | Hj]; [| by apply Hbeside].
      rewrite Hbelow, status_running, Hi. simpl.
      apply Hstep. congruence.
    + rewrite Hbelow, status_running, Hi. exact Hnotes.
Qed.

(** The sink stays in step with the state. *)
Lemma exec_SinkOk a s s' :
  exec a s = Some s' → SinkOk (sink s) (call s) → SinkOk (sink s') (call s').
Proof.
  intros Hexec Hok. unfold exec in Hexec.
  destruct (execAt a.1 a.2 (shared s) (call s)) as [[[shared1 call1] notes] |]
    eqn:Hat; simplify_eq/=.
  destruct (execAt_status _ _ _ _ _ _ _ Hat) as [Hstep Hnotes].
  intros p. destruct (Hok p) as [Hmono Hbound].
  rewrite notesOf_app, notesOf_tagged.
  case_decide as Hp.
  - subst p. destruct Hnotes as (k & Hlive & Hlow & Hsorted & Hafter).
    rewrite Hlive in Hbound.
    assert (Hcross : ∀ x y, x ∈ notesOf a.1 (sink s) →
                            y ∈ completedQueries <$> notes → x ≤ y).
    { intros x y Hx Hy.
      apply list_elem_of_fmap in Hy as (note & -> & Hnote).
      pose proof (proj1 (Forall_forall _ _) Hbound _ Hx).
      pose proof (proj1 (Forall_forall _ _) Hlow _ Hnote).
      simpl in *. lia. }
    split; [by apply nondecreasing_app |].
    destruct (status call1 a.1) as [k' | |]; [| done | done].
    destruct Hafter as [Hk Hhigh]. apply Forall_app. split.
    + eapply Forall_impl; [exact Hbound |]. simpl. intros; lia.
    + by apply Forall_fmap.
  - rewrite app_nil_r. split; [done |].
    specialize (Hstep p ltac:(congruence)).
    destruct (status (call s) p) as [k | |], (status call1 p) as [k' | |];
      simpl in *; try done.
    + eapply Forall_impl; [exact Hbound |]. simpl. intros; lia.
    + by rewrite Hbound.
Qed.

Lemma run_SinkOk answers s s' :
  run answers s = Some s' → SinkOk (sink s) (call s) → SinkOk (sink s') (call s').
Proof.
  revert s. induction answers as [| a answers IH]; intros s Hrun Hok;
    simplify_eq/=; [done |].
  destruct (exec a s) as [s1 |] eqn:Hexec; simplify_eq/=.
  eapply IH; [done |]. by eapply exec_SinkOk.
Qed.

(** C6 as amended: every call of the recursion has a progress record of its
    own, starting at [completedQueries = 0]; among the notifications that
    carry the record of one call, whatever its depth, [completedQueries]
    never decreases. *)
Theorem completedQueries_per_call (accumulators : ResearchResult) (b0 d0 : Z)
    (answers : list (Path * Answer)) (s : State) :
  run answers (start accumulators b0 d0) = Some s →
  ∀ p, nondecreasing (notesOf p (sink s)).
Proof.
  intros Hrun p. eapply (run_SinkOk _ _ _ Hrun).
  intros p'. split; [apply nondecreasing_nil |].
  by destruct (status _ _).
Qed.

End SinkFacts.

(** C6, counterexample: with breadth 1 and depth 2 the sink is given
    [completedQueries] 0, then 1 by the top-level call, then 0 again by the
    recursive call. *)
Lemma completedQueries_counterexample :
  run keepText true oneThenDeeper (start emptyResult 1 2)
  = Some oneThenDeeperState ∧
  allNotes (sink oneThenDeeperState) = [0; 1; 0] ∧
  ¬ nondecreasing (allNotes (sink oneThenDeeperState)).
Proof.
  split; [by vm_compute |]. split; [by vm_compute |].
  intros Hmono.
  specialize (Hmono 1%nat 2%nat 1 0 ltac:(lia) eq_refl eq_refl). lia.
Qed.

(** C6, witness: the notifications of the top-level call of
    [oneThenDeeper], and those of its recursive call. *)
Lemma completedQueries_per_call_witness :
  run keepText true oneThenDeeper (start emptyResult 1 2)
  = Some oneThenDeeperState ∧
  notesOf [] (sink oneThenDeeperState) = [0; 1] ∧
  notesOf [0%nat] (sink oneThenDeeperState) = [0] ∧
  nondecreasing (notesOf [] (sink oneThenDeeperState)) ∧
  nondecreasing (notesOf [0%nat] (sink oneThenDeeperState)).
Proof.
  assert (Hrun : run keepText true oneThenDeeper (start emptyResult 1 2)
                 = Some oneThenDeeperState) by (by vm_compute).
  split; [exact Hrun |]. split; [by vm_compute |]. split; [by vm_compute |].
  split; exact (completedQueries_per_call keepText true emptyResult 1 2
                  oneThenDeeper oneThenDeeperState Hrun _).
Defined.

(** ** Failed branches *)

Lemma fold_Set_add_twice xs s :
  fold_left Set_add xs (fold_left Set_add xs s) = fold_left Set_add xs s.
Proof.
  apply fold_Set_add_absorb. intros x Hx.
  apply elem_of_fold_Set_add. by right.
Qed.

(** Merging copies of one result and empty results is merging the one. *)
Lemma uniq_copies (f : ResearchResult → list string) shared results :
  f emptyResult = [] →
  Forall (λ r, r = shared ∨ r = emptyResult) results →
  Exists (λ r, r = shared) results →
  uniq (flat_map f results) = uniq (f shared).
Proof.
  intros Hempty Hall Hsome. unfold uniq. generalize (@nil string) as s.
  induction Hall as [| r results Hr Hall IH]; intros s;
    [by apply Exists_nil in Hsome |].
  simpl. rewrite fold_left_app.
  assert (Hcopy : r = shared →
            fold_left Set_add (flat_map f results) (fold_left Set_add (f r) s)
            = fold_left Set_add (f shared) s).
  { intros ->. apply fold_Set_add_absorb. intros x Hx.
    apply elem_of_fold_Set_add. right.
    apply elem_of_flat_map_field in Hx as (r' & Hr' & Hx).
    rewrite Forall_forall in Hall.
    destruct (Hall _ Hr') as [-> | ->]; [done |].
    rewrite Hempty in Hx. by apply elem_of_nil in Hx. }
  destruct Hr as [-> | ->]; [by apply Hcopy |].
  apply Exists_cons in Hsome as [Heq | Hsome]; [by apply Hcopy |].
  rewrite Hempty. simpl. by apply IH.
Qed.

Lemma uniq_all_empty (f : ResearchResult → list string) results :
  f emptyResult = [] →
  Forall (λ r, r = emptyResult) results →
  uniq (flat_map f results) = [].
Proof.
  intros Hempty Hall. induction Hall as [| r results -> Hall IH]; [done |].
  simpl. by rewrite Hempty.
Qed.

Lemma merge_all_empty results :
  Forall (λ r, r = emptyResult) results → merge results = emptyResult.
Proof.
  intros Hall. unfold merge. by rewrite !uniq_all_empty.
Qed.

Lemma merge_copies shared results :
  Forall (λ r, r = shared ∨ r = emptyResult) results →
  Exists (λ r, r = shared) results →
  merge results = merge [shared].
Proof.
  intros Hall Hsome. unfold merge.
  rewrite !(uniq_copies _ shared results) by done.
  simpl. by rewrite !app_nil_r.
Qed.

(** The empty results of failed branches add nothing to a merge. *)
Lemma merge_skips_empty shared (results : list BranchResult) :
  merge (deref shared <$> results)
  = merge (deref shared <$> filter (λ r, r ≠ ROwn emptyResult) results).
Proof.
  assert (Hfield : ∀ f : ResearchResult → list string,
             f emptyResult = [] →
             flat_map f (deref shared <$> results)
             = flat_map f (deref shared
                             <$> filter (λ r, r ≠ ROwn emptyResult) results)).
  { intros f Hempty. induction results as [| r results IH]; [done |].
    rewrite filter_cons. case_decide as Hr.
    - rewrite !fmap_cons. cbn [flat_map]. by rewrite IH.
    - subst r. rewrite fmap_cons. cbn [flat_map deref]. by rewrite Hempty. }
  unfold merge. by rewrite !Hfield.
Qed.

(** ** The limiter never idles while its queue is not empty *)

Section Saturation.

Implicit Types (b : Branch) (branches : list Branch).

Let queued b : nat := if isQueued b then 1%nat else 0%nat.
Let permit b : nat := if holdsPermit b then 1%nat else 0%nat.

Lemma queuedCount_cons b branches :
  queuedCount (b :: branches) = (queued b + queuedCount branches)%nat.
Proof.
  unfold queuedCount, queued. rewrite filter_cons.
  destruct (isQueued b); simpl; try case_decide; done.
Qed.

Lemma queuedCount_insert branches i b b' :
  branches !! i = Some b →
  (queuedCount (<[i := b']> branches) + queued b
   = queuedCount branches + queued b')%nat.
Proof.
  revert i. induction branches as [| x branches IH]; intros [| i] Hi;
    simplify_eq/=.
  - rewrite !queuedCount_cons. lia.
  - rewrite !queuedCount_cons. specialize (IH _ Hi). lia.
Qed.

Lemma queuedCount_fmap_queued (qs : list SerpQuery) :
  queuedCount (Queued <$> qs) = length qs.
Proof.
  induction qs as [| q qs IH]; [done |].
  rewrite fmap_cons, queuedCount_cons, IH. done.
Qed.

(** Starting queued branches moves [min room queued] of them from the
    queue to the running ones. *)
Lemma counts_startQueued room branches :
  activeCount (startQueued room branches)
  = (activeCount branches + room `min` queuedCount branches)%nat ∧
  queuedCount (startQueued room branches)
  = (queuedCount branches - room `min` queuedCount branches)%nat.
Proof.
  revert room. induction branches as [| b branches IH]; intros room.
  - cbn [startQueued]. rewrite activeCount_nil. unfold queuedCount. simpl. lia.
  - destruct b; [destruct room |..]; cbn [startQueued];
      rewrite ?activeCount_cons, ?queuedCount_cons; unfold queued;
      cbn [holdsPermit isQueued];
      try match goal with
          | |- context [startQueued ?r branches] =>
              destruct (IH r) as [-> ->]
          end; lia.
Qed.

Lemma Saturated_pLimit branches :
  (activeCount branches ≤ ConcurrencyLimit)%nat → Saturated (pLimit branches).
Proof.
  intros Hle. unfold Saturated, pLimit.
  destruct (counts_startQueued (ConcurrencyLimit - activeCount branches) branches)
    as [-> ->]. lia.
Qed.

Lemma Saturated_resolve branches i r :
  (activeCount branches ≤ ConcurrencyLimit)%nat →
  Saturated (resolve i r branches).
Proof.
  intros Hle. apply Saturated_pLimit.
  destruct (branches !! i) as [b |] eqn:Hi.
  - pose proof (activeCount_insert branches i b (Resolved r) Hi) as Heq.
    simpl in Heq. lia.
  - rewrite list_insert_ge; [done |]. by apply lookup_ge_None.
Qed.

(** A running branch that changes to another running state leaves the
    limiter as it is. *)
Lemma Saturated_insert_running branches i b b' :
  branches !! i = Some b →
  holdsPermit b = true → holdsPermit b' = true →
  Saturated branches → Saturated (<[i := b']> branches).
Proof.
  intros Hi Hb Hb' Hsat. unfold Saturated.
  pose proof (activeCount_insert branches i b b' Hi) as Ha.
  pose proof (queuedCount_insert branches i b b' Hi) as Hq.
  unfold queued in Hq. destruct b, b'; simplify_eq/=; unfold Saturated in Hsat; lia.
Qed.

(** A branch that is not resolved is running or queued. *)
Lemma unsettled_counts branches i b :
  branches !! i = Some b → settled b = None →
  (0 < activeCount branches + queuedCount branches)%nat.
Proof.
  revert i. induction branches as [| x branches IH]; intros [| i] Hi Hb;
    simplify_eq/=.
  - rewrite activeCount_cons, queuedCount_cons. destruct b; simplify_eq/=; lia.
  - rewrite activeCount_cons, queuedCount_cons.
    specialize (IH _ Hi Hb). lia.
Qed.

(** When the limiter runs something, some branch holds a permit. *)
Lemma activeCount_pos branches :
  (0 < activeCount branches)%nat →
  ∃ i b, branches !! i = Some b ∧ holdsPermit b = true.
Proof.
  induction branches as [| x branches IH]; intros Hpos.
  - rewrite activeCount_nil in Hpos. lia.
  - rewrite activeCount_cons in Hpos.
    destruct (holdsPermit x) eqn:Hx; [by exists 0%nat, x |].
    destruct (IH ltac:(lia)) as (i & b & Hi & Hb). by exists (S i), b.
Qed.

(** When nothing runs and nothing waits, every branch has resolved. *)
Lemma all_settled branches :
  activeCount branches = 0%nat → queuedCount branches = 0%nat →
  ∃ results, mapM settled branches = Some results ∧
             branches = Resolved <$> results.
Proof.
  induction branches as [| x branches IH]; intros Ha Hq.
  - by exists [].
  - rewrite activeCount_cons in Ha. rewrite queuedCount_cons in Hq.
    destruct (IH ltac:(lia) ltac:(lia)) as (results & Hall & ->).
    destruct x as [| | | | r]; unfold permit, queued in *;
      cbn [holdsPermit isQueued] in *; try lia.
    exists (r :: results). split; [| done].
    apply mapM_Some. constructor; [done |]. by apply mapM_Some.
Qed.

End Saturation.

(** ** A failed branch is isolated *)

Section Failure.

Variable trimPrompt : string → Z → string.
Variable onProgress : bool.

Local Abbreviation execHere := (execHere trimPrompt onProgress).
Local Abbreviation execAt := (execAt trimPrompt onProgress).
Local Abbreviation exec := (exec trimPrompt onProgress).
Local Abbreviation run := (run trimPrompt onProgress).

(** Only a failing generator makes a call throw. *)
Lemma execAt_threw p a shared root shared' notes :
  execAt p a shared root = Some (shared', Threw, notes) → a = GenerateErr.
Proof.
  revert root. induction p as [| i p IH]; intros root Hexec.
  - destruct a, root as [| breadth depth progress branches | |];
      simplify_eq/=; try done; answer_cases;
      match goal with
      | H : joinAll _ _ = Threw |- _ => by eapply joinAll_not_threw in H
      end.
  - destruct root as [| breadth depth progress branches | |]; try done.
    simpl in Hexec.
    destruct (branches !! i) as [[| | | q child |] |] eqn:Hi; try done.
    destruct (execAt p a shared child) as [[[shared1 child'] notes1] |] eqn:Hchild;
      [| done].
    simpl in Hexec. injection Hexec as <- Hroot <-.
    destruct child'; try done; [| by eapply IH].
    by eapply joinAll_not_threw in Hroot.
Qed.

Lemma run_threw answers s s' :
  run answers s = Some s' → call s' = Threw →
  call s = Threw ∨ ∃ p, (p, GenerateErr) ∈ answers.
Proof.
  revert s. induction answers as [| [p a] answers IH]; intros s Hrun Hthrew;
    simplify_eq/=; [by left |].
  destruct (exec (p, a) s) as [s1 |] eqn:Hexec; simplify_eq/=.
  destruct (IH _ Hrun Hthrew) as [Hs1 | [p' Hin]].
  - right. exists p. unfold exec in Hexec. simpl in Hexec.
    destruct (execAt p a (shared s) (call s)) as [[[shared1 call1] notes] |]
      eqn:Hat; simplify_eq/=.
    apply execAt_threw in Hat as ->. by left.
  - right. exists p'. by right.
Qed.

(** The join of branches that have not recursed returns the shared arrays,
    deduplicated, or the empty result when no branch took the terminal
    case. *)
Lemma Flat_joinAll allowShared shared breadth depth progress branches sink :
  (allowShared = true → depth ≤ 1) →
  (activeCount branches ≤ ConcurrencyLimit)%nat →
  Saturated branches →
  Forall (flatBranch allowShared) branches →
  Flat allowShared
    {| shared := shared;
       call := joinAll shared (Running breadth depth progress branches);
       sink := sink |}.
Proof.
  intros Hdepth Hact Hsat Hall. unfold Flat, joinAll. simpl.
  destruct (mapM settled branches) as [results |] eqn:Hsettled; [| done].
  apply mapM_Some in Hsettled.
  assert (Hresults : Forall (λ r, (r = RShared ∧ allowShared = true)
                                  ∨ r = ROwn emptyResult) results).
  { apply Forall_forall. intros r Hr.
    apply list_elem_of_lookup in Hr as [i Hi].
    destruct (Forall2_lookup_r _ _ _ _ _ Hsettled Hi) as (b & Hb & Hbr).
    pose proof (Forall_lookup_1 _ _ _ _ Hall Hb) as Hflat.
    destruct b; simplify_eq/=. destruct r; simpl in Hflat; subst; auto. }
  destruct (decide (RShared ∈ results)) as [Hin | Hnot].
  - right. rewrite Forall_forall in Hresults.
    destruct (Hresults _ Hin) as [[_ Hallow] | ?]; [| done].
    split; [done |]. apply merge_copies.
    + apply Forall_fmap, Forall_forall. intros r Hr.
      destruct (Hresults _ Hr) as [[-> _] | ->]; simpl; auto.
    + apply Exists_exists. exists shared. split; [| done].
      apply list_elem_of_fmap. by exists RShared.
  - left. apply merge_all_empty, Forall_fmap, Forall_forall. intros r Hr.
    rewrite Forall_forall in Hresults.
    destruct (Hresults _ Hr) as [[-> _] | ->]; [done | done].
Qed.

Lemma flatBranch_start allowShared q :
  flatBranch allowShared (Queued q) → flatBranch allowShared (Searching q).
Proof. done. Qed.

Lemma exec_Flat allowShared a s s' :
  Flat allowShared s →
  allowShared = true ∨ isExtractOk a.2 = false →
  exec a s = Some s' →
  Flat allowShared s'.
Proof.
  intros Hflat Hmode Hexec. destruct a as [p a], s as [shared root sink].
  unfold exec in Hexec. unfold Flat in Hflat. simpl in *.
  destruct p as [| i p].
  - destruct a, root as [breadth depth progress
                        | breadth depth progress branches | |];
      simplify_eq/=; try done.
    + (* the queries arrive *)
      apply Flat_joinAll; [done | | |].
      * apply activeCount_pLimit. rewrite activeCount_queued. lia.
      * apply Saturated_pLimit. rewrite activeCount_queued. lia.
      * apply Forall_startQueued; [apply flatBranch_start |].
        by apply Forall_fmap, Forall_true.
    + (* a search result arrives *)
      destruct Hflat as (Hdepth & Hact & Hsat & Hall).
      destruct (branches !! i) as [[] |] eqn:Hi; simplify_eq/=.
      unfold Flat. simpl. split_and!; [done | | |].
      * pose proof (activeCount_insert branches i _
                      (Processing serpQuery result) Hi) as Heq.
        simpl in Heq. lia.
      * by eapply Saturated_insert_running.
      * by apply Forall_insert.
    + (* a search fails *)
      destruct Hflat as (Hdepth & Hact & Hsat & Hall).
      destruct (branches !! i) as [[] |] eqn:Hi; simplify_eq/=.
      apply Flat_joinAll; [done | | |].
      * by apply activeCount_resolve.
      * by apply Saturated_resolve.
      * by apply Forall_resolve.
    + (* an extraction arrives *)
      destruct Hflat as (Hdepth & Hact & Hsat & Hall).
      destruct Hmode as [-> | ?]; [| done].
      destruct (branches !! i) as [[] |] eqn:Hi; simplify_eq/=.
      specialize (Hdepth eq_refl).
      rewrite bool_decide_eq_false_2 in Hexec by lia. simplify_eq/=.
      apply Flat_joinAll; [done | | |].
      * by apply activeCount_resolve.
      * by apply Saturated_resolve.
      * by apply Forall_resolve.
    + (* an extraction fails *)
      destruct Hflat as (Hdepth & Hact & Hsat & Hall).
      destruct (branches !! i) as [[] |] eqn:Hi; simplify_eq/=.
      apply Flat_joinAll; [done | | |].
      * by apply activeCount_resolve.
      * by apply Saturated_resolve.
      * by apply Forall_resolve.
  - destruct root as [| breadth depth progress branches | |]; try done.
    simpl in Hexec. destruct Hflat as (_ & _ & _ & Hall).
    destruct (branches !! i) as [[| | | q child |] |] eqn:Hi; try done.
    by pose proof (Forall_lookup_1 _ _ _ _ Hall Hi).
Qed.

Lemma run_Flat allowShared answers s s' :
  Flat allowShared s →
  allowShared = true ∨ Forall (λ a, isExtractOk a.2 = false) answers →
  run answers s = Some s' →
  Flat allowShared s'.
Proof.
  revert s. induction answers as [| a answers IH]; intros s Hflat Hmode Hrun;
    simplify_eq/=; [done |].
  destruct (exec a s) as [s1 |] eqn:Hexec; simplify_eq/=.
  eapply IH; [| | done].
  - eapply exec_Flat; [done | | done].
    destruct Hmode as [-> | Hall]; [by left | right].
    by apply Forall_cons in Hall as [? _].
  - destruct Hmode as [-> | Hall]; [by left | right].
    by apply Forall_cons in Hall as [_ ?].
Qed.

(** A failure of the search or of the extraction of branch [i] of the call
    at path [p]: the [catch] block returns the empty result. *)
Lemma exec_failure p i a s breadth depth progress branches :
  callAt p (call s) = Some (Running breadth depth progress branches) →
  (∃ q message, branches !! i = Some (Searching q) ∧ a = SearchErr i message) ∨
  (∃ q result message,
     branches !! i = Some (Processing q result) ∧ a = ExtractErr i message) →
  ∃ s',
    exec (p, a) s = Some s' ∧
    call s' ≠ Threw ∧
    shared s' = shared s ∧
    sink s' = sink s ∧
    ∀ breadth' depth' progress' branches',
      callAt p (call s') = Some (Running breadth' depth' progress' branches') →
      branches' !! i = Some (Resolved (ROwn emptyResult)).
Proof.
  intros Hat Hfail.
  assert (Hhere : execHere a (shared s) (Running breadth depth progress branches)
                  = Some (shared s,
                          joinAll (shared s)
                            (Running breadth depth progress
                               (resolve i (ROwn emptyResult) branches)),
                          []) ∧ a ≠ GenerateErr ∧ (i < length branches)%nat).
  { destruct Hfail as [(q & message & Hi & ->) | (q & result & message & Hi & ->)];
      simpl; rewrite Hi; split_and!; by eauto using lookup_lt_Some. }
  destruct Hhere as (Hhere & Ha & Hlt).
  destruct (exec_callAt _ _ _ _ _ _ _ _ _ Hat Hhere)
    as (s' & Hexec & Hshared & Hsink & Hafter & Hgone).
  exists s'. split_and!; try done.
  - intros Hthrew. unfold exec in Hexec. simpl in Hexec.
    destruct (execAt p a (shared s) (call s)) as [[[shared1 call1] notes] |]
      eqn:Hexec'; simplify_eq/=.
    by apply execAt_threw in Hexec'.
  - by rewrite Hsink, app_nil_r.
  - intros breadth' depth' progress' branches' Hat'.
    destruct (joinAll_cases (shared s)
                (Running breadth depth progress
                   (resolve i (ROwn emptyResult) branches)))
      as [Hsame | [r Hreturned]].
    + rewrite Hsame in Hafter. rewrite Hafter in Hat' by done.
      simplify_eq. by apply lookup_resolve.
    + rewrite Hreturned in Hgone.
      destruct (Hgone ltac:(auto)) as [[-> Hcall] | [_ Hnone]];
        simpl in *; congruence.
Qed.

(** Whatever has been generated, letting every branch fail ends the call
    with the empty result. *)
Lemma all_fail_returns m :
  ∀ branches store breadth depth progress log,
    (activeCount branches + queuedCount branches = m)%nat →
    (activeCount branches ≤ ConcurrencyLimit)%nat →
    Saturated branches →
    Forall (flatBranch false) branches →
    ∃ answers s',
      Forall (λ a, a.1 = [] ∧ isFailure a.2 = true) answers ∧
      run answers
        {| shared := store;
           call := joinAll store (Running breadth depth progress branches);
           sink := log |} = Some s' ∧
      call s' = Returned emptyResult ∧
      shared s' = store ∧
      sink s' = log.
Proof.
  induction m as [| m IH];
    intros branches store breadth depth progress log Hm Hact Hsat Hall.
  - exists [].
    pose proof (Flat_joinAll false store breadth depth progress branches log
                  ltac:(done) Hact Hsat Hall) as Hflat.
    destruct (all_settled branches ltac:(lia) ltac:(lia)) as (results & Hres & _).
    unfold Flat, joinAll in *. simpl in *. rewrite Hres in *.
    destruct Hflat as [Hempty | [? _]]; [| done].
    eexists. split_and!; [constructor | reflexivity | by rewrite Hempty | done..].
  - assert (Hrunning : (0 < activeCount branches)%nat).
    { destruct (activeCount branches) eqn:Hzero; [| lia].
      unfold Saturated in Hsat. unfold ConcurrencyLimit in *. lia. }
    destruct (activeCount_pos _ Hrunning) as (i & b & Hi & Hb).
    pose proof (Forall_lookup_1 _ _ _ _ Hall Hi) as Hflat.
    set (s := {| shared := store;
                 call := joinAll store (Running breadth depth progress branches);
                 sink := log |}).
    assert (Hat : callAt [] (call s)
                  = Some (Running breadth depth progress branches)).
    { simpl. f_equal. eapply joinAll_unsettled; [done |]. by destruct b. }
    assert (Hfail : ∃ a, isFailure a = true ∧
              ((∃ q message, branches !! i = Some (Searching q)
                             ∧ a = SearchErr i message) ∨
               (∃ q result message, branches !! i = Some (Processing q result)
                                    ∧ a = ExtractErr i message))).
    { destruct b as [| q | q result | |]; try done.
      - exists (SearchErr i ""). split; [done |]. left. by exists q, "".
      - exists (ExtractErr i ""). split; [done |]. right. by exists q, result, "". }
    destruct Hfail as (a & Ha & Hfail).
    assert (Hhere : execHere a store (Running breadth depth progress branches)
                    = Some (store,
                            joinAll store
                              (Running breadth depth progress
                                 (resolve i (ROwn emptyResult) branches)),
                            [])).
    { destruct Hfail as [(q & message & Hq & ->) | (q & result & message & Hq & ->)];
        simpl; by rewrite Hq. }
    assert (Hexec : exec ([], a) s
                    = Some {| shared := store;
                              call := joinAll store
                                        (Running breadth depth progress
                                           (resolve i (ROwn emptyResult) branches));
                              sink := log |}).
    { unfold exec. cbn [fst snd execAt]. subst s. cbn [shared call sink].
      rewrite (joinAll_unsettled _ _ _ _ _ b i) by (done || by destruct b).
      rewrite Hhere. simpl. by rewrite app_nil_r. }
    destruct (IH (resolve i (ROwn emptyResult) branches) store breadth depth
                progress log) as (answers & s' & Hanswers & Hrun & Hcall & Hsh & Hsk).
    + unfold resolve, pLimit.
      destruct (counts_startQueued
                  (ConcurrencyLimit
                   - activeCount (<[i := Resolved (ROwn emptyResult)]> branches))
                  (<[i := Resolved (ROwn emptyResult)]> branches)) as [-> ->].
      pose proof (activeCount_insert branches i b
                    (Resolved (ROwn emptyResult)) Hi) as Ha'.
      pose proof (queuedCount_insert branches i b
                    (Resolved (ROwn emptyResult)) Hi) as Hq'.
      destruct b; simplify_eq/=; lia.
    + by apply activeCount_resolve.
    + by apply Saturated_resolve.
    + by apply Forall_resolve.
    + exists (([], a) :: answers), s'. split_and!; try done.
      * by constructor.
      * rewrite run_cons, Hexec. exact Hrun.
Qed.

(** Only a successful extraction changes the shared arrays. *)
Lemma execAt_shared p a shared root shared' root' notes :
  isExtractOk a = false →
  execAt p a shared root = Some (shared', root', notes) →
  shared' = shared.
Proof.
  intros Ha. revert root root'. induction p as [| i p IH]; intros root root' Hexec.
  - destruct a, root as [| breadth depth progress branches | |];
      simplify_eq/=; try done; answer_cases; done.
  - destruct root as [| breadth depth progress branches | |]; try done.
    simpl in Hexec.
    destruct (branches !! i) as [[| | | q child |] |] eqn:Hi; try done.
    destruct (execAt p a shared child) as [[[shared1 child'] notes1] |] eqn:Hchild;
      [| done].
    simpl in Hexec. injection Hexec as Hs _ Hn. subst shared1 notes1.
    by eapply IH.
Qed.

(** A step only appends to the shared arrays. *)
Lemma within_refl r : within r r.
Proof. by split_and!. Qed.

Lemma within_trans r1 r2 r3 : within r2 r1 → within r3 r2 → within r3 r1.
Proof.
  intros (? & ? & ?) (? & ? & ?). split_and!; by etrans.
Qed.

Lemma within_empty bound : within bound emptyResult.
Proof. split_and!; apply list_subseteq_nil. Qed.

Lemma within_pushAll store result object :
  within (pushAll trimPrompt store result object) store.
Proof. split_and!; simpl; by apply list_subseteq_app_l. Qed.

Lemma within_merge bound results :
  Forall (within bound) results → within bound (merge results).
Proof.
  intros Hall.
  assert (Hfield : ∀ f : ResearchResult → list string,
             (∀ r, within bound r → f r ⊆ f bound) →
             uniq (flat_map f results) ⊆ f bound).
  { intros f Hf x Hx. apply elem_of_uniq, elem_of_flat_map_field in Hx
      as (r & Hr & Hx).
    rewrite Forall_forall in Hall. by apply (Hf r (Hall r Hr)). }
  split_and!; apply Hfield; by intros r (? & ? & ?).
Qed.

Lemma Within_joinAll bound store inv :
  within bound store → Within bound inv → Within bound (joinAll store inv).
Proof.
  intros Hstore Hinv. destruct inv as [| breadth depth progress branches | |];
    try done.
  unfold joinAll. destruct (mapM settled branches) as [results |] eqn:Hsettled;
    [| done].
  constructor. apply within_merge, Forall_fmap, Forall_forall. intros r Hr.
  apply mapM_Some in Hsettled.
  apply list_elem_of_lookup in Hr as [i Hi].
  destruct (Forall2_lookup_r _ _ _ _ _ Hsettled Hi) as (b & Hb & Hbr).
  inversion Hinv as [| ? ? ? ? Hall | |]; subst.
  pose proof (Forall_lookup_1 _ _ _ _ Hall Hb) as Hbranch.
  destruct b; simplify_eq/=. inversion Hbranch; subst; done.
Qed.

Lemma Within_resolve bound store breadth depth progress branches i r :
  within bound store →
  Within bound (Running breadth depth progress branches) →
  WithinBranch bound (Resolved r) →
  Within bound
    (joinAll store (Running breadth depth progress (resolve i r branches))).
Proof.
  intros Hstore Hinv Hr. apply Within_joinAll; [done |].
  inversion Hinv as [| ? ? ? ? Hall | |]; subst.
  constructor. apply Forall_resolve; [| done..].
  intros q _. constructor.
Qed.

Lemma execAt_grows p a store root store' root' notes :
  execAt p a store root = Some (store', root', notes) → within store' store.
Proof.
  revert root root'. induction p as [| i p IH]; intros root root' Hexec.
  - destruct a, root as [breadth depth progress
                        | breadth depth progress branches | |];
      simplify_eq/=; try done; answer_cases;
      apply within_refl || apply within_pushAll.
  - destruct root as [| breadth depth progress branches | |]; try done.
    simpl in Hexec.
    destruct (branches !! i) as [[| | | q child |] |] eqn:Hi; try done.
    destruct (execAt p a store child) as [[[store1 child'] notes1] |] eqn:Hchild;
      [| done].
    simpl in Hexec. injection Hexec as Hs _ Hn. subst store1 notes1.
    by eapply IH.
Qed.

Lemma execAt_within bound p a store root store' root' notes :
  execAt p a store root = Some (store', root', notes) →
  within bound store' →
  Within bound root →
  Within bound root'.
Proof.
  revert root root'. induction p as [| i p IH]; intros root root' Hexec Hbound Hroot.
  - destruct a, root as [breadth depth progress
                        | breadth depth progress branches | |];
      simplify_eq/=; try done; answer_cases.
    + apply Within_joinAll; [done |]. constructor.
      apply Forall_startQueued; [intros; constructor |].
      apply Forall_fmap, Forall_true. intros; constructor.
    + constructor.
    + inversion Hroot; subst. constructor.
      apply Forall_insert; [done | constructor].
    + apply Within_resolve; [done.. | constructor; apply within_empty].
    + inversion Hroot; subst. constructor.
      apply Forall_insert; [done |]. constructor. unfold deepResearch.
      constructor.
    + apply Within_resolve;
        [done | inversion Hroot; subst; by constructor | constructor].
    + apply Within_resolve; [done.. | constructor; apply within_empty].
  - destruct root as [| breadth depth progress branches | |]; try done.
    simpl in Hexec.
    destruct (branches !! i) as [[| | | q child |] |] eqn:Hi; try done.
    destruct (execAt p a store child) as [[[store1 child'] notes1] |] eqn:Hchild;
      [| done].
    simpl in Hexec. injection Hexec as Hs Hroot' Hn. subst store1 notes1.
    assert (Hin : Within bound child).
    { inversion Hroot as [| ? ? ? ? Hall | |]; subst.
      pose proof (Forall_lookup_1 _ _ _ _ Hall Hi) as Hbranch.
      by inversion Hbranch. }
    pose proof (IH _ _ Hchild Hbound Hin) as Hchild'.
    subst root'. destruct child'.
    + inversion Hroot; subst. constructor.
      apply Forall_insert; [done | by constructor].
    + inversion Hroot; subst. constructor.
      apply Forall_insert; [done | by constructor].
    + apply Within_resolve; [done.. |]. constructor. by inversion Hchild'.
    + constructor.
Qed.

Lemma run_within answers s s' :
  run answers s = Some s' →
  within (shared s') (shared s) ∧
  (Within (shared s') (call s) → Within (shared s') (call s')).
Proof.
  revert s. induction answers as [| a answers IH]; intros s Hrun; simplify_eq/=.
  - split; [apply within_refl | done].
  - destruct (exec a s) as [s1 |] eqn:Hexec; simplify_eq/=.
    destruct (IH _ Hrun) as [Hgrow Hkeep].
    unfold exec in Hexec.
    destruct (execAt a.1 a.2 (shared s) (call s)) as [[[store1 call1] notes] |]
      eqn:Hat; simplify_eq/=.
    split.
    + eapply within_trans; [by eapply execAt_grows | exact Hgrow].
    + intros Hstart. apply Hkeep. by eapply execAt_within.
Qed.

End Failure.

(** C1, witness: the calls of [twoLevels], a run of depth 2. *)
Lemma depth_levels_witness :
  run keepText true twoLevels (start emptyResult 4 2) = Some twoLevelsState ∧
  (∀ p inv,
     callAt p (call twoLevelsState) = Some inv → pending inv →
     depthOf inv = Some (2 - Z.of_nat (length p)) ∧
     Z.of_nat (length p) + 1 ≤ Z.max 2 1) ∧
  callAt [1%nat] (call twoLevelsState) ≫= depthOf = Some 1.
Proof.
  assert (Hrun : run keepText true twoLevels (start emptyResult 4 2)
                 = Some twoLevelsState) by (by vm_compute).
  split; [exact Hrun |]. split; [| by vm_compute].
  exact (proj1 (proj1 (depth_levels keepText true emptyResult 4 2)
                  twoLevels twoLevelsState Hrun)).
Defined.

(** ** The scenarios of the specification, run *)

(** Breadth 2, depth 1, the search of the second pair times out: the call
    returns what the first branch found, and nothing is thrown. *)
Example one_timeout_scenario :
  run keepText true oneTimeout (start emptyResult 2 1) = Some oneTimeoutState ∧
  call oneTimeoutState
  = Returned {| learnings := ["learning of a"];
                visitedUrls := ["https://a"];
                sourceContents := ["text of a"] |}.
Proof. split; by vm_compute. Qed.

(** Depth 0: one level of search, then the terminal case. *)
Example depth_zero_scenario :
  ∃ s, run keepText true depthZero (start emptyResult 1 0) = Some s ∧
       call s = Returned {| learnings := ["learning of a"];
                            visitedUrls := ["https://a"];
                            sourceContents := ["text of a"] |} ∧
       (currentDepth <$> (snd <$> sink s)) = [0; 0].
Proof. eexists. split_and!; by vm_compute. Qed.

(** Depth 2 with breadth 1, where the one branch of the recursive call
    fails: the recursive call returns the empty result, and so does the
    top-level call, although its branch had pushed a learning. *)
Example nested_failure_scenario :
  ∃ s, run keepText true
         (oneThenDeeper ++ [([0%nat], SearchErr 0 "Timeout")])
         (start emptyResult 1 2) = Some s ∧
       call s = Returned emptyResult ∧
       learnings (shared s) = ["learning of a"].
Proof. eexists. split_and!; by vm_compute. Qed.

(** ** Counting the branches of one call *)

Section Counting.

Variable f : Branch → bool.
Implicit Types (b : Branch) (branches : list Branch).

Let count branches : nat := length (filter (λ b, f b = true) branches).
Let one b : nat := if f b then 1%nat else 0%nat.

Lemma count_cons b branches :
  count (b :: branches) = (one b + count branches)%nat.
Proof.
  unfold count, one. rewrite filter_cons.
  destruct (f b); simpl; try case_decide; done.
Qed.

Lemma count_insert branches i b b' :
  branches !! i = Some b →
  (count (<[i := b']> branches) + one b = count branches + one b')%nat.
Proof.
  revert i. induction branches as [| x branches IH]; intros [| i] Hi;
    simplify_eq/=.
  - rewrite !count_cons. lia.
  - rewrite !count_cons. specialize (IH _ Hi). lia.
Qed.

Lemma count_startQueued room branches :
  (∀ q, f (Searching q) = f (Queued q)) →
  count (startQueued room branches) = count branches.
Proof.
  intros Hf. revert room.
  induction branches as [| b branches IH]; intros room; [done |].
  destruct b; [destruct room |..]; cbn [startQueued];
    rewrite ?count_cons, ?IH; unfold one; by rewrite ?Hf.
Qed.

Lemma count_le_length branches : (count branches ≤ length branches)%nat.
Proof. apply length_filter. Qed.

End Counting.

Lemma doneCount_insert branches i b b' :
  branches !! i = Some b →
  (doneCount (<[i := b']> branches) + (if isDone b then 1 else 0)
   = doneCount branches + (if isDone b' then 1 else 0))%nat.
Proof. apply (count_insert isDone). Qed.

Lemma doneCount_pLimit branches : doneCount (pLimit branches) = doneCount branches.
Proof. by apply (count_startQueued isDone). Qed.

Lemma doneCount_resolve branches i b r :
  branches !! i = Some b →
  (doneCount (resolve i r branches) + (if isDone b then 1 else 0)
   = doneCount branches + 1)%nat.
Proof.
  intros Hi. unfold resolve. rewrite doneCount_pLimit.
  apply (doneCount_insert branches i b (Resolved r) Hi).
Qed.

Lemma doneCount_le_length branches : (doneCount branches ≤ length branches)%nat.
Proof. apply (count_le_length isDone). Qed.

Lemma doneCount_queued (qs : list SerpQuery) : doneCount (Queued <$> qs) = 0%nat.
Proof.
  induction qs as [| q qs IH]; [done |].
  unfold doneCount in *. rewrite fmap_cons, (count_cons isDone). by rewrite IH.
Qed.

(** A branch that has not resolved waits or runs. *)
Lemma unresolvedCount_split branches :
  unresolvedCount branches = (activeCount branches + queuedCount branches)%nat.
Proof.
  induction branches as [| b branches IH]; [done |].
  unfold unresolvedCount in *.
  rewrite (count_cons isUnresolved), activeCount_cons, queuedCount_cons, IH.
  destruct b; simpl; lia.
Qed.

Lemma unresolvedCount_lookup branches i b :
  branches !! i = Some b → isUnresolved b = true →
  (0 < unresolvedCount branches)%nat.
Proof.
  intros Hi Hb. rewrite unresolvedCount_split.
  apply (unsettled_counts branches i b Hi). by destruct b.
Qed.

Lemma unresolvedCount_unsettled branches :
  mapM settled branches = None → (0 < unresolvedCount branches)%nat.
Proof.
  intros Hnone. rewrite unresolvedCount_split.
  destruct (activeCount branches) eqn:Ha; [| lia].
  destruct (queuedCount branches) eqn:Hq; [| lia].
  destruct (all_settled branches Ha Hq) as (results & Hsome & _). congruence.
Qed.

(** ** The limiter starts its branches in queue order *)

Lemma startedInOrder_cons b branches :
  isQueued b = false → startedInOrder branches → startedInOrder (b :: branches).
Proof.
  intros Hb Hrest [| i] [| j] x y Hij Hi Hj Hx; simplify_eq/=;
    try congruence; try lia.
  eapply (Hrest i j); [lia | done..].
Qed.

Lemma startedInOrder_tail b branches :
  startedInOrder (b :: branches) → startedInOrder branches.
Proof.
  intros Hall i j x y Hij Hi Hj. by apply (Hall (S i) (S j) x y ltac:(lia)).
Qed.

Lemma startedInOrder_startQueued room branches :
  startedInOrder branches → startedInOrder (startQueued room branches).
Proof.
  revert room. induction branches as [| b branches IH]; intros room Hall;
    [done |].
  pose proof (startedInOrder_tail _ _ Hall) as Hrest.
  destruct b; [destruct room |..]; cbn [startQueued];
    first [ done | apply startedInOrder_cons; [done | by apply IH] ].
Qed.

Lemma startedInOrder_insert branches i b b' :
  branches !! i = Some b → isQueued b = false → isQueued b' = false →
  startedInOrder branches → startedInOrder (<[i := b']> branches).
Proof.
  intros Hi Hb Hb' Hall i1 j1 x y Hij Hx Hy Hqueued.
  destruct (decide (i1 = i)) as [-> | Hi1].
  - rewrite list_lookup_insert_eq in Hx by (by eapply lookup_lt_Some).
    simplify_eq. congruence.
  - rewrite list_lookup_insert_ne in Hx by congruence.
    destruct (decide (j1 = i)) as [-> | Hj1].
    + pose proof (Hall i1 i x b Hij Hx Hi Hqueued). congruence.
    + rewrite list_lookup_insert_ne in Hy by congruence.
      by apply (Hall i1 j1 x y).
Qed.

Lemma startedInOrder_queued (qs : list SerpQuery) : startedInOrder (Queued <$> qs).
Proof.
  intros i j x y _ _ Hy _.
  rewrite list_lookup_fmap in Hy. by destruct (qs !! j); simplify_eq/=.
Qed.

Lemma startedInOrder_resolve branches i b r :
  branches !! i = Some b → isQueued b = false →
  startedInOrder branches → startedInOrder (resolve i r branches).
Proof.
  intros Hi Hb Hall. apply startedInOrder_startQueued.
  by eapply startedInOrder_insert.
Qed.

(** ** The invariant [Orderly] is kept by every step *)

Lemma distinct_merge results : distinct (merge results).
Proof. split_and!; apply NoDup_uniq. Qed.

Lemma distinct_empty : distinct emptyResult.
Proof. split_and!; apply NoDup_nil_2. Qed.

Lemma ProgressOk_note breadth depth progress branches :
  ProgressOk breadth depth progress branches → NoteOk breadth depth progress.
Proof.
  intros (? & ? & ? & ? & ? & ? & ?).
  pose proof (doneCount_le_length branches).
  unfold NoteOk. split_and!; try done; lia.
Qed.

(** The record is as good for branches that are as many and no less far. *)
Lemma ProgressOk_branches breadth depth progress branches branches' :
  ProgressOk breadth depth progress branches →
  length branches' = length branches →
  (doneCount branches ≤ doneCount branches')%nat →
  ProgressOk breadth depth progress branches'.
Proof.
  intros (? & ? & ? & ? & ? & ? & ?) Hlen Hdone.
  unfold ProgressOk. rewrite Hlen. split_and!; try done; lia.
Qed.

Lemma Orderly_joinAll shared breadth depth progress branches :
  (activeCount branches ≤ ConcurrencyLimit)%nat →
  Saturated branches →
  startedInOrder branches →
  ProgressOk breadth depth progress branches →
  Forall OrderlyBranch branches →
  Orderly (joinAll shared (Running breadth depth progress branches)).
Proof.
  intros Hact Hsat Hfifo Hok Hall. unfold joinAll.
  destruct (mapM settled branches) as [results |] eqn:Hsettled.
  - constructor. apply distinct_merge.
  - constructor; try done. by apply unresolvedCount_unsettled.
Qed.

(** A branch that runs goes on to its next await. *)
Lemma Orderly_insert breadth depth progress progress' branches i x x' :
  Orderly (Running breadth depth progress branches) →
  branches !! i = Some x →
  holdsPermit x = true → holdsPermit x' = true →
  OrderlyBranch x' →
  ProgressOk breadth depth progress' (<[i := x']> branches) →
  Orderly (Running breadth depth progress' (<[i := x']> branches)).
Proof.
  intros Hinv Hi Hx Hx' Hbranch Hok.
  inversion Hinv as [| ? ? ? ? Hact Hsat Hfifo Hsome _ Hall | |]; subst.
  pose proof (lookup_lt_Some _ _ _ Hi) as Hlt.
  constructor; try done.
  - pose proof (activeCount_insert branches i x x' Hi) as Heq.
    simpl in Heq. rewrite Hx, Hx' in Heq. lia.
  - by eapply Saturated_insert_running.
  - eapply startedInOrder_insert; [done | | | done].
    + by destruct x.
    + by destruct x'.
  - eapply (unresolvedCount_lookup _ i x').
    + by apply list_lookup_insert_eq.
    + by destruct x'.
  - by apply Forall_insert.
Qed.

(** A branch that runs resolves. *)
Lemma Orderly_resolve shared breadth depth progress progress' branches i x r :
  Orderly (Running breadth depth progress branches) →
  branches !! i = Some x →
  holdsPermit x = true →
  OrderlyBranch (Resolved r) →
  ProgressOk breadth depth progress' (resolve i r branches) →
  Orderly (joinAll shared (Running breadth depth progress' (resolve i r branches))).
Proof.
  intros Hinv Hi Hx Hr Hok.
  inversion Hinv as [| ? ? ? ? Hact Hsat Hfifo Hsome _ Hall | |]; subst.
  apply Orderly_joinAll; try done.
  - by apply activeCount_resolve.
  - by apply Saturated_resolve.
  - eapply startedInOrder_resolve; [done | | done]. by destruct x.
  - apply Forall_resolve; [| done..]. intros q _. constructor.
Qed.

Lemma Orderly_progress breadth depth progress branches :
  Orderly (Running breadth depth progress branches) →
  ProgressOk breadth depth progress branches.
Proof. intros Hinv. by inversion Hinv. Qed.

Section OrderlySteps.

Variable trimPrompt : string → Z → string.
Variable onProgress : bool.

Local Abbreviation execHere := (execHere trimPrompt onProgress).
Local Abbreviation execAt := (execAt trimPrompt onProgress).
Local Abbreviation exec := (exec trimPrompt onProgress).
Local Abbreviation run := (run trimPrompt onProgress).

Lemma NoteOk_reported breadth depth progress branches :
  ProgressOk breadth depth progress branches →
  Forall (NoteOk breadth depth) (if onProgress then [progress] else []).
Proof.
  intros Hok. destruct onProgress; [| constructor].
  apply Forall_singleton. by eapply ProgressOk_note.
Qed.

Lemma execHere_orderly a shared inv shared' inv' notes :
  Orderly inv →
  execHere a shared inv = Some (shared', inv', notes) →
  Orderly inv' ∧
  ∀ breadth depth,
    breadthOf inv = Some breadth → depthOf inv = Some depth →
    Forall (NoteOk breadth depth) notes.
Proof.
  intros Hinv Hexec.
  destruct a, inv as [breadth depth progress
                     | breadth depth progress branches | |];
    simplify_eq/=.
  - (* the queries arrive *)
    inversion Hinv; subst.
    match goal with
    | |- Orderly (joinAll _ (Running ?b ?d ?pr ?bs)) ∧ _ =>
        assert (Hok : ProgressOk b d pr bs)
    end.
    { unfold ProgressOk. simpl.
      rewrite length_pLimit, length_fmap, doneCount_pLimit, doneCount_queued.
      split_and!; auto using length_slice0; lia. }
    split.
    + apply Orderly_joinAll; [| | | done |].
      * apply activeCount_pLimit. rewrite activeCount_queued. lia.
      * apply Saturated_pLimit. rewrite activeCount_queued. lia.
      * apply startedInOrder_startQueued, startedInOrder_queued.
      * apply Forall_startQueued; [intros; constructor |].
        apply Forall_fmap, Forall_true. intros; constructor.
    + intros ? ? [= <-] [= <-]. by eapply NoteOk_reported.
  - (* the generator fails *)
    split; [constructor | intros; constructor].
  - (* a search result arrives *)
    destruct (branches !! i) as [[] |] eqn:Hi; simplify_eq/=.
    split; [| intros; constructor].
    eapply Orderly_insert; [done.. | constructor |].
    eapply ProgressOk_branches; [by apply Orderly_progress | |].
    + by rewrite length_insert.
    + pose proof (doneCount_insert branches i _
                    (Processing serpQuery result) Hi) as Heq.
      simpl in Heq. lia.
  - (* a search fails *)
    destruct (branches !! i) as [[] |] eqn:Hi; simplify_eq/=.
    split; [| intros; constructor].
    eapply Orderly_resolve; [done.. | constructor; apply distinct_empty |].
    eapply ProgressOk_branches; [by apply Orderly_progress | |].
    + by rewrite length_resolve.
    + pose proof (doneCount_resolve branches i _ (ROwn emptyResult) Hi) as Heq.
      simpl in Heq. lia.
  - (* an extraction arrives *)
    destruct (branches !! i) as [[] |] eqn:Hi; simplify_eq/=.
    pose proof (Orderly_progress _ _ _ _ Hinv)
      as (Htd & Htb & Htq & Hle & Hdone & Hcd & Hcb).
    case_bool_decide as Hdepth; simplify_eq/=.
    + match goal with
      | |- Orderly (Running ?b ?d ?pr ?bs) ∧ _ =>
          assert (Hok : ProgressOk b d pr bs)
      end.
      { pose proof (doneCount_insert branches i _
                      (Recursing serpQuery
                         (deepResearch (newBreadth (totalBreadth progress))
                            (totalDepth progress - 1))) Hi)
          as Heq.
        simpl in Heq. unfold ProgressOk. simpl. rewrite length_insert.
        split_and!; auto; lia. }
      split.
      * eapply Orderly_insert; [done.. | | done].
        constructor. unfold deepResearch. constructor.
      * intros ? ? [= <-] [= <-]. by eapply NoteOk_reported.
    + match goal with
      | |- Orderly (joinAll _ (Running ?b ?d ?pr ?bs)) ∧ _ =>
          assert (Hok : ProgressOk b d pr bs)
      end.
      { pose proof (doneCount_resolve branches i _ RShared Hi) as Heq.
        simpl in Heq. unfold ProgressOk. simpl. rewrite length_resolve.
        split_and!; auto; lia. }
      split.
      * eapply Orderly_resolve; [done.. | constructor | done].
      * intros ? ? [= <-] [= <-]. by eapply NoteOk_reported.
  - (* an extraction fails *)
    destruct (branches !! i) as [[] |] eqn:Hi; simplify_eq/=.
    split; [| intros; constructor].
    eapply Orderly_resolve; [done.. | constructor; apply distinct_empty |].
    eapply ProgressOk_branches; [by apply Orderly_progress | |].
    + by rewrite length_resolve.
    + pose proof (doneCount_resolve branches i _ (ROwn emptyResult) Hi) as Heq.
      simpl in Heq. lia.
Qed.

End OrderlySteps.

Lemma Orderly_child breadth depth progress branches i q child :
  Orderly (Running breadth depth progress branches) →
  branches !! i = Some (Recursing q child) →
  Orderly child.
Proof.
  intros Hinv Hi.
  inversion Hinv as [| ? ? ? ? _ _ _ _ _ Hall | |]; subst.
  pose proof (Forall_lookup_1 _ _ _ _ Hall Hi) as Hbranch.
  by inversion Hbranch.
Qed.

(** The invariant reaches every call of the recursion. *)
Lemma Orderly_callAt p inv inv' :
  Orderly inv → callAt p inv = Some inv' → Orderly inv'.
Proof.
  revert inv. induction p as [| i p IH]; intros inv Hinv Hat; simplify_eq/=;
    [done |].
  destruct inv as [| breadth depth progress branches | |]; try done.
  destruct (branches !! i) as [[| | | q child |] |] eqn:Hi; try done.
  eapply IH; [| done]. by eapply Orderly_child.
Qed.

Section OrderlyRuns.

Variable trimPrompt : string → Z → string.
Variable onProgress : bool.
Variables b0 d0 : Z.

Local Abbreviation execHere := (execHere trimPrompt onProgress).
Local Abbreviation execAt := (execAt trimPrompt onProgress).
Local Abbreviation exec := (exec trimPrompt onProgress).
Local Abbreviation run := (run trimPrompt onProgress).

Lemma execAt_orderly p n a shared inv shared' inv' notes :
  SoundCall b0 d0 n inv →
  Orderly inv →
  execAt p a shared inv = Some (shared', inv', notes) →
  Orderly inv' ∧
  Forall (NoteOk (breadthAt (n + length p) b0)
                 (d0 - Z.of_nat (n + length p))) notes.
Proof.
  revert n shared inv shared' inv' notes.
  induction p as [| i p IH];
    intros n shared inv shared' inv' notes Hsound Hinv Hexec.
  - destruct (execHere_orderly _ _ _ _ _ _ _ _ Hinv Hexec) as [Hord Hnotes].
    split; [done |]. simpl. rewrite Nat.add_0_r.
    inversion Hsound; subst; try (by destruct a).
    + by apply Hnotes.
    + by apply Hnotes.
  - destruct inv as [| breadth depth progress branches | |]; try done.
    simpl in Hexec.
    destruct (branches !! i) as [[| | | q child |] |] eqn:Hi; try done.
    destruct (execAt p a shared child) as [[[shared1 child1] notes1] |] eqn:Hchild;
      simplify_eq/=.
    assert (Hsound' : SoundCall b0 d0 (S n) child).
    { inversion Hsound as [| ? ? ? ? ? Hb Hd Hact Hlen Hall | |]; subst.
      pose proof (Forall_lookup_1 _ _ _ _ Hall Hi) as Hbranch.
      by inversion Hbranch. }
    pose proof (Orderly_child _ _ _ _ _ _ _ Hinv Hi) as Hord.
    destruct (IH _ _ _ _ _ _ Hsound' Hord Hchild) as [Hchild1 Hnotes].
    split; [| by replace (n + S (length p))%nat with (S n + length p)%nat by lia].
    assert (Hkeep : ∀ child',
              ProgressOk breadth depth progress
                (<[i := Recursing q child']> branches)).
    { intros child'.
      eapply ProgressOk_branches; [by apply Orderly_progress | |].
      - by rewrite length_insert.
      - pose proof (doneCount_insert branches i _ (Recursing q child') Hi) as Heq.
        simpl in Heq. lia. }
    destruct child1 as [| | r |].
    + eapply Orderly_insert; [done.. | by constructor | done].
    + eapply Orderly_insert; [done.. | by constructor | done].
    + eapply Orderly_resolve; [done.. | |].
      * constructor. by inversion Hchild1.
      * eapply ProgressOk_branches; [by apply Orderly_progress | |].
        -- by rewrite length_resolve.
        -- pose proof (doneCount_resolve branches i _ (ROwn r) Hi) as Heq.
           simpl in Heq. lia.
    + constructor.
Qed.

Lemma exec_orderly a s s' :
  SoundCall b0 d0 0 (call s) →
  Orderly (call s) →
  NotesOk b0 d0 (sink s) →
  exec a s = Some s' →
  Orderly (call s') ∧ NotesOk b0 d0 (sink s').
Proof.
  intros Hsound Hinv Hsink Hexec. unfold exec in Hexec.
  destruct (execAt a.1 a.2 (shared s) (call s)) as [[[shared1 call1] notes] |]
    eqn:Hat; simplify_eq/=.
  destruct (execAt_orderly _ _ _ _ _ _ _ _ Hsound Hinv Hat) as [Hord Hnotes].
  split; [done |]. apply Forall_app. split; [done |].
  apply Forall_fmap. eapply Forall_impl; [exact Hnotes |]. by intros note.
Qed.

Lemma run_orderly_from answers s s' :
  SoundCall b0 d0 0 (call s) →
  Orderly (call s) →
  NotesOk b0 d0 (sink s) →
  run answers s = Some s' →
  Orderly (call s') ∧ NotesOk b0 d0 (sink s').
Proof.
  revert s. induction answers as [| a answers IH];
    intros s Hsound Hinv Hsink Hrun; simplify_eq/=; [done |].
  destruct (exec a s) as [s1 |] eqn:Hexec; simplify_eq/=.
  destruct (exec_orderly _ _ _ Hsound Hinv Hsink Hexec) as [Hinv1 Hsink1].
  eapply IH; [| done..]. by eapply exec_sound.
Qed.

(** Every state a run reaches from the call of the caller is orderly. *)
Lemma run_orderly accumulators answers s :
  run answers (start accumulators b0 d0) = Some s →
  SoundCall b0 d0 0 (call s) ∧ Orderly (call s) ∧ NotesOk b0 d0 (sink s).
Proof.
  intros Hrun. split; [by eapply run_sound |].
  eapply (run_orderly_from answers (start accumulators b0 d0));
    [apply SoundCall_start | | | done].
  - constructor.
  - constructor.
Qed.

End OrderlyRuns.

(** ** What every state of a run shows of the limiters *)

Section LimiterFacts.

Variable trimPrompt : string → Z → string.
Variable onProgress : bool.

Local Abbreviation execAt := (execAt trimPrompt onProgress).
Local Abbreviation exec := (exec trimPrompt onProgress).
Local Abbreviation run := (run trimPrompt onProgress).

(** X1: every limiter runs all it can.  In every state of a run, in every
    call of the recursion that is running, the branches that hold a permit
    are [min ConcurrencyLimit unresolved] many, where [unresolved] counts the
    branches that have not resolved; the others wait in the queue; and a
    running call has at least one branch that has not resolved. *)
Theorem limiter_runs_all_it_can (accumulators : ResearchResult) (b0 d0 : Z)
    (answers : list (Path * Answer)) (s : State) :
  run answers (start accumulators b0 d0) = Some s →
  ∀ p breadth depth progress branches,
    callAt p (call s) = Some (Running breadth depth progress branches) →
    activeCount branches
    = (ConcurrencyLimit `min` unresolvedCount branches)%nat ∧
    queuedCount branches = (unresolvedCount branches - ConcurrencyLimit)%nat ∧
    (0 < unresolvedCount branches)%nat.
Proof.
  intros Hrun p breadth depth progress branches Hat.
  destruct (run_orderly _ _ _ _ _ _ _ Hrun) as (_ & Hord & _).
  pose proof (Orderly_callAt _ _ _ Hord Hat) as Hcall.
  inversion Hcall as [| ? ? ? ? Hact Hsat Hfifo Hsome _ _ | |]; subst.
  rewrite unresolvedCount_split in *. unfold Saturated in Hsat.
  unfold ConcurrencyLimit in *. lia.
Qed.

(** X2: every limiter starts its branches in the order of the generated
    pairs.  In every state of a run, in every call of the recursion, every
    branch behind a branch that still waits in the queue waits too. *)
Theorem limiter_starts_in_queue_order (accumulators : ResearchResult)
    (b0 d0 : Z) (answers : list (Path * Answer)) (s : State) :
  run answers (start accumulators b0 d0) = Some s →
  ∀ p breadth depth progress branches i j q b,
    callAt p (call s) = Some (Running breadth depth progress branches) →
    (i ≤ j)%nat →
    branches !! i = Some (Queued q) → branches !! j = Some b →
    ∃ q', b = Queued q'.
Proof.
  intros Hrun p breadth depth progress branches i j q b Hat Hij Hi Hj.
  destruct (run_orderly _ _ _ _ _ _ _ Hrun) as (_ & Hord & _).
  pose proof (Orderly_callAt _ _ _ Hord Hat) as Hcall.
  inversion Hcall as [| ? ? ? ? _ _ Hfifo _ _ _ | |]; subst.
  pose proof (Hfifo i j _ _ Hij Hi Hj eq_refl) as Hb.
  destruct b; try done. eauto.
Qed.

(** An answer for a call below [c] is an answer for a call below the call
    that [c] is found in. *)
Lemma execAt_below p q a shared root c r :
  callAt p root = Some c →
  execAt q a shared c = Some r →
  ∃ r', execAt (p ++ q) a shared root = Some r'.
Proof.
  revert root. induction p as [| i p IH]; intros root Hat Hexec;
    simplify_eq/=; [eauto |].
  destruct root as [| breadth depth progress branches | |]; try done.
  destruct (branches !! i) as [[| | | serpQuery child |] |] eqn:Hi; try done.
  destruct (IH _ Hat Hexec) as ([[shared1 child1] notes1] & ->).
  simpl. eauto.
Qed.

(** A pending call awaits an answer, in itself or below. *)
Lemma pending_awaits b0 d0 m :
  ∀ n inv shared,
    SoundCall b0 d0 n inv → Orderly inv → pending inv →
    d0 - Z.of_nat n ≤ Z.of_nat m →
    ∃ p a r, execAt p a shared inv = Some r.
Proof.
  induction m as [| m IH]; intros n inv shared Hsound Hord Hpending Hm.
  all: destruct inv as [breadth depth progress
                       | breadth depth progress branches | |]; try done.
  all: try (by exists [], GenerateErr; eexists).
  all: inversion Hord as [| ? ? ? ? Hact Hsat Hfifo Hsome _ Hall | |]; subst.
  all: inversion Hsound as [| ? ? ? ? ? _ _ _ _ Hbranches | |]; subst.
  all: assert (Hrunning : (0 < activeCount branches)%nat)
         by (rewrite unresolvedCount_split in Hsome; unfold Saturated in Hsat;
             unfold ConcurrencyLimit in *; lia).
  all: destruct (activeCount_pos _ Hrunning) as (i & b & Hi & Hb).
  all: pose proof (Forall_lookup_1 _ _ _ _ Hbranches Hi) as Hbranch.
  all: destruct b as [| q | q result | q child |]; try done.
  all: try (by exists [], (SearchErr i ""); eexists; simpl; rewrite Hi).
  all: try (by exists [], (ExtractErr i ""); eexists; simpl; rewrite Hi).
  all: inversion Hbranch as [| | | ? ? ? Hdepth Hchild Hsound' | |]; subst.
  - lia.
  - pose proof (Orderly_child _ _ _ _ _ _ _ Hord Hi) as Hord'.
    destruct (IH (S n) child shared Hsound' Hord' Hchild ltac:(lia))
      as (p & a & [[shared1 child1] notes1] & Hexec).
    exists (i :: p), a. eexists. simpl. rewrite Hi, Hexec. simpl. reflexivity.
Qed.

(** X3: the recursion never stalls.  In every state of a run, every call
    of the recursion that is pending awaits an answer of the outside world,
    for itself or for a call below it: no limiter keeps every branch in its
    queue, and no call waits for branches that have all resolved. *)
Theorem pending_call_awaits_an_answer (accumulators : ResearchResult)
    (b0 d0 : Z) (answers : list (Path * Answer)) (s : State) :
  run answers (start accumulators b0 d0) = Some s →
  ∀ p inv,
    callAt p (call s) = Some inv → pending inv →
    ∃ q a s', exec (p ++ q, a) s = Some s'.
Proof.
  intros Hrun p inv Hat Hpending.
  destruct (run_orderly _ _ _ _ _ _ _ Hrun) as (Hsound & Hord & _).
  pose proof (SoundCall_callAt _ _ _ _ _ _ Hsound Hat) as Hsound'.
  pose proof (Orderly_callAt _ _ _ Hord Hat) as Hord'.
  destruct (pending_awaits b0 d0 (Z.to_nat (d0 - Z.of_nat (0 + length p)))
              _ inv (shared s) Hsound' Hord' Hpending ltac:(lia))
    as (q & a & r & Hexec).
  destruct (execAt_below _ _ _ _ _ _ _ Hat Hexec)
    as ([[shared1 call1] notes1] & Hroot).
  exists q, a. eexists. unfold exec. simpl. rewrite Hroot. simpl. reflexivity.
Qed.

End LimiterFacts.

(** ** The permits of the whole recursion *)

(** A sum over the branches, each term bounded by [K] for a branch that
    holds a permit and by nothing for another. *)
Lemma list_sum_active (g : Branch → nat) (K : nat) (branches : list Branch) :
  Forall (λ b, (g b ≤ if holdsPermit b then K else 0)%nat) branches →
  (list_sum (g <$> branches) ≤ activeCount branches * K)%nat.
Proof.
  induction 1 as [| b branches Hb Hall IH]; [done |].
  rewrite fmap_cons, activeCount_cons. simpl.
  destruct (holdsPermit b); lia.
Qed.

Lemma concurrency_bound b0 d0 m :
  ∀ n inv,
    SoundCall b0 d0 n inv →
    d0 - Z.of_nat n ≤ Z.of_nat m → (1 ≤ m)%nat →
    (permitsHeld inv ≤ 2 ^ (m + 1) - 2)%nat ∧
    (searchesInFlight inv ≤ 2 ^ m)%nat.
Proof.
  induction m as [| m IH]; intros n inv Hsound Hm Hpos; [lia |].
  destruct inv as [| breadth depth progress branches | |];
    try (cbn [permitsHeld searchesInFlight]; lia).
  inversion Hsound as [| ? ? ? ? ? _ _ Hact _ Hall | |]; subst.
  unfold ConcurrencyLimit in Hact.
  assert (Hone : (1 ≤ 2 ^ m)%nat) by (pose proof (Nat.pow_nonzero 2 m); lia).
  assert (Htwo : (2 ^ S m = 2 * 2 ^ m)%nat) by apply Nat.pow_succ_r'.
  assert (Hfour : (2 ^ (S m + 1) = 4 * 2 ^ m)%nat).
  { rewrite Nat.add_1_r, !Nat.pow_succ_r'. lia. }
  assert (Hbranch :
    Forall (λ b, (branchPermits b ≤ if holdsPermit b then 2 * 2 ^ m - 1 else 0)%nat ∧
                 (branchSearches b ≤ if holdsPermit b then 2 ^ m else 0)%nat)
      branches).
  { eapply Forall_impl; [exact Hall |]. intros b Hb.
    inversion Hb as [| | | ? ? child Hdepth Hchild Hsound' | |]; subst;
      cbn [branchPermits branchSearches holdsPermit]; try lia.
    destruct (IH (S n) child Hsound' ltac:(lia) ltac:(lia)) as [Hp Hs].
    rewrite Nat.add_1_r, Htwo in Hp. lia. }
  cbn [permitsHeld searchesInFlight]. rewrite Hfour, Htwo. split.
  - assert (Hsum : (list_sum (branchPermits <$> branches)
                     ≤ activeCount branches * (2 * 2 ^ m - 1))%nat).
    { apply list_sum_active.
      eapply Forall_impl; [exact Hbranch |]. by intros b [? _]. }
    nia.
  - assert (Hsum : (list_sum (branchSearches <$> branches)
                     ≤ activeCount branches * 2 ^ m)%nat).
    { apply list_sum_active.
      eapply Forall_impl; [exact Hbranch |]. by intros b [_ ?]. }
    nia.
Qed.

Section RecursionFacts.

Variable trimPrompt : string → Z → string.
Variable onProgress : bool.

Local Abbreviation run := (run trimPrompt onProgress).

(** X4: the permits of the whole recursion.  Each call has a limiter of
    its own, and a branch keeps its permit while the call it has made runs;
    so in every state of a run of depth [d0], with [levels = max d0 1], the
    branches that hold a permit in the whole recursion are at most
    [2 + 4 + ... + 2^levels = 2^(levels + 1) - 2], and the calls of the
    search provider in flight are at most [2^levels]. *)
Theorem concurrency_of_recursion (accumulators : ResearchResult) (b0 d0 : Z)
    (answers : list (Path * Answer)) (s : State) :
  run answers (start accumulators b0 d0) = Some s →
  let levels := Z.to_nat (Z.max d0 1) in
  (permitsHeld (call s) ≤ 2 ^ (levels + 1) - 2)%nat ∧
  (searchesInFlight (call s) ≤ 2 ^ levels)%nat.
Proof.
  intros Hrun levels.
  pose proof (run_sound _ _ _ _ _ _ _ Hrun) as Hsound.
  apply (concurrency_bound b0 d0 levels 0 (call s) Hsound); subst levels; lia.
Qed.

(** X7: what a call returns holds no string twice, whatever the arrays
    the caller passed held: in every state of a run, the result of the
    top-level call once it has returned, and the result a branch has got
    from the call it made, have three fields without duplicates. *)
Theorem returned_result_is_distinct (accumulators : ResearchResult)
    (b0 d0 : Z) (answers : list (Path * Answer)) (s : State) :
  run answers (start accumulators b0 d0) = Some s →
  (∀ r, call s = Returned r →
        NoDup (learnings r) ∧ NoDup (visitedUrls r) ∧ NoDup (sourceContents r)) ∧
  (∀ p breadth depth progress branches i r,
     callAt p (call s) = Some (Running breadth depth progress branches) →
     branches !! i = Some (Resolved (ROwn r)) →
     NoDup (learnings r) ∧ NoDup (visitedUrls r) ∧ NoDup (sourceContents r)).
Proof.
  intros Hrun.
  destruct (run_orderly _ _ _ _ _ _ _ Hrun) as (_ & Hord & _).
  split.
  - intros r Hr. rewrite Hr in Hord. by inversion Hord.
  - intros p breadth depth progress branches i r Hat Hi.
    pose proof (Orderly_callAt _ _ _ Hord Hat) as Hcall.
    inversion Hcall as [| ? ? ? ? _ _ _ _ _ Hall | |]; subst.
    pose proof (Forall_lookup_1 _ _ _ _ Hall Hi) as Hbranch.
    by inversion Hbranch.
Qed.

(** X8: what a notification tells of the call that sent it.  In every
    state of a run, a notification of the call at [n] levels below the
    top-level call carries that call's totals: [totalDepth = d0 - n],
    [totalBreadth = ceil(b0 / 2^n)], and [totalQueries] is the number of its
    branches, at most [totalBreadth] when [b0 >= 0]; [completedQueries] lies
    between 0 and [totalQueries]; [currentDepth] is [totalDepth] or the
    depth of the next level, [max (totalDepth - 1) 0]; [currentBreadth] is
    [totalBreadth] or its half, rounded up. *)
Theorem notification_totals (accumulators : ResearchResult) (b0 d0 : Z)
    (answers : list (Path * Answer)) (s : State) :
  run answers (start accumulators b0 d0) = Some s →
  ∀ p note,
    (p, note) ∈ sink s →
    totalDepth note = d0 - Z.of_nat (length p) ∧
    totalBreadth note
    = Qceiling (inject_Z b0 / inject_Z (2 ^ Z.of_nat (length p))) ∧
    0 ≤ completedQueries note ≤ totalQueries note ∧
    (0 ≤ b0 → totalQueries note ≤ totalBreadth note) ∧
    (currentDepth note = totalDepth note ∨
     currentDepth note = Z.max (totalDepth note - 1) 0) ∧
    (currentBreadth note = totalBreadth note ∨
     currentBreadth note = Qceiling (inject_Z (totalBreadth note) / 2)).
Proof.
  intros Hrun p note Hin.
  destruct (run_orderly _ _ _ _ _ _ _ Hrun) as (_ & _ & Hsink).
  unfold NotesOk in Hsink. rewrite Forall_forall in Hsink.
  destruct (Hsink _ Hin) as (Htd & Htb & Hle & Hdone & Hcd & Hcb).
  simpl in *. rewrite Htd, Htb. rewrite <- breadthAt_ceil.
  split_and!; try done; try lia.
  intros Hb0. apply Hle. by apply breadthAt_nonneg.
Qed.

End RecursionFacts.

(** ** What the shared arrays hold *)

Lemma elem_of_compact (xs : list (option string)) (x : string) :
  x ∈ compact xs ↔ x ≠ "" ∧ Some x ∈ xs.
Proof.
  unfold compact. rewrite list_elem_of_omap. split.
  - intros ([s |] & Hin & Hs); [| done].
    case_decide; simplify_eq. done.
  - intros [Hx Hin]. exists (Some x). split; [done |].
    by rewrite decide_False.
Qed.

Lemma elem_of_flat_map {A B} (f : A → list B) (xs : list A) (y : B) :
  y ∈ flat_map f xs ↔ ∃ x, x ∈ xs ∧ y ∈ f x.
Proof.
  rewrite list_elem_of_In, in_flat_map.
  split; intros (x & Hx & Hy); exists x; by rewrite ?list_elem_of_In in *.
Qed.

Lemma branchResponses_lookup branches i b result :
  branches !! i = Some b → result ∈ branchResponses b →
  result ∈ flat_map branchResponses branches.
Proof.
  intros Hi Hb. apply elem_of_flat_map. exists b.
  split; [by eapply list_elem_of_lookup_2 | done].
Qed.

Lemma responses_startQueued room branches :
  flat_map branchResponses (startQueued room branches)
  = flat_map branchResponses branches.
Proof.
  revert room. induction branches as [| b branches IH]; intros room; [done |].
  destruct b; [destruct room |..]; simpl; by rewrite ?IH.
Qed.

Lemma responses_insert branches i b result :
  result ∈ flat_map branchResponses (<[i := b]> branches) →
  result ∈ flat_map branchResponses branches ∨ result ∈ branchResponses b.
Proof.
  intros (x & Hx & Hr)%elem_of_flat_map.
  apply list_elem_of_lookup in Hx as [j Hj].
  destruct (decide (j = i)) as [-> | Hne].
  - destruct (decide (i < length branches)%nat) as [Hlt | Hge].
    + rewrite list_lookup_insert_eq in Hj by done. simplify_eq. by right.
    + rewrite list_insert_ge in Hj by lia. left.
      by eapply branchResponses_lookup.
  - rewrite list_lookup_insert_ne in Hj by congruence. left.
    by eapply branchResponses_lookup.
Qed.

Lemma responses_resolve branches i r result :
  result ∈ flat_map branchResponses (resolve i r branches) →
  result ∈ flat_map branchResponses branches.
Proof.
  unfold resolve, pLimit. rewrite responses_startQueued.
  intros [? | Hr]%responses_insert; [done |]. by apply elem_of_nil in Hr.
Qed.

Lemma responses_joinAll shared inv result :
  result ∈ responsesHeld (joinAll shared inv) → result ∈ responsesHeld inv.
Proof.
  destruct (joinAll_cases shared inv) as [-> | [r ->]]; [done |].
  simpl. by intros ?%elem_of_nil.
Qed.

Section Provenance.

Variable trimPrompt : string → Z → string.
Variable onProgress : bool.

Local Abbreviation execHere := (execHere trimPrompt onProgress).
Local Abbreviation execAt := (execAt trimPrompt onProgress).
Local Abbreviation exec := (exec trimPrompt onProgress).
Local Abbreviation run := (run trimPrompt onProgress).
Local Abbreviation pushAll := (pushAll trimPrompt).

(** What a step does to the shared arrays and to the responses held: an
    extraction pushes what it has made of a response that was held, any
    other answer leaves the arrays as they are; and the only response that
    comes to be held is the one the answer brings. *)
Lemma execHere_pushes a shared inv shared' inv' notes :
  execHere a shared inv = Some (shared', inv', notes) →
  (∀ result, result ∈ responsesHeld inv' →
             result ∈ responsesHeld inv ∨ result ∈ respondedBy a) ∧
  ((shared' = shared ∧ learnedFrom a = []) ∨
   ∃ i object result,
     a = ExtractOk i object ∧ result ∈ responsesHeld inv ∧
     shared' = pushAll shared result object).
Proof.
  intros Hexec.
  destruct a, inv as [breadth depth progress
                     | breadth depth progress branches | |];
    simplify_eq/=.
  - (* the queries arrive *)
    split; [| by left]. intros result Hr%responses_joinAll. simpl in Hr.
    unfold pLimit in Hr. rewrite responses_startQueued in Hr.
    apply elem_of_flat_map in Hr as (b & Hb & Hr).
    apply list_elem_of_fmap in Hb as (q & -> & _). by apply elem_of_nil in Hr.
  - split; [| by left]. by intros result ?%elem_of_nil.
  - (* a search result arrives *)
    destruct (branches !! i) as [[] |] eqn:Hi; simplify_eq/=.
    split; [| by left]. intros r [? | Hr]%responses_insert; [by left | by right].
  - (* a search fails *)
    destruct (branches !! i) as [[] |] eqn:Hi; simplify_eq/=.
    split; [| by left].
    intros r Hr%responses_joinAll. left. by eapply responses_resolve.
  - (* an extraction arrives *)
    destruct (branches !! i) as [[] |] eqn:Hi; simplify_eq/=.
    assert (Hheld : result ∈ flat_map branchResponses branches).
    { eapply branchResponses_lookup; [done |]. by left. }
    case_bool_decide as Hdepth; simplify_eq/=.
    + split; [| right; eauto 6].
      intros r [? | Hr]%responses_insert; [by left |].
      by apply elem_of_nil in Hr.
    + split; [| right; eauto 6].
      intros r Hr%responses_joinAll. left. by eapply responses_resolve.
  - (* an extraction fails *)
    destruct (branches !! i) as [[] |] eqn:Hi; simplify_eq/=.
    split; [| by left].
    intros r Hr%responses_joinAll. left. by eapply responses_resolve.
Qed.

Lemma execAt_pushes p a shared inv shared' inv' notes :
  execAt p a shared inv = Some (shared', inv', notes) →
  (∀ result, result ∈ responsesHeld inv' →
             result ∈ responsesHeld inv ∨ result ∈ respondedBy a) ∧
  ((shared' = shared ∧ learnedFrom a = []) ∨
   ∃ i object result,
     a = ExtractOk i object ∧ result ∈ responsesHeld inv ∧
     shared' = pushAll shared result object).
Proof.
  revert inv inv'. induction p as [| i p IH]; intros inv inv' Hexec.
  - by eapply execHere_pushes.
  - destruct inv as [| breadth depth progress branches | |]; try done.
    simpl in Hexec.
    destruct (branches !! i) as [[| | | q child |] |] eqn:Hi; try done.
    destruct (execAt p a shared child) as [[[shared1 child1] notes1] |] eqn:Hchild;
      [| done].
    simpl in Hexec. injection Hexec as Hs Hinv Hn. subst shared1 notes1.
    destruct (IH _ _ Hchild) as [Hheld Hpush].
    assert (Hup : ∀ result, result ∈ responsesHeld child →
                            result ∈ flat_map branchResponses branches).
    { intros result Hr. by eapply branchResponses_lookup. }
    split.
    + intros result Hr. subst inv'. destruct child1 as [| | r |].
      * apply responses_insert in Hr as [? | Hr]; [by left |].
        destruct (Hheld _ Hr); auto.
      * apply responses_insert in Hr as [? | Hr]; [by left |].
        destruct (Hheld _ Hr); auto.
      * apply responses_joinAll in Hr. left. by eapply responses_resolve.
      * by apply elem_of_nil in Hr.
    + destruct Hpush as [? | (j & object & result & -> & Hr & ->)]; [by left |].
      right. exists j, object, result. auto.
Qed.

End Provenance.

Lemma elem_of_responsesOf answers result :
  result ∈ responsesOf answers ↔ ∃ p i, (p, SearchOk i result) ∈ answers.
Proof.
  unfold responsesOf. rewrite elem_of_flat_map. split.
  - intros ([p a] & Hin & Hr). destruct a; simpl in Hr;
      try (by apply elem_of_nil in Hr).
    apply list_elem_of_singleton in Hr as ->. eauto.
  - intros (p & i & Hin). exists (p, SearchOk i result).
    split; [done |]. simpl. by left.
Qed.

Section Arrays.

Variable trimPrompt : string → Z → string.
Variable onProgress : bool.

Local Abbreviation exec := (exec trimPrompt onProgress).
Local Abbreviation run := (run trimPrompt onProgress).
Local Abbreviation contentsOf := (contentsOf trimPrompt).

(** What a run has pushed, and from which responses. *)
Lemma run_pushes answers :
  ∀ s s',
    run answers s = Some s' →
    (∀ result, result ∈ responsesHeld (call s') →
               result ∈ responsesHeld (call s) ∨ result ∈ responsesOf answers) ∧
    learnings (shared s')
    = learnings (shared s) ++ flat_map (λ a, learnedFrom a.2) answers ∧
    ∃ links contents,
      visitedUrls (shared s') = visitedUrls (shared s) ++ links ∧
      sourceContents (shared s') = sourceContents (shared s) ++ contents ∧
      (∀ link, link ∈ links →
         ∃ result, (result ∈ responsesHeld (call s) ∨ result ∈ responsesOf answers) ∧
                   link ∈ compact (url <$> result)) ∧
      (∀ content, content ∈ contents →
         ∃ result, (result ∈ responsesHeld (call s) ∨ result ∈ responsesOf answers) ∧
                   content ∈ contentsOf result).
Proof.
  induction answers as [| a answers IH]; intros s s' Hrun; simplify_eq/=.
  - split; [auto |]. split; [by rewrite app_nil_r |].
    exists [], []. rewrite !app_nil_r.
    split_and!; try done; by intros ? ?%elem_of_nil.
  - destruct (exec a s) as [s1 |] eqn:Hexec; simplify_eq/=.
    destruct (IH _ _ Hrun) as (Hheld & Hlearn & links & contents & Hlinks
                               & Hcontents & Hfrom & Hfrom').
    unfold exec in Hexec.
    destruct (execAt trimPrompt onProgress a.1 a.2 (shared s) (call s))
      as [[[shared1 call1] notes] |] eqn:Hat; simplify_eq/=.
    destruct (execAt_pushes _ _ _ _ _ _ _ _ _ Hat) as [Hheld1 Hpush].
    assert (Hback : ∀ result,
              result ∈ responsesHeld call1 ∨ result ∈ responsesOf answers →
              result ∈ responsesHeld (call s)
              ∨ result ∈ respondedBy a.2 ++ responsesOf answers).
    { intros result [Hr | Hr].
      - destruct (Hheld1 _ Hr); [by left | right].
        apply elem_of_app. by left.
      - right. apply elem_of_app. by right. }
    split; [by auto |].
    destruct Hpush as [[-> Hnone] | (i & object & result & Ha & Hr & ->)].
    + rewrite Hnone. split; [done |].
      exists links, contents. split_and!; try done.
      * intros link Hl. destruct (Hfrom _ Hl) as (result & Hr & Hin).
        exists result. split; [by apply Hback | done].
      * intros content Hc. destruct (Hfrom' _ Hc) as (result & Hr & Hin).
        exists result. split; [by apply Hback | done].
    + rewrite Ha in Hback |- *. simpl in *.
      split; [by rewrite Hlearn, <- app_assoc |].
      exists (compact (url <$> result) ++ links),
             (contentsOf result ++ contents).
      rewrite Hlinks, Hcontents, <- !app_assoc. split_and!; try done.
      * intros link [Hl | Hl]%elem_of_app.
        -- exists result. split; [by left | done].
        -- destruct (Hfrom _ Hl) as (result' & Hr' & Hin).
           exists result'. split; [by apply Hback | done].
      * intros content [Hc | Hc]%elem_of_app.
        -- exists result. split; [by left | done].
        -- destruct (Hfrom' _ Hc) as (result' & Hr' & Hin).
           exists result'. split; [by apply Hback | done].
Qed.

(** X5: the arrays the caller passes are only ever appended to.  Along
    any run, from any state, each of the three shared arrays is a prefix of
    what it is later; and the learnings are those of the start followed by
    the learnings of every successful extraction, in the order the
    extractions arrived, whatever the branch and the level they were for. *)
Theorem accumulators_append_only (answers : list (Path * Answer))
    (s s' : State) :
  run answers s = Some s' →
  learnings (shared s) `prefix_of` learnings (shared s') ∧
  visitedUrls (shared s) `prefix_of` visitedUrls (shared s') ∧
  sourceContents (shared s) `prefix_of` sourceContents (shared s') ∧
  learnings (shared s')
  = learnings (shared s) ++ flat_map (λ a, learnedFrom a.2) answers.
Proof.
  intros Hrun.
  destruct (run_pushes _ _ _ Hrun)
    as (_ & Hlearn & links & contents & Hlinks & Hcontents & _).
  split_and!; [by eexists | by eexists | by eexists | done].
Qed.

(** X6: nothing is made up.  In every state of a run, every string of the
    shared arrays was passed by the caller or comes from an answer of the
    run: a learning from a successful extraction, a URL from the [url] of an
    item of a search response, never empty, a source content from the
    trimmed non-empty [markdown] of such an item; and so does every string of
    the result, once the call has returned. *)
Theorem nothing_made_up (accumulators : ResearchResult) (b0 d0 : Z)
    (answers : list (Path * Answer)) (s : State) :
  run answers (start accumulators b0 d0) = Some s →
  let traced (r : ResearchResult) :=
    (∀ learning, learning ∈ learnings r →
       learning ∈ learnings accumulators ∨ learningFound answers learning) ∧
    (∀ link, link ∈ visitedUrls r →
       link ∈ visitedUrls accumulators ∨ urlFound answers link) ∧
    (∀ content, content ∈ sourceContents r →
       content ∈ sourceContents accumulators
       ∨ contentFound trimPrompt answers content) in
  traced (shared s) ∧ ∀ r, call s = Returned r → traced r.
Proof.
  intros Hrun traced.
  assert (Hshared : traced (shared s)).
  { destruct (run_pushes _ _ _ Hrun)
      as (_ & Hlearn & links & contents & Hlinks & Hcontents & Hfrom & Hfrom').
    simpl in *. split_and!.
    - intros learning Hin. rewrite Hlearn in Hin.
      apply elem_of_app in Hin as [? | Hin]; [by left | right].
      apply elem_of_flat_map in Hin as ([p a] & Ha & Hin).
      destruct a; simpl in Hin; try (by apply elem_of_nil in Hin).
      by exists p, i, object.
    - intros link Hin. rewrite Hlinks in Hin.
      apply elem_of_app in Hin as [? | Hin]; [by left | right].
      destruct (Hfrom _ Hin) as (result & [Hr | Hr] & Hl);
        [by apply elem_of_nil in Hr |].
      apply elem_of_responsesOf in Hr as (p & i & Hr).
      apply elem_of_compact in Hl as [Hne Hl].
      apply list_elem_of_fmap in Hl as (item & Hurl & Hitem).
      split; [done |]. by exists p, i, result, item.
    - intros content Hin. rewrite Hcontents in Hin.
      apply elem_of_app in Hin as [? | Hin]; [by left | right].
      destruct (Hfrom' _ Hin) as (result & [Hr | Hr] & Hc);
        [by apply elem_of_nil in Hr |].
      apply elem_of_responsesOf in Hr as (p & i & Hr).
      apply list_elem_of_fmap in Hc as (text & -> & Htext).
      apply elem_of_compact in Htext as [Hne Htext].
      apply list_elem_of_fmap in Htext as (item & Hmd & Hitem).
      by exists p, i, result, item, text. }
  split; [done |]. intros r Hr.
  destruct (run_within _ _ _ _ _ Hrun) as [_ Hkeep].
  specialize (Hkeep ltac:(constructor)). rewrite Hr in Hkeep.
  inversion Hkeep as [| | ? (Hl & Hu & Hc) |]; subst.
  destruct Hshared as (Hl' & Hu' & Hc').
  split_and!; eauto.
Qed.

End Arrays.

(** ** A negative breadth *)

Lemma slice0_negative {A} (n : Z) (xs : list A) :
  n < 0 → slice0 n xs = take (length xs - Z.to_nat (- n)) xs.
Proof.
  intros Hn. unfold slice0.
  destruct (Z.ltb_spec n 0) as [_ | ?]; [| lia].
  f_equal. lia.
Qed.

Section NegativeBreadth.

Variable trimPrompt : string → Z → string.
Variable onProgress : bool.

Local Abbreviation exec := (exec trimPrompt onProgress).

(** X9: a negative breadth is not read as zero.  [slice(0, breadth)] counts
    a negative [breadth] from the end: a call entered with [breadth = -k]
    works on all the generated pairs but the last [k], and reports their
    number as [totalQueries]; it returns the empty result at once only when
    at most [k] pairs were generated. *)
Theorem negative_breadth_drops_last (accumulators : ResearchResult)
    (b0 d0 : Z) (queries : list SerpQuery) :
  b0 < 0 →
  let kept := take (length queries - Z.to_nat (- b0)) queries in
  ∃ s',
    exec ([], GenerateOk queries) (start accumulators b0 d0) = Some s' ∧
    shared s' = accumulators ∧
    match kept with
    | [] => call s' = Returned emptyResult
    | _ :: _ =>
        ∃ progress branches,
          call s' = Running b0 d0 progress branches ∧
          serpQueryOf <$> branches = Some <$> kept ∧
          totalQueries progress = Z.of_nat (length kept)
    end.
Proof.
  intros Hb0 kept. unfold exec, start. cbn [fst snd shared call sink execAt].
  unfold deepResearch. cbn [execHere]. rewrite slice0_negative by done.
  fold kept. cbn [reportProgress mbind option_bind].
  eexists. split; [reflexivity |]. cbn [shared call]. split; [done |].
  destruct kept as [| q qs] eqn:Hkept.
  - reflexivity.
  - rewrite (joinAll_unsettled _ _ _ _ _ (Searching q) 0%nat);
      [| by rewrite pLimit_queued_cons | done].
    do 2 eexists. split; [reflexivity |].
    split; [apply serpQueryOf_pLimit_queued | done].
Qed.

End NegativeBreadth.

(** ** The order of a merged result *)

(** Adding the strings of [xs] to a set that holds [s]: the new ones come
    behind [s], in the order [[...new Set(xs)]] has them. *)
Lemma fold_Set_add_filter xs s :
  fold_left Set_add xs s = s ++ filter (λ y, y ∉ s) (uniq xs).
Proof.
  revert s. induction xs as [| x xs IH]; intros s.
  - simpl. by rewrite app_nil_r.
  - unfold uniq. cbn [fold_left]. rewrite (IH (Set_add [] x)), (IH (Set_add s x)).
    unfold Set_add. rewrite (decide_False (P := x ∈ [])) by apply not_elem_of_nil.
    cbn [app]. case_decide as Hx.
    + rewrite filter_cons_False by (intros Hn; by apply Hn).
      rewrite list_filter_filter. f_equal. apply list_filter_iff.
      intros y. rewrite list_elem_of_singleton. split; [| tauto].
      intros Hy. split; [done |]. by intros ->.
    + rewrite filter_cons_True by done.
      rewrite list_filter_filter, <- app_assoc. cbn [app]. do 2 f_equal.
      apply list_filter_iff. intros y.
      rewrite elem_of_app, !list_elem_of_singleton. tauto.
Qed.

Lemma uniq_cons x xs : uniq (x :: xs) = x :: filter (λ y, y ≠ x) (uniq xs).
Proof.
  unfold uniq at 1. cbn [fold_left]. rewrite fold_Set_add_filter.
  unfold Set_add. rewrite decide_False by apply not_elem_of_nil.
  cbn [app]. f_equal. apply list_filter_iff. intros y.
  by rewrite list_elem_of_singleton.
Qed.

Lemma uniq_app_filter xs ys :
  uniq (xs ++ ys) = uniq xs ++ filter (λ y, y ∉ xs) (uniq ys).
Proof.
  rewrite uniq_app, fold_Set_add_filter. f_equal.
  apply list_filter_iff. intros y. by rewrite elem_of_uniq.
Qed.

Lemma filter_all (P : string → Prop) `{∀ x, Decision (P x)} xs :
  Forall P xs → filter P xs = xs.
Proof.
  induction 1 as [| x xs Hx Hxs IH]; [done |].
  by rewrite filter_cons_True, IH.
Qed.

Lemma uniq_NoDup xs : NoDup xs → uniq xs = xs.
Proof.
  induction 1 as [| x xs Hx Hxs IH]; [done |].
  rewrite uniq_cons, IH. f_equal.
  apply filter_all, Forall_forall. by intros y Hy ->.
Qed.

Lemma uniq_idemp xs : uniq (uniq xs) = uniq xs.
Proof. apply uniq_NoDup, NoDup_uniq. Qed.

(** X10: the order of a merged result.  Each field of the merge holds the
    strings of the first branch in their order of first occurrence, then
    those of the other branches that the first did not have, merged the same
    way; merging one result that holds no string twice gives it back; and
    merging a merge again changes nothing, so the result of a recursive call
    goes through the merge of its caller unchanged when it is the only
    one. *)
Theorem merge_keeps_first_occurrences :
  (∀ r results,
     learnings (merge (r :: results))
     = uniq (learnings r)
       ++ filter (λ x, x ∉ learnings r) (learnings (merge results)) ∧
     visitedUrls (merge (r :: results))
     = uniq (visitedUrls r)
       ++ filter (λ x, x ∉ visitedUrls r) (visitedUrls (merge results)) ∧
     sourceContents (merge (r :: results))
     = uniq (sourceContents r)
       ++ filter (λ x, x ∉ sourceContents r) (sourceContents (merge results))) ∧
  (∀ x xs, uniq (x :: xs) = x :: filter (λ y, y ≠ x) (uniq xs)) ∧
  (∀ r, NoDup (learnings r) → NoDup (visitedUrls r) →
        NoDup (sourceContents r) → merge [r] = r) ∧
  (∀ results, merge [merge results] = merge results).
Proof.
  split_and!.
  - intros r results. unfold merge. cbn [flat_map learnings visitedUrls
                                         sourceContents].
    by rewrite !uniq_app_filter.
  - apply uniq_cons.
  - intros [ls us cs] Hl Hu Hc. unfold merge. simpl in *.
    by rewrite !app_nil_r, !uniq_NoDup.
  - intros results. unfold merge. simpl.
    by rewrite !app_nil_r, !uniq_idemp.
Qed.

(** ** The result is an initial segment of the shared arrays *)

Lemma uniq_prefix xs ys : xs `prefix_of` ys → uniq xs `prefix_of` uniq ys.
Proof. intros [k ->]. rewrite uniq_app_filter. by eexists. Qed.

(** A prefix of a list without duplicates has none. *)
Lemma NoDup_prefix (xs ys : list string) :
  xs `prefix_of` ys → NoDup ys → NoDup xs.
Proof. intros [k ->] Hnodup. by apply NoDup_app in Hnodup as [? _]. Qed.

Lemma filter_none (P : string → Prop) `{∀ x, Decision (P x)} xs :
  Forall (λ x, ¬ P x) xs → filter P xs = [].
Proof.
  induction 1 as [| x xs Hx Hxs IH]; [done |].
  by rewrite filter_cons_False.
Qed.

(** Lists that are, without their duplicates, prefixes of one list: so is
    their concatenation without its duplicates. *)
Lemma uniq_flat_map_prefix (f : ResearchResult → list string) U results :
  NoDup U →
  Forall (λ r, uniq (f r) `prefix_of` U) results →
  uniq (flat_map f results) `prefix_of` U.
Proof.
  intros HU Hall. induction Hall as [| r results Hr Hall IH].
  - apply prefix_nil.
  - cbn [flat_map]. rewrite uniq_app_filter.
    destruct (prefix_weak_total _ _ _ Hr IH) as [[k Hk] | [k Hk]].
    + pose proof (NoDup_prefix _ _ IH HU) as Hnodup.
      rewrite Hk in Hnodup |- *. apply NoDup_app in Hnodup as (_ & Hdisjoint & _).
      rewrite filter_app, filter_none, filter_all.
      * simpl. by rewrite <- Hk.
      * apply Forall_forall. intros y Hy Hin.
        apply (Hdisjoint y); [by apply elem_of_uniq | done].
      * apply Forall_forall. intros y Hy Hnot. apply Hnot.
        by apply elem_of_uniq.
    + rewrite filter_none; [by rewrite app_nil_r |].
      apply Forall_forall. intros y Hy Hnot. apply Hnot.
      apply elem_of_uniq. rewrite Hk. apply elem_of_app. by left.
Qed.

Lemma segmentOf_empty bound : segmentOf bound emptyResult.
Proof. split_and!; apply prefix_nil. Qed.

(** The merge of results that are the arrays themselves, as they were at
    some time, or initial segments of them. *)
Lemma segmentOf_merge bound results :
  Forall (λ r, grownInto r bound ∨ segmentOf bound r) results →
  segmentOf bound (merge results).
Proof.
  intros Hall.
  assert (Hfield : ∀ f : ResearchResult → list string,
             (∀ r, grownInto r bound → f r `prefix_of` f bound) →
             (∀ r, segmentOf bound r → f r `prefix_of` uniq (f bound)) →
             uniq (flat_map f results) `prefix_of` uniq (f bound)).
  { intros f Hgrown Hsegment.
    apply uniq_flat_map_prefix; [apply NoDup_uniq |].
    eapply Forall_impl; [exact Hall |]. intros r [Hr | Hr]; simpl.
    - by apply uniq_prefix, Hgrown.
    - rewrite uniq_NoDup; [by apply Hsegment |].
      eapply NoDup_prefix; [by apply Hsegment | apply NoDup_uniq]. }
  split_and!; apply Hfield;
    first [ by intros r (? & ? & ?) ].
Qed.

Lemma grownInto_refl store : grownInto store store.
Proof. by split_and!. Qed.

Lemma grownInto_trans s1 s2 s3 :
  grownInto s1 s2 → grownInto s2 s3 → grownInto s1 s3.
Proof. intros (? & ? & ?) (? & ? & ?). split_and!; by etrans. Qed.

Lemma Segments_joinAll bound store inv :
  grownInto store bound → Segments bound inv →
  Segments bound (joinAll store inv).
Proof.
  intros Hstore Hinv. destruct inv as [| breadth depth progress branches | |];
    try done.
  unfold joinAll. destruct (mapM settled branches) as [results |] eqn:Hsettled;
    [| done].
  constructor. apply segmentOf_merge, Forall_fmap, Forall_forall. intros r Hr.
  apply mapM_Some in Hsettled.
  apply list_elem_of_lookup in Hr as [i Hi].
  destruct (Forall2_lookup_r _ _ _ _ _ Hsettled Hi) as (b & Hb & Hbr).
  inversion Hinv as [| ? ? ? ? Hall | |]; subst.
  pose proof (Forall_lookup_1 _ _ _ _ Hall Hb) as Hbranch.
  destruct b; simplify_eq/=. inversion Hbranch; subst; simpl; auto.
Qed.

Lemma Segments_resolve bound store breadth depth progress branches i r :
  grownInto store bound →
  Segments bound (Running breadth depth progress branches) →
  SegmentsBranch bound (Resolved r) →
  Segments bound
    (joinAll store (Running breadth depth progress (resolve i r branches))).
Proof.
  intros Hstore Hinv Hr. apply Segments_joinAll; [done |].
  inversion Hinv as [| ? ? ? ? Hall | |]; subst.
  constructor. apply Forall_resolve; [| done..].
  intros q _. constructor.
Qed.

Section SegmentFacts.

Variable trimPrompt : string → Z → string.
Variable onProgress : bool.

Local Abbreviation execAt := (execAt trimPrompt onProgress).
Local Abbreviation exec := (exec trimPrompt onProgress).
Local Abbreviation run := (run trimPrompt onProgress).

Lemma execAt_segments bound p a store root store' root' notes :
  execAt p a store root = Some (store', root', notes) →
  grownInto store' bound →
  Segments bound root →
  Segments bound root'.
Proof.
  revert root root'. induction p as [| i p IH]; intros root root' Hexec Hbound Hroot.
  - destruct a, root as [breadth depth progress
                        | breadth depth progress branches | |];
      simplify_eq/=; try done; answer_cases.
    + apply Segments_joinAll; [done |]. constructor.
      apply Forall_startQueued; [intros; constructor |].
      apply Forall_fmap, Forall_true. intros; constructor.
    + constructor.
    + inversion Hroot; subst. constructor.
      apply Forall_insert; [done | constructor].
    + apply Segments_resolve; [done.. | constructor; apply segmentOf_empty].
    + inversion Hroot; subst. constructor.
      apply Forall_insert; [done |]. constructor. unfold deepResearch.
      constructor.
    + apply Segments_resolve;
        [done | inversion Hroot; subst; by constructor | constructor].
    + apply Segments_resolve; [done.. | constructor; apply segmentOf_empty].
  - destruct root as [| breadth depth progress branches | |]; try done.
    simpl in Hexec.
    destruct (branches !! i) as [[| | | q child |] |] eqn:Hi; try done.
    destruct (execAt p a store child) as [[[store1 child'] notes1] |] eqn:Hchild;
      [| done].
    simpl in Hexec. injection Hexec as Hs Hroot' Hn. subst store1 notes1.
    assert (Hin : Segments bound child).
    { inversion Hroot as [| ? ? ? ? Hall | |]; subst.
      pose proof (Forall_lookup_1 _ _ _ _ Hall Hi) as Hbranch.
      by inversion Hbranch. }
    pose proof (IH _ _ Hchild Hbound Hin) as Hchild'.
    subst root'. destruct child'.
    + inversion Hroot; subst. constructor.
      apply Forall_insert; [done | by constructor].
    + inversion Hroot; subst. constructor.
      apply Forall_insert; [done | by constructor].
    + apply Segments_resolve; [done.. |]. constructor. by inversion Hchild'.
    + constructor.
Qed.

Lemma run_grownInto answers s s' :
  run answers s = Some s' → grownInto (shared s) (shared s').
Proof.
  intros Hrun.
  destruct (run_pushes _ _ _ _ _ Hrun)
    as (_ & Hlearn & links & contents & Hlinks & Hcontents & _).
  split_and!; by eexists.
Qed.

Lemma run_segments answers s s' :
  run answers s = Some s' →
  Segments (shared s') (call s) → Segments (shared s') (call s').
Proof.
  revert s. induction answers as [| a answers IH]; intros s Hrun; simplify_eq/=;
    [done |].
  destruct (exec a s) as [s1 |] eqn:Hexec; simplify_eq/=.
  pose proof (run_grownInto _ _ _ Hrun) as Hgrow.
  intros Hstart. apply (IH _ Hrun).
  unfold exec in Hexec.
  destruct (execAt a.1 a.2 (shared s) (call s)) as [[[store1 call1] notes] |]
    eqn:Hat; simplify_eq/=.
  by eapply execAt_segments.
Qed.

(** X17: what a call returns is an initial segment of the shared arrays.
    In every state of a run in which the top-level call has returned, each
    field of the result is a prefix of the same shared array without its
    duplicates: the result holds the strings in the order they were first
    pushed, up to some point, and may lack those pushed after it, as those
    of a branch whose extraction succeeded but whose recursive call then
    found nothing. *)
Theorem result_is_initial_segment (accumulators : ResearchResult) (b0 d0 : Z)
    (answers : list (Path * Answer)) (s : State) (r : ResearchResult) :
  run answers (start accumulators b0 d0) = Some s →
  call s = Returned r →
  learnings r `prefix_of` uniq (learnings (shared s)) ∧
  visitedUrls r `prefix_of` uniq (visitedUrls (shared s)) ∧
  sourceContents r `prefix_of` uniq (sourceContents (shared s)).
Proof.
  intros Hrun Hr.
  pose proof (run_segments _ _ _ Hrun ltac:(constructor)) as Hseg.
  rewrite Hr in Hseg. by inversion Hseg.
Qed.

End SegmentFacts.

(** X17, witness: in [lateLearning] the learning of the second branch is in
    the shared arrays and not in the result. *)
Lemma result_is_initial_segment_witness :
  run keepText true lateLearning (start emptyResult 2 2)
  = Some lateLearningState ∧
  call lateLearningState
  = Returned {| learnings := ["learning of a"; "learning of c"];
                visitedUrls := ["https://a"; "https://c"];
                sourceContents := ["text of a"; "text of c"] |} ∧
  learnings (shared lateLearningState)
  = ["learning of a"; "learning of c"; "learning of b"] ∧
  ["learning of a"; "learning of c"]
  `prefix_of` uniq (learnings (shared lateLearningState)).
Proof.
  assert (Hrun : run keepText true lateLearning (start emptyResult 2 2)
                 = Some lateLearningState) by (by vm_compute).
  split; [exact Hrun |]. split; [reflexivity |]. split; [reflexivity |].
  exact (proj1 (result_is_initial_segment keepText true emptyResult 2 2
                  lateLearning lateLearningState _ Hrun eq_refl)).
Defined.

(** ** The answers a call can take *)

Section Cost.

Variable deeper : nat.
Implicit Types (b : Branch) (branches : list Branch).

Let cost := branchAnswersLeft deeper.

Lemma answersLeft_insert branches i b b' :
  branches !! i = Some b →
  (list_sum (cost <$> <[i := b']> branches) + cost b
   = list_sum (cost <$> branches) + cost b')%nat.
Proof.
  revert i. induction branches as [| x branches IH]; intros [| i] Hi;
    simplify_eq/=; [lia |].
  specialize (IH _ Hi). lia.
Qed.

Lemma answersLeft_startQueued room branches :
  list_sum (cost <$> startQueued room branches) = list_sum (cost <$> branches).
Proof.
  unfold cost. revert room.
  induction branches as [| b branches IH]; intros room; [done |].
  destruct b; [destruct room |..]; cbn [startQueued]; rewrite ?fmap_cons;
    simpl; rewrite ?IH; done.
Qed.

Lemma answersLeft_resolve branches i b r :
  branches !! i = Some b →
  (list_sum (cost <$> resolve i r branches) + cost b
   = list_sum (cost <$> branches))%nat.
Proof.
  intros Hi. unfold resolve, pLimit. rewrite answersLeft_startQueued.
  pose proof (answersLeft_insert branches i b (Resolved r) Hi) as Heq.
  unfold cost in *. simpl in Heq. lia.
Qed.

Lemma answersLeft_queued (qs : list SerpQuery) :
  list_sum (cost <$> (Queued <$> qs)) = (length qs * (2 + deeper))%nat.
Proof.
  unfold cost. induction qs as [| q qs IH]; [done |].
  rewrite !fmap_cons, length_cons. simpl list_sum.
  change (list_sum (branchAnswersLeft deeper (Queued q)
                    :: (branchAnswersLeft deeper <$> (Queued <$> qs))))
    with (2 + deeper
          + list_sum (branchAnswersLeft deeper <$> (Queued <$> qs)))%nat.
  rewrite IH. lia.
Qed.

End Cost.

Lemma answersLeft_joinAll shared inv :
  (answersLeft (joinAll shared inv) ≤ answersLeft inv)%nat.
Proof.
  destruct (joinAll_cases shared inv) as [-> | [r ->]]; [done | simpl; lia].
Qed.

Lemma answersBound_unfold below breadth :
  answersBound below breadth
  = (1 + Z.to_nat breadth * (2 + deeperBound below breadth))%nat.
Proof. by destruct below. Qed.

Lemma deeperBound_levels breadth depth :
  depth - 1 > 0 →
  deeperBound (levelsBelow depth) breadth
  = answersBound (levelsBelow (depth - 1)) (newBreadth breadth).
Proof.
  intros Hdepth. unfold levelsBelow.
  replace (Z.to_nat (depth - 1)) with (S (Z.to_nat (depth - 1 - 1))) by lia.
  done.
Qed.

Lemma deeperBound_last breadth depth :
  ¬ depth - 1 > 0 → deeperBound (levelsBelow depth) breadth = 0%nat.
Proof.
  intros Hdepth. unfold levelsBelow.
  by replace (Z.to_nat (depth - 1)) with 0%nat by lia.
Qed.

Section Termination.

Variable trimPrompt : string → Z → string.
Variable onProgress : bool.
Variables b0 d0 : Z.

Local Abbreviation execHere := (execHere trimPrompt onProgress).
Local Abbreviation execAt := (execAt trimPrompt onProgress).
Local Abbreviation exec := (exec trimPrompt onProgress).
Local Abbreviation run := (run trimPrompt onProgress).

(** Every answer uses up one of the answers its call can take. *)
Lemma execHere_answersLeft a shared inv shared' inv' notes :
  (∀ breadth, breadthOf inv = Some breadth → 0 ≤ breadth) →
  execHere a shared inv = Some (shared', inv', notes) →
  (answersLeft inv' + 1 ≤ answersLeft inv)%nat.
Proof.
  intros Hpos Hexec.
  destruct a, inv as [breadth depth progress
                     | breadth depth progress branches | |];
    simplify_eq/=.
  - (* the queries arrive *)
    etrans; [apply Nat.add_le_mono_r, answersLeft_joinAll |].
    cbn [answersLeft]. unfold pLimit.
    rewrite answersLeft_startQueued, answersLeft_queued, answersBound_unfold.
    pose proof (length_slice0 breadth queries (Hpos _ eq_refl)). nia.
  - rewrite answersBound_unfold. lia.
  - (* a search result arrives *)
    destruct (branches !! i) as [[] |] eqn:Hi; simplify_eq/=.
    pose proof (answersLeft_insert
                  (deeperBound (levelsBelow depth) breadth) branches i _
                  (Processing serpQuery result) Hi) as Heq.
    simpl in Heq. lia.
  - (* a search fails *)
    destruct (branches !! i) as [[] |] eqn:Hi; simplify_eq/=.
    etrans; [apply Nat.add_le_mono_r, answersLeft_joinAll |].
    pose proof (answersLeft_resolve
                  (deeperBound (levelsBelow depth) breadth) branches i _
                  (ROwn emptyResult) Hi) as Heq.
    simpl in *. lia.
  - (* an extraction arrives *)
    destruct (branches !! i) as [[] |] eqn:Hi; simplify_eq/=.
    case_bool_decide as Hdepth; simplify_eq/=.
    + pose proof (answersLeft_insert
                    (deeperBound (levelsBelow depth) breadth) branches i _
                    (Recursing serpQuery
                       (deepResearch (newBreadth breadth) (depth - 1))) Hi)
        as Heq.
      cbn [branchAnswersLeft] in Heq. unfold deepResearch in Heq at 2.
      cbn [answersLeft] in Heq. rewrite deeperBound_levels in Heq by done.
      rewrite deeperBound_levels by done. lia.
    + etrans; [apply Nat.add_le_mono_r, answersLeft_joinAll |].
      pose proof (answersLeft_resolve
                    (deeperBound (levelsBelow depth) breadth) branches i _
                    RShared Hi) as Heq.
      simpl in *. lia.
  - (* an extraction fails *)
    destruct (branches !! i) as [[] |] eqn:Hi; simplify_eq/=.
    etrans; [apply Nat.add_le_mono_r, answersLeft_joinAll |].
    pose proof (answersLeft_resolve
                  (deeperBound (levelsBelow depth) breadth) branches i _
                  (ROwn emptyResult) Hi) as Heq.
    simpl in *. lia.
Qed.

Lemma execAt_answersLeft p n a shared inv shared' inv' notes :
  0 ≤ b0 →
  SoundCall b0 d0 n inv →
  execAt p a shared inv = Some (shared', inv', notes) →
  (answersLeft inv' + 1 ≤ answersLeft inv)%nat.
Proof.
  intros Hb0. revert n shared inv shared' inv' notes.
  induction p as [| i p IH]; intros n shared inv shared' inv' notes Hsound Hexec.
  - eapply execHere_answersLeft; [| done].
    intros breadth Hb. inversion Hsound; subst; simplify_eq/=;
      by apply breadthAt_nonneg.
  - destruct inv as [| breadth depth progress branches | |]; try done.
    simpl in Hexec.
    destruct (branches !! i) as [[| | | q child |] |] eqn:Hi; try done.
    destruct (execAt p a shared child) as [[[shared1 child1] notes1] |] eqn:Hchild;
      simplify_eq/=.
    assert (Hsound' : SoundCall b0 d0 (S n) child).
    { inversion Hsound as [| ? ? ? ? ? Hb Hd Hact Hlen Hall | |]; subst.
      pose proof (Forall_lookup_1 _ _ _ _ Hall Hi) as Hbranch.
      by inversion Hbranch. }
    specialize (IH _ _ _ _ _ _ Hsound' Hchild).
    pose proof (answersLeft_resolve
                  (deeperBound (levelsBelow depth) breadth) branches i _
                  RShared Hi) as Hsum.
    cbn [branchAnswersLeft] in Hsum.
    destruct child1 as [| | r |].
    + pose proof (answersLeft_insert
                    (deeperBound (levelsBelow depth) breadth) branches i _
                    (Recursing q (Generating breadth0 depth0 progress0)) Hi)
        as Heq.
      cbn [answersLeft branchAnswersLeft] in *. lia.
    + pose proof (answersLeft_insert
                    (deeperBound (levelsBelow depth) breadth) branches i _
                    (Recursing q (Running breadth0 depth0 progress0 branches0))
                    Hi) as Heq.
      cbn [answersLeft branchAnswersLeft] in *. lia.
    + etrans; [apply Nat.add_le_mono_r, answersLeft_joinAll |].
      pose proof (answersLeft_resolve
                    (deeperBound (levelsBelow depth) breadth) branches i _
                    (ROwn r) Hi) as Heq.
      cbn [answersLeft branchAnswersLeft] in *. lia.
    + cbn [answersLeft] in *. lia.
Qed.

Lemma run_answersLeft answers s s' :
  0 ≤ b0 →
  SoundCall b0 d0 0 (call s) →
  run answers s = Some s' →
  (length answers + answersLeft (call s') ≤ answersLeft (call s))%nat.
Proof.
  intros Hb0. revert s. induction answers as [| a answers IH];
    intros s Hsound Hrun; simplify_eq/=; [done |].
  destruct (exec a s) as [s1 |] eqn:Hexec; simplify_eq/=.
  pose proof (exec_sound _ _ _ _ _ _ _ Hsound Hexec) as Hsound1.
  specialize (IH _ Hsound1 Hrun).
  unfold exec in Hexec.
  destruct (execAt a.1 a.2 (shared s) (call s)) as [[[shared1 call1] notes] |]
    eqn:Hat; simplify_eq/=.
  pose proof (execAt_answersLeft _ _ _ _ _ _ _ _ Hb0 Hsound Hat). lia.
Qed.

(** X18: a call comes to an end.  A call entered with a breadth
    [b0 >= 0] takes a bounded number of answers: one for the queries of each
    call of the recursion and, for each branch, one for its search and one
    for its extraction.  With [answersBound below b = 1 + b * (2 +
    answersBound (below - 1) (ceil (b / 2)))], and [1 + 2 * b] at the last
    level, every run is at most [answersBound (levelsBelow d0) b0] answers
    long, less the answers the call can still take in the state it is in;
    once that many have arrived the call is over. *)
Theorem external_calls_are_bounded (accumulators : ResearchResult)
    (answers : list (Path * Answer)) (s : State) :
  0 ≤ b0 →
  run answers (start accumulators b0 d0) = Some s →
  (length answers + answersLeft (call s)
   ≤ answersBound (levelsBelow d0) b0)%nat ∧
  (answersBound (levelsBelow d0) b0 ≤ length answers → ¬ pending (call s))%nat.
Proof.
  intros Hb0 Hrun.
  pose proof (run_answersLeft answers (start accumulators b0 d0) s Hb0
                (SoundCall_start b0 d0) Hrun) as Hle.
  cbn [start call answersLeft] in Hle. unfold deepResearch in Hle.
  cbn [answersLeft] in Hle. split; [done |].
  intros Hall Hpending.
  destruct (run_orderly _ _ _ _ _ _ _ Hrun) as (Hsound & Hord & _).
  destruct (pending_awaits trimPrompt onProgress b0 d0
              (Z.to_nat (d0 - Z.of_nat 0)) 0 (call s) (shared s)
              Hsound Hord Hpending ltac:(lia))
    as (p & a & [[shared1 call1] notes1] & Hexec).
  pose proof (execAt_answersLeft _ _ _ _ _ _ _ _ Hb0 Hsound Hexec). lia.
Qed.

End Termination.

(** ** The model calls of the report assembler *)

Section AssemblerCalls.

Variable trimPrompt : string → Z → string.
Variable generateReport : string → option string.
Variable generateFactCheck : string → option FactCheckResult.

Local Abbreviation reportPrompt := (reportPrompt trimPrompt).
Local Abbreviation factCheckPrompt := (factCheckPrompt trimPrompt).
Local Abbreviation writeFinalReport :=
  (writeFinalReport trimPrompt generateReport generateFactCheck).

(** X11: the model calls of [writeFinalReport], and what a failure costs.
    The report call comes first and is always made; the fact-check call is
    made after it exactly when the report call answered and there is source
    content, and its prompt is built from the report just generated.  A
    report is returned exactly when the report call answered and the
    fact check, where it is made, answered too: a fact check that rejects
    loses the report that had been generated. *)
Theorem writeFinalReport_calls_and_failures (prompt : string)
    (learnings visitedUrls : list string)
    (sourceContents : option (list string)) :
  let ask := reportPrompt prompt learnings in
  let sources := default [] sourceContents in
  let out := writeFinalReport prompt learnings visitedUrls sourceContents in
  out.1 = ReportCall ask ::
          match generateReport ask with
          | Some body =>
              if decide (sources = []) then []
              else [FactCheckCall (factCheckPrompt body sources)]
          | None => []
          end ∧
  (is_Some out.2 ↔
   ∃ body, generateReport ask = Some body ∧
           (sources = [] ∨
            is_Some (generateFactCheck (factCheckPrompt body sources)))) ∧
  (∀ body, generateReport ask = Some body → sources ≠ [] →
           generateFactCheck (factCheckPrompt body sources) = None →
           out.2 = None).
Proof.
  intros ask sources out. subst out. unfold writeFinalReport, factCheck.
  fold ask. fold sources.
  destruct (generateReport ask) as [body |] eqn:Hbody.
  - case_bool_decide as Hlen.
    + apply length_zero_iff_nil in Hlen. rewrite decide_True by done. simpl.
      split_and!; [done | | done].
      split; [intros _; eauto | by eauto].
    + assert (sources ≠ []) as Hne by (by intros ->).
      rewrite decide_False by done. simpl. split_and!; [done | |].
      * destruct (generateFactCheck _) as [checked |] eqn:Hchecked; simpl.
        -- split; [intros _; exists body; eauto | by eauto].
        -- split; [by intros [? ?] |].
           intros (body' & [= <-] & [? | [? ?]]); [done |].
           fold sources in Hchecked. congruence.
      * intros body' [= <-] _ Hnone. fold sources. by rewrite Hnone.
  - simpl. split_and!; [done | | done].
    split; [by intros [? ?] | by intros (? & ? & _)].
Qed.

End AssemblerCalls.

(** ** The command-line program *)

Lemma researchCalls_app (es1 es2 : list Cli.Event) :
  Cli.researchCalls (es1 ++ es2) = Cli.researchCalls es1 ++ Cli.researchCalls es2.
Proof. apply omap_app. Qed.

Lemma researchCalls_asked (questions : list string) :
  Cli.researchCalls (Cli.Asked <$> questions) = [].
Proof. induction questions as [| q questions IH]; [done | by simpl]. Qed.

Lemma isFactCheck_asked (questions : list string) :
  Forall (λ e, Cli.isFactCheck e = false) (Cli.Asked <$> questions).
Proof. apply Forall_fmap, Forall_true. by intros q. Qed.

(** The questions of one research: the lines read are the answers, and
    nothing else changes. *)
Lemma askAll_spec questions w o w' :
  Cli.askAll questions w = (o, w') →
  Cli.outputMd w' = Cli.outputMd w ∧
  Cli.previousReport w' = Cli.previousReport w ∧
  ∃ typed k,
    Cli.stdin w = typed ++ Cli.stdin w' ∧
    Cli.events w'
    = Cli.events w ++ (Cli.Asked <$> (Cli.questionPrompt <$> take k questions)) ∧
    match o with
    | Cli.Done answers =>
        answers = typed ∧ length typed = length questions ∧
        k = length questions
    | Cli.Rejected => False
    | Cli.Waiting => True
    end.
Proof.
  revert w o w'. induction questions as [| q questions IH]; intros w o w' Hask.
  - injection Hask as <- <-. split_and!; try done.
    exists [], 0%nat. by rewrite app_nil_r.
  - cbn [Cli.askAll] in Hask. unfold mbind, Cli.M_bind in Hask.
    unfold Cli.askQuestion in Hask at 1.
    destruct (Cli.stdin w) as [| line rest] eqn:Hin.
    + injection Hask as <- <-. simpl. split_and!; try done.
      by exists [], 1%nat.
    + cbn [fst snd] in Hask.
      match type of Hask with
      | context [Cli.askAll questions ?w1] =>
          destruct (Cli.askAll questions w1) as [o1 w1'] eqn:Hrest
      end.
      destruct (IH _ _ _ Hrest) as (Hfile & Hprev & typed & k & Htyped & Hev & Ho).
      simpl in *.
      destruct o1 as [answers | |]; [| done |].
      * injection Hask as <- <-. destruct Ho as (-> & Hlen & ->).
        split_and!; try done.
        exists (line :: typed), (S (length questions)).
        rewrite Htyped, Hev, <- app_assoc. simpl.
        rewrite !firstn_all in *. split_and!; try done. lia.
      * injection Hask as <- <-. split_and!; try done.
        exists (line :: typed), (S k).
        rewrite Htyped, Hev, <- app_assoc. done.
Qed.

Section CliFacts.

Variable trimPrompt : string → Z → string.
Variable parseInt : string → option Z.
Variable toLowerCase : string → string.
Variable generateFeedback : list Cli.Event → string → option (list string).
Variable outside : list Cli.Event → string → Z → Z → list (Path * Answer).
Variable generateReport : list Cli.Event → string → option string.
Variable generateFactCheck : list Cli.Event → string → option FactCheckResult.

Local Abbreviation research := (Cli.research trimPrompt outside).
Local Abbreviation finalReport :=
  (Cli.finalReport trimPrompt generateReport generateFactCheck).
Local Abbreviation performResearch :=
  (Cli.performResearch trimPrompt generateFeedback outside generateReport
     generateFactCheck).
Local Abbreviation followUps :=
  (Cli.followUps trimPrompt toLowerCase generateFeedback outside generateReport
     generateFactCheck).
Local Abbreviation initialResearch :=
  (Cli.initialResearch trimPrompt parseInt generateFeedback outside
     generateReport generateFactCheck).

(** The [deepResearch] call of one research: what it resolves with is the
    result of a top-level call that has returned. *)
Lemma research_spec query breadth depth w o w' :
  research query breadth depth w = (o, w') →
  Cli.stdin w' = Cli.stdin w ∧
  Cli.outputMd w' = Cli.outputMd w ∧
  Cli.previousReport w' = Cli.previousReport w ∧
  Cli.events w' = Cli.events w ++ [Cli.ResearchCall query breadth depth] ∧
  ∀ result, o = Cli.Done result → distinct result.
Proof.
  unfold Cli.research. intros Hcall.
  destruct (run trimPrompt true (outside (Cli.events w) query breadth depth)
              (start emptyResult breadth depth)) as [s |] eqn:Hrun.
  - destruct (run_orderly _ _ _ _ _ _ _ Hrun) as (_ & Hord & _).
    destruct (call s) as [| | r |] eqn:Hs; injection Hcall as <- <-;
      split_and!; try done.
    intros result [= <-]. by inversion Hord.
  - injection Hcall as <- <-. split_and!; done.
Qed.

(** The [writeFinalReport] call of one research: only the report model is
    called, and the report carries the fixed fact-check section. *)
Lemma finalReport_spec prompt learnings visitedUrls w o w' :
  finalReport prompt learnings visitedUrls w = (o, w') →
  Cli.stdin w' = Cli.stdin w ∧
  Cli.outputMd w' = Cli.outputMd w ∧
  Cli.previousReport w' = Cli.previousReport w ∧
  Cli.events w'
  = Cli.events w ++ [Cli.Called (ReportCall (reportPrompt trimPrompt prompt learnings))] ∧
  match o with
  | Cli.Done report =>
      ∃ body,
        generateReport (Cli.events w) (reportPrompt trimPrompt prompt learnings)
        = Some body ∧
        report = body +:+ factCheckSection factCheckFallback +:+
                 urlsSection visitedUrls
  | Cli.Rejected => True
  | Cli.Waiting => False
  end.
Proof.
  unfold Cli.finalReport, writeFinalReport. intros Hcall.
  destruct (generateReport (Cli.events w) _) as [body |] eqn:Hbody;
    simpl in Hcall; injection Hcall as <- <-; split_and!; try done.
  by exists body.
Qed.

(** One research, whatever its outcome. *)
Lemma performResearch_spec query breadth depth isFollowUp w o w' :
  performResearch query breadth depth isFollowUp w = (o, w') →
  let context := Cli.contextualQuery (Cli.previousReport w) query isFollowUp in
  ∃ typed asked rest,
    Cli.stdin w = typed ++ Cli.stdin w' ∧
    Cli.events w' = Cli.events w ++ asked ++ rest ∧
    (if isFollowUp then typed = [] ∧ asked = []
     else ∃ prompts, asked = Cli.FeedbackCall query :: (Cli.Asked <$> prompts)) ∧
    match o with
    | Cli.Done report =>
        ∃ result body,
          distinct result ∧
          rest = [Cli.ResearchCall context breadth depth;
                  Cli.Called (ReportCall (reportPrompt trimPrompt context
                                            (learnings result)))] ∧
          report = body +:+ factCheckSection factCheckFallback +:+
                   urlsSection (visitedUrls result) ∧
          (if isFollowUp
           then Cli.outputMd w'
                = Some (default "" (Cli.outputMd w)
                        +:+ Cli.followUpSection query report) ∧
                Cli.previousReport w'
                = Cli.previousReport w +:+ Cli.followUpSection query report
           else Cli.outputMd w' = Some report ∧
                Cli.previousReport w' = report ∧
                ∃ questions,
                  generateFeedback (Cli.events w) query = Some questions ∧
                  length typed = length questions ∧
                  asked = Cli.FeedbackCall query
                          :: (Cli.Asked <$> (Cli.questionPrompt <$> questions)))
    | _ =>
        Cli.outputMd w' = Cli.outputMd w ∧
        Cli.previousReport w' = Cli.previousReport w ∧
        (rest = [] ∨
         rest = [Cli.ResearchCall context breadth depth] ∨
         ∃ learned,
           rest = [Cli.ResearchCall context breadth depth;
                   Cli.Called (ReportCall (reportPrompt trimPrompt context learned))])
    end.
Proof.
  intros Hrun context. unfold Cli.performResearch in Hrun.
  unfold mbind, Cli.M_bind, mret, Cli.M_ret, Cli.getPreviousReport in Hrun.
  fold context in Hrun.
  destruct isFollowUp; cbn [negb] in Hrun.
  - (* a follow-up *)
    destruct (research context breadth depth w) as [o1 w1] eqn:H1.
    apply research_spec in H1 as (Hin1 & Hf1 & Hp1 & He1 & Hd1).
    exists [], []. simpl.
    destruct o1 as [result | |].
    2, 3: injection Hrun as <- <-; eexists; split_and!; eauto.
    destruct (finalReport context (learnings result) (visitedUrls result) w1)
      as [o2 w2] eqn:H2.
    apply finalReport_spec in H2 as (Hin2 & Hf2 & Hp2 & He2 & Ho2).
    destruct o2 as [report | |]; [| | done].
    + simpl in Hrun. injection Hrun as <- <-. simpl.
      destruct Ho2 as (body & Hbody & ->).
      eexists. split_and!; [congruence | | done | done |].
      * rewrite He2, He1, <- app_assoc. reflexivity.
      * exists result, body. rewrite Hf2, Hf1, Hp2, Hp1.
        split_and!; auto.
    + injection Hrun as <- <-.
      eexists. split_and!; [congruence | | done | done | congruence.. |].
      * rewrite He2, He1, <- app_assoc. reflexivity.
      * right. right. eauto.
  - (* the initial research *)
    unfold Cli.feedback in Hrun at 1.
    destruct (generateFeedback (Cli.events w) context) as [questions |]
      eqn:Hfeedback; cbn [fst snd] in Hrun.
    2: { injection Hrun as <- <-. exists [], [Cli.FeedbackCall query], [].
         simpl. split_and!; try done; [by exists [] | by left]. }
    match type of Hrun with
    | context [Cli.askAll questions ?w1] =>
        destruct (Cli.askAll questions w1) as [o0 w0] eqn:H0
    end.
    apply askAll_spec in H0
      as (Hf0 & Hp0 & typed & k & Htyped & He0 & Ho0). simpl in *.
    destruct o0 as [answers | |]; [| done |].
    2: { injection Hrun as <- <-. exists typed. do 2 eexists.
         split_and!; [done | | by eauto | congruence.. | by left].
         rewrite He0, <- app_assoc. simpl. by rewrite app_nil_r. }
    destruct Ho0 as (-> & Hlen & ->). rewrite firstn_all in He0.
    destruct (research context breadth depth w0) as [o1 w1] eqn:H1.
    apply research_spec in H1 as (Hin1 & Hf1 & Hp1 & He1 & Hd1).
    exists typed, (Cli.FeedbackCall query
                   :: (Cli.Asked <$> (Cli.questionPrompt <$> questions))).
    destruct o1 as [result | |].
    2, 3: injection Hrun as <- <-; eexists;
          (split_and!; [congruence | | by eauto | congruence.. | by auto]);
          rewrite He1, He0, <- !app_assoc; reflexivity.
    destruct (finalReport context (learnings result) (visitedUrls result) w1)
      as [o2 w2] eqn:H2.
    apply finalReport_spec in H2 as (Hin2 & Hf2 & Hp2 & He2 & Ho2).
    destruct o2 as [report | |]; [| | done].
    + simpl in Hrun. injection Hrun as <- <-. simpl.
      destruct Ho2 as (body & Hbody & ->).
      eexists. split; [congruence |]. split; [| split; [by eauto |]].
      * rewrite He2, He1, He0, <- !app_assoc. reflexivity.
      * exists result, body. split_and!; auto. by exists questions.
    + injection Hrun as <- <-. eexists.
      split; [congruence |]. split; [| split; [by eauto |]].
      * rewrite He2, He1, He0, <- !app_assoc. reflexivity.
      * split_and!; [congruence.. |]. right. right. eauto.
Qed.

(** The calls of one research. *)
Lemma performResearch_events query breadth depth isFollowUp w o w' :
  performResearch query breadth depth isFollowUp w = (o, w') →
  let context := Cli.contextualQuery (Cli.previousReport w) query isFollowUp in
  ∃ new,
    Cli.events w' = Cli.events w ++ new ∧
    Forall (λ e, Cli.isFactCheck e = false) new ∧
    (Cli.researchCalls new = [] ∨
     Cli.researchCalls new = [(context, breadth, depth)]) ∧
    (∀ report, o = Cli.Done report →
               Cli.researchCalls new = [(context, breadth, depth)]).
Proof.
  intros Hrun context.
  destruct (performResearch_spec _ _ _ _ _ _ _ Hrun)
    as (typed & asked & rest & _ & Hev & Hasked & Ho).
  fold context in Ho.
  assert (Hquiet : Cli.researchCalls asked = [] ∧
                   Forall (λ e, Cli.isFactCheck e = false) asked).
  { destruct isFollowUp.
    - destruct Hasked as [_ ->]. by split.
    - destruct Hasked as [prompts ->]. simpl. split.
      + apply researchCalls_asked.
      + constructor; [done | apply isFactCheck_asked]. }
  destruct Hquiet as [Hnone Hquiet].
  exists (asked ++ rest). rewrite researchCalls_app, Hnone. simpl.
  split; [done |]. rewrite Forall_app.
  destruct o as [report | |].
  - destruct Ho as (result & body & _ & -> & _).
    split_and!; [done | by repeat constructor | by right | done].
  - destruct Ho as (_ & _ & [-> | [-> | [learned ->]]]);
      (split_and!; [done | by repeat constructor | by auto | done]).
  - destruct Ho as (_ & _ & [-> | [-> | [learned ->]]]);
      (split_and!; [done | by repeat constructor | by auto | done]).
Qed.

Lemma orDefault_nonzero n d : d ≠ 0 → Cli.orDefault n d ≠ 0.
Proof. intros Hd. unfold Cli.orDefault. destruct n; [case_decide |]; done. Qed.

(** The follow-up loop. *)
Lemma followUps_spec fuel breadth depth :
  ∀ w o w',
    followUps fuel breadth depth w = Some (o, w') →
    ∃ typed new,
      Cli.stdin w = typed ++ Cli.stdin w' ∧
      Cli.events w' = Cli.events w ++ new ∧
      Forall (λ e, Cli.isFactCheck e = false) new ∧
      Forall (λ c, c.1.2 = Z.min breadth 2 ∧ c.2 = Z.min depth 2)
        (Cli.researchCalls new) ∧
      (Cli.outputMd w = Some (Cli.previousReport w) →
       Cli.outputMd w' = Some (Cli.previousReport w')) ∧
      (o = Cli.Done tt → ∃ line, line ∈ typed ∧ toLowerCase line = "exit").
Proof.
  induction fuel as [| fuel IH]; intros w o w' Hloop; [done |].
  cbn [Cli.followUps] in Hloop. unfold Cli.askQuestion in Hloop.
  destruct (Cli.stdin w) as [| line lines] eqn:Hin.
  - injection Hloop as <- <-. exists []. eexists. simpl.
    split_and!; [done | done | by repeat constructor | done..].
  - case_decide as Hexit.
    + injection Hloop as <- <-. exists [line]. eexists. simpl.
      split_and!; [done | done | by repeat constructor | done | done |].
      intros _. exists line. split; [by left | done].
    + match type of Hloop with
      | context [Cli.performResearch _ _ _ _ _ ?q ?b ?d true ?w0] =>
          destruct (performResearch q b d true w0) as [o1 w1] eqn:Hone
      end.
      pose proof (performResearch_spec _ _ _ _ _ _ _ Hone)
        as (typed1 & asked1 & rest1 & Hin1 & _ & [-> _] & Ho1).
      pose proof (performResearch_events _ _ _ _ _ _ _ Hone)
        as (new1 & Hev1 & Hquiet1 & Hcalls1 & _).
      simpl in *.
      assert (Hargs : Forall (λ c : string * Z * Z,
                                c.1.2 = Z.min breadth 2 ∧ c.2 = Z.min depth 2)
                        (Cli.researchCalls new1)).
      { destruct Hcalls1 as [-> | ->]; by repeat constructor. }
      destruct o1 as [report | |].
      * destruct (IH _ _ _ Hloop)
          as (typed & new & Htyped & Hev & Hquiet & Hcalls & Hmirror & Hdone).
        destruct Ho1 as (result & body & _ & _ & _ & Hfile & Hprev).
        exists (line :: typed), ([Cli.Asked Cli.followUpPrompt] ++ new1 ++ new).
        split_and!.
        -- by rewrite Hin1, Htyped.
        -- by rewrite Hev, Hev1, <- !app_assoc.
        -- rewrite !Forall_app. split_and!; [by repeat constructor | done..].
        -- rewrite !researchCalls_app, !Forall_app. simpl.
           split_and!; [by constructor | done..].
        -- intros Hstart. apply Hmirror. rewrite Hfile, Hprev, Hstart. done.
        -- intros Ho. destruct (Hdone Ho) as (l & Hl & Hexit').
           exists l. split; [by right | done].
      * injection Hloop as <- <-. destruct Ho1 as (Hfile & Hprev & _).
        exists [line], ([Cli.Asked Cli.followUpPrompt] ++ new1). split_and!.
        -- by rewrite Hin1.
        -- by rewrite Hev1, <- !app_assoc.
        -- rewrite !Forall_app. split_and!; [by repeat constructor | done].
        -- rewrite !researchCalls_app. simpl. done.
        -- intros Hstart. by rewrite Hfile, Hprev.
        -- done.
      * injection Hloop as <- <-. destruct Ho1 as (Hfile & Hprev & _).
        exists [line], ([Cli.Asked Cli.followUpPrompt] ++ new1). split_and!.
        -- by rewrite Hin1.
        -- by rewrite Hev1, <- !app_assoc.
        -- rewrite !Forall_app. split_and!; [by repeat constructor | done].
        -- rewrite !researchCalls_app. simpl. done.
        -- intros Hstart. by rewrite Hfile, Hprev.
        -- done.
Qed.

(** The three questions and the initial research. *)
Lemma initialResearch_spec w o w' :
  initialResearch w = (o, w') →
  ∃ typed new,
    Cli.stdin w = typed ++ Cli.stdin w' ∧
    Cli.events w' = Cli.events w ++ new ∧
    Forall (λ e, Cli.isFactCheck e = false) new ∧
    match o with
    | Cli.Done (breadth, depth) =>
        Cli.outputMd w' = Some (Cli.previousReport w') ∧
        ∃ query breadthText depthText answers,
          typed = query :: breadthText :: depthText :: answers ∧
          breadth = Cli.orDefault (parseInt breadthText) 4 ∧
          depth = Cli.orDefault (parseInt depthText) 2 ∧
          Cli.researchCalls new = [(query, breadth, depth)]
    | _ =>
        Cli.outputMd w' = Cli.outputMd w ∧
        Cli.previousReport w' = Cli.previousReport w ∧
        (Cli.researchCalls new = [] ∨
         ∃ query breadthText depthText answers,
           typed = query :: breadthText :: depthText :: answers ∧
           Cli.researchCalls new
           = [(query, Cli.orDefault (parseInt breadthText) 4,
               Cli.orDefault (parseInt depthText) 2)])
    end.
Proof.
  intros Hrun. unfold Cli.initialResearch in Hrun.
  unfold mbind, Cli.M_bind, mret, Cli.M_ret, Cli.askQuestion in Hrun.
  destruct (Cli.stdin w) as [| query lines] eqn:Hin;
    cbn [Cli.stdin Cli.outputMd Cli.previousReport Cli.events] in Hrun.
  { injection Hrun as <- <-. exists []. eexists. simpl.
    split_and!; [done | done | by repeat constructor | done | done | by left]. }
  destruct lines as [| breadthText lines];
    cbn [Cli.stdin Cli.outputMd Cli.previousReport Cli.events] in Hrun.
  { injection Hrun as <- <-. exists [query]. eexists. simpl.
    split_and!; [done | by rewrite <- app_assoc | by repeat constructor
                | done | done | by left]. }
  destruct lines as [| depthText lines];
    cbn [Cli.stdin Cli.outputMd Cli.previousReport Cli.events] in Hrun.
  { injection Hrun as <- <-. exists [query; breadthText]. eexists. simpl.
    split_and!; [done | by rewrite <- !app_assoc | by repeat constructor
                | done | done | by left]. }
  match type of Hrun with
  | context [Cli.performResearch _ _ _ _ _ ?q ?b ?d false ?w0] =>
      destruct (performResearch q b d false w0) as [o1 w1] eqn:Hone
  end.
  pose proof (performResearch_spec _ _ _ _ _ _ _ Hone)
    as (typed1 & asked1 & rest1 & Hin1 & _ & _ & Ho1).
  pose proof (performResearch_events _ _ _ _ _ _ _ Hone)
    as (new1 & Hev1 & Hquiet1 & Hcalls1 & Hdone1).
  simpl in *.
  exists (query :: breadthText :: depthText :: typed1),
         ([Cli.Asked "What would you like to research? ";
           Cli.Asked "Enter research breadth (recommended 2-10, default 4): ";
           Cli.Asked "Enter research depth (recommended 1-5, default 2): "]
          ++ new1).
  assert (Hevents : Cli.events w1
            = Cli.events w
              ++ [Cli.Asked "What would you like to research? ";
                  Cli.Asked "Enter research breadth (recommended 2-10, default 4): ";
                  Cli.Asked "Enter research depth (recommended 1-5, default 2): "]
              ++ new1).
  { by rewrite Hev1, <- !app_assoc. }
  assert (Hquiet : Forall (λ e, Cli.isFactCheck e = false)
                     ([Cli.Asked "What would you like to research? ";
                       Cli.Asked "Enter research breadth (recommended 2-10, default 4): ";
                       Cli.Asked "Enter research depth (recommended 1-5, default 2): "]
                      ++ new1)).
  { rewrite Forall_app. split; [by repeat constructor | done]. }
  rewrite researchCalls_app. simpl.
  destruct o1 as [report | |]; injection Hrun as <- <-.
  - destruct Ho1 as (result & body & _ & _ & _ & Hfile & Hprev & _).
    split_and!; [by rewrite Hin1 | done | done | congruence |].
    exists query, breadthText, depthText, typed1.
    split_and!; try done. by eapply Hdone1.
  - destruct Ho1 as (Hfile & Hprev & _).
    split_and!; [by rewrite Hin1 | done | done | done | done |].
    destruct Hcalls1 as [-> | ->]; [by left | right].
    by exists query, breadthText, depthText, typed1.
  - destruct Ho1 as (Hfile & Hprev & _).
    split_and!; [by rewrite Hin1 | done | done | done | done |].
    destruct Hcalls1 as [-> | ->]; [by left | right].
    by exists query, breadthText, depthText, typed1.
Qed.

(** One turn of the loop reads one line, so [fuel] beyond the lines left
    is enough, and more changes nothing. *)
Lemma followUps_enough fuel breadth depth :
  ∀ w, (length (Cli.stdin w) < fuel)%nat →
       is_Some (followUps fuel breadth depth w).
Proof.
  induction fuel as [| fuel IH]; intros w Hlen; [lia |].
  cbn [Cli.followUps]. unfold Cli.askQuestion.
  destruct (Cli.stdin w) as [| line lines] eqn:Hin; [by eexists |].
  case_decide as Hexit; [by eexists |].
  match goal with
  | |- context [Cli.performResearch _ _ _ _ _ ?q ?b ?d true ?w0] =>
      destruct (performResearch q b d true w0) as [o1 w1] eqn:Hone
  end.
  pose proof (performResearch_spec _ _ _ _ _ _ _ Hone)
    as (typed1 & asked1 & rest1 & Hin1 & _ & [-> _] & _).
  simpl in *. destruct o1; [| by eexists..].
  apply IH. rewrite <- Hin1. lia.
Qed.

Lemma followUps_more fuel breadth depth :
  ∀ fuel' w r,
    followUps fuel breadth depth w = Some r → (fuel ≤ fuel')%nat →
    followUps fuel' breadth depth w = Some r.
Proof.
  induction fuel as [| fuel IH]; intros fuel' w r Hloop Hle; [done |].
  destruct fuel' as [| fuel']; [lia |].
  cbn [Cli.followUps] in *.
  destruct (Cli.askQuestion Cli.followUpPrompt w) as [[line | |] w0]; try done.
  case_decide; [done |].
  destruct (performResearch line (breadth `min` 2) (depth `min` 2) true w0)
    as [[report | |] w1]; try done.
  apply IH; [done | lia].
Qed.

Local Abbreviation program :=
  (Cli.run trimPrompt parseInt toLowerCase generateFeedback outside
     generateReport generateFactCheck).

(** The whole program: the initial research, then the loop. *)
Lemma program_spec fuel w o w' :
  program fuel w = Some (o, w') →
  ∃ typed new,
    Cli.stdin w = typed ++ Cli.stdin w' ∧
    Cli.events w' = Cli.events w ++ new ∧
    Forall (λ e, Cli.isFactCheck e = false) new ∧
    ((Cli.outputMd w' = Cli.outputMd w ∧
      Cli.previousReport w' = Cli.previousReport w) ∨
     Cli.outputMd w' = Some (Cli.previousReport w')) ∧
    (Cli.researchCalls new = [] ∨
     ∃ query breadthText depthText rest followUpCalls,
       typed = query :: breadthText :: depthText :: rest ∧
       Cli.researchCalls new
       = (query, Cli.orDefault (parseInt breadthText) 4,
          Cli.orDefault (parseInt depthText) 2) :: followUpCalls ∧
       Forall (λ c, c.1.2 = Z.min (Cli.orDefault (parseInt breadthText) 4) 2 ∧
                    c.2 = Z.min (Cli.orDefault (parseInt depthText) 2) 2)
         followUpCalls) ∧
    (o = Cli.Done tt → ∃ line, line ∈ typed ∧ toLowerCase line = "exit").
Proof.
  unfold Cli.run. intros Hrun.
  destruct (initialResearch w) as [o0 w0] eqn:Hfirst.
  apply initialResearch_spec in Hfirst
    as (typed0 & new0 & Hin0 & Hev0 & Hquiet0 & Ho0).
  destruct o0 as [[breadth depth] | |].
  - destruct Ho0 as (Hmirror0 & query & breadthText & depthText & answers
                     & -> & -> & -> & Hcalls0).
    apply followUps_spec in Hrun
      as (typed & new & Hin & Hev & Hquiet & Hcalls & Hmirror & Hdone).
    exists ((query :: breadthText :: depthText :: answers) ++ typed),
           (new0 ++ new).
    split_and!.
    + by rewrite Hin0, Hin, <- app_assoc.
    + by rewrite Hev, Hev0, <- app_assoc.
    + by apply Forall_app.
    + right. by apply Hmirror.
    + right. exists query, breadthText, depthText, (answers ++ typed).
      eexists. rewrite researchCalls_app, Hcalls0. simpl. done.
    + intros Ho. destruct (Hdone Ho) as (line & Hline & Hexit).
      exists line. split; [| done]. apply elem_of_app. by right.
  - injection Hrun as <- <-. destruct Ho0 as (Hfile & Hprev & Hcalls0).
    exists typed0, new0. split_and!; try done; [by left |].
    destruct Hcalls0 as [? | (query & breadthText & depthText & answers & -> & ->)];
      [by left | right].
    exists query, breadthText, depthText, answers, []. by split_and!.
  - injection Hrun as <- <-. destruct Ho0 as (Hfile & Hprev & Hcalls0).
    exists typed0, new0. split_and!; try done; [by left |].
    destruct Hcalls0 as [? | (query & breadthText & depthText & answers & -> & ->)];
      [by left | right].
    exists query, breadthText, depthText, answers, []. by split_and!.
Qed.

(** What the research call of [performResearch] resolves with: the result
    of the top-level call of [deepResearch] on the answers of the outside
    world. *)
Lemma research_result query breadth depth w result w' :
  research query breadth depth w = (Cli.Done result, w') →
  ∃ s,
    run trimPrompt true (outside (Cli.events w) query breadth depth)
      (start emptyResult breadth depth) = Some s ∧
    call s = Returned result.
Proof.
  unfold Cli.research. intros Hcall.
  destruct (run trimPrompt true (outside (Cli.events w) query breadth depth)
              (start emptyResult breadth depth)) as [s |] eqn:Hrun; [| done].
  exists s. split; [done |].
  destruct (call s) as [| | r |] eqn:Hs; by simplify_eq.
Qed.

(** The report of one research: the answer of the report model to the
    prompt made of the learnings that [deepResearch] returned, the fixed
    fact-check section, and the URLs that [deepResearch] returned. *)
Lemma performResearch_report query breadth depth isFollowUp w report w' :
  performResearch query breadth depth isFollowUp w = (Cli.Done report, w') →
  let context := Cli.contextualQuery (Cli.previousReport w) query isFollowUp in
  ∃ asked s result body,
    (if isFollowUp then asked = []
     else ∃ prompts, asked = Cli.FeedbackCall query :: (Cli.Asked <$> prompts)) ∧
    run trimPrompt true
      (outside (Cli.events w ++ asked) context breadth depth)
      (start emptyResult breadth depth) = Some s ∧
    call s = Returned result ∧
    generateReport
      (Cli.events w ++ asked ++ [Cli.ResearchCall context breadth depth])
      (reportPrompt trimPrompt context (learnings result)) = Some body ∧
    report = body +:+ factCheckSection factCheckFallback +:+
             urlsSection (visitedUrls result) ∧
    NoDup (visitedUrls result).
Proof.
  intros Hrun context. unfold Cli.performResearch in Hrun.
  unfold mbind, Cli.M_bind, mret, Cli.M_ret, Cli.getPreviousReport in Hrun.
  fold context in Hrun.
  destruct isFollowUp; cbn [negb] in Hrun.
  - (* a follow-up *)
    destruct (research context breadth depth w) as [o1 w1] eqn:H1.
    destruct o1 as [result | |]; [| done..].
    pose proof (research_spec _ _ _ _ _ _ H1) as (_ & _ & _ & He1 & Hd1).
    apply research_result in H1 as (s & Hs & Hcall).
    destruct (finalReport context (learnings result) (visitedUrls result) w1)
      as [o2 w2] eqn:H2.
    apply finalReport_spec in H2 as (_ & _ & _ & _ & Ho2).
    destruct o2 as [report2 | |]; [| done..].
    simpl in Hrun. injection Hrun as <- _.
    destruct Ho2 as (body & Hbody & ->). rewrite He1 in Hbody.
    exists [], s, result, body. rewrite app_nil_r.
    destruct (Hd1 _ eq_refl) as (_ & Hlinks & _). by split_and!.
  - (* the initial research *)
    unfold Cli.feedback in Hrun at 1.
    destruct (generateFeedback (Cli.events w) context) as [questions |]
      eqn:Hfeedback; cbn [fst snd] in Hrun; [| done].
    match type of Hrun with
    | context [Cli.askAll questions ?w1] =>
        destruct (Cli.askAll questions w1) as [o0 w0] eqn:H0
    end.
    apply askAll_spec in H0
      as (Hf0 & Hp0 & typed & k & Htyped & He0 & Ho0). simpl in *.
    destruct o0 as [answers | |]; [| done..].
    destruct Ho0 as (-> & Hlen & ->). rewrite firstn_all in He0.
    destruct (research context breadth depth w0) as [o1 w1] eqn:H1.
    destruct o1 as [result | |]; [| done..].
    pose proof (research_spec _ _ _ _ _ _ H1) as (_ & _ & _ & He1 & Hd1).
    apply research_result in H1 as (s & Hs & Hcall).
    destruct (finalReport context (learnings result) (visitedUrls result) w1)
      as [o2 w2] eqn:H2.
    apply finalReport_spec in H2 as (_ & _ & _ & _ & Ho2).
    destruct o2 as [report2 | |]; [| done..].
    simpl in Hrun. injection Hrun as <- _.
    destruct Ho2 as (body & Hbody & ->).
    rewrite He1, He0, <- !app_assoc in Hbody. rewrite He0, <- app_assoc in Hs.
    exists (Cli.FeedbackCall query
            :: (Cli.Asked <$> (Cli.questionPrompt <$> questions))),
           s, result, body.
    destruct (Hd1 _ eq_refl) as (_ & Hlinks & _).
    split_and!; [by eauto | done..].
Qed.

(** X12: the reports of the command-line program are never fact-checked.
    [performResearch] gives [writeFinalReport] no source contents, so
    whatever the research found: no research and no session of the program
    calls the fact-check model, and every report it makes is the answer of
    the report model to the prompt made of the learnings that [deepResearch]
    returned, followed by the fixed section that says the report could not
    be fact-checked and that no factual issue was found, and by the URLs
    that [deepResearch] returned, each listed once. *)
Theorem cli_reports_are_not_fact_checked (query : string) (breadth depth : Z)
    (isFollowUp : bool) (w : Cli.World) (o : Cli.Outcome string)
    (w' : Cli.World) :
  performResearch query breadth depth isFollowUp w = (o, w') →
  (∀ e, e ∈ Cli.events w' → Cli.isFactCheck e = true → e ∈ Cli.events w) ∧
  (∀ report, o = Cli.Done report →
     ∃ asked s result body,
       (if isFollowUp then asked = []
        else ∃ prompts,
               asked = Cli.FeedbackCall query :: (Cli.Asked <$> prompts)) ∧
       run trimPrompt true
         (outside (Cli.events w ++ asked)
            (Cli.contextualQuery (Cli.previousReport w) query isFollowUp)
            breadth depth)
         (start emptyResult breadth depth) = Some s ∧
       call s = Returned result ∧
       generateReport
         (Cli.events w ++ asked
          ++ [Cli.ResearchCall
                (Cli.contextualQuery (Cli.previousReport w) query isFollowUp)
                breadth depth])
         (reportPrompt trimPrompt
            (Cli.contextualQuery (Cli.previousReport w) query isFollowUp)
            (learnings result)) = Some body ∧
       report = body +:+ factCheckSection factCheckFallback +:+
                urlsSection (visitedUrls result) ∧
       NoDup (visitedUrls result)) ∧
  factCheckSection factCheckFallback
  = LF +:+ LF +:+ "## Fact Check" +:+ LF +:+ LF +:+
    "Unable to fact check - no source content available" +:+ LF +:+ LF +:+
    "### No Factual Issues Found" +:+ LF +:+ LF +:+
    "All claims in the report appear to be well-supported by the source material." ∧
  (∀ fuel lines file outcome final,
     program fuel (Cli.initialWorld lines file) = Some (outcome, final) →
     Forall (λ e, Cli.isFactCheck e = false) (Cli.events final)).
Proof.
  intros Hrun. split_and!.
  - intros e He Hfact.
    destruct (performResearch_events _ _ _ _ _ _ _ Hrun)
      as (new & Hev & Hquiet & _).
    rewrite Hev in He. apply elem_of_app in He as [? | He]; [done |].
    rewrite Forall_forall in Hquiet. specialize (Hquiet _ He). congruence.
  - intros report ->. by eapply performResearch_report.
  - reflexivity.
  - intros fuel lines file outcome final Hsession.
    destruct (program_spec _ _ _ _ Hsession) as (_ & new & _ & Hev & Hquiet & _).
    simpl in Hev. by rewrite Hev.
Qed.

(** X13: [output.md] mirrors [previousReport].  Whatever the user types
    and however the session ends, either no report has been written, and
    the file and the variable are as the program found them, or the file
    holds exactly the text of [previousReport]: the initial report, which
    replaced what the file held, followed by the follow-up sections in the
    order they were appended. *)
Theorem output_file_mirrors_previous_report (lines : list string)
    (file : option string) (fuel : nat) (o : Cli.Outcome unit)
    (w' : Cli.World) :
  program fuel (Cli.initialWorld lines file) = Some (o, w') →
  (Cli.outputMd w' = file ∧ Cli.previousReport w' = "") ∨
  Cli.outputMd w' = Some (Cli.previousReport w').
Proof.
  intros Hrun.
  by destruct (program_spec _ _ _ _ Hrun) as (_ & _ & _ & _ & _ & ? & _).
Qed.

(** X14: the arguments the command-line program gives [deepResearch].  The
    first call gets the first line typed as its query, and the breadth and
    the depth parsed from the second and the third line, 4 and 2 where the
    line parses to no number or to 0: neither is ever 0.  Every later call,
    for a follow-up question, gets [min breadth 2] and [min depth 2], which
    are at most 2 and not 0 either. *)
Theorem cli_research_arguments (lines : list string) (file : option string)
    (fuel : nat) (o : Cli.Outcome unit) (w' : Cli.World) :
  program fuel (Cli.initialWorld lines file) = Some (o, w') →
  Cli.researchCalls (Cli.events w') = [] ∨
  ∃ query breadthText depthText rest followUpCalls,
    lines = query :: breadthText :: depthText :: rest ∧
    let breadth := Cli.orDefault (parseInt breadthText) 4 in
    let depth := Cli.orDefault (parseInt depthText) 2 in
    Cli.researchCalls (Cli.events w')
    = (query, breadth, depth) :: followUpCalls ∧
    breadth ≠ 0 ∧ depth ≠ 0 ∧
    (parseInt breadthText = None ∨ parseInt breadthText = Some 0 → breadth = 4) ∧
    (parseInt depthText = None ∨ parseInt depthText = Some 0 → depth = 2) ∧
    Forall (λ c, c.1.2 = Z.min breadth 2 ∧ c.2 = Z.min depth 2 ∧
                 c.1.2 ≤ 2 ∧ c.2 ≤ 2 ∧ c.1.2 ≠ 0 ∧ c.2 ≠ 0) followUpCalls.
Proof.
  intros Hrun.
  destruct (program_spec _ _ _ _ Hrun)
    as (typed & new & Hin & Hev & _ & _ & Hcalls & _).
  simpl in Hin, Hev. rewrite Hev.
  destruct Hcalls as [? | (query & breadthText & depthText & rest & followUpCalls
                           & -> & Hcalls & Hargs)]; [by left | right].
  exists query, breadthText, depthText, (rest ++ Cli.stdin w'), followUpCalls.
  split; [by rewrite Hin |]. intros breadth depth.
  assert (breadth ≠ 0) as Hb by (by apply orDefault_nonzero).
  assert (depth ≠ 0) as Hd by (by apply orDefault_nonzero).
  split_and!; try done.
  - subst breadth. by intros [-> | ->].
  - subst depth. by intros [-> | ->].
  - eapply Forall_impl; [exact Hargs |]. fold breadth. fold depth.
    intros c [Hcb Hcd]. split_and!; try done; lia.
Qed.

Lemma askAll_answers questions :
  ∀ answers rest file previous history,
    length answers = length questions →
    Cli.askAll questions
      {| Cli.stdin := answers ++ rest; Cli.outputMd := file;
         Cli.previousReport := previous; Cli.events := history |}
    = (Cli.Done answers,
       {| Cli.stdin := rest; Cli.outputMd := file;
          Cli.previousReport := previous;
          Cli.events :=
            history ++ (Cli.Asked <$> (Cli.questionPrompt <$> questions)) |}).
Proof.
  induction questions as [| q questions IH];
    intros [| answer answers] rest file previous history Hlen; try done.
  - simpl. by rewrite app_nil_r.
  - cbn [Cli.askAll]. unfold mbind, Cli.M_bind, Cli.askQuestion.
    cbn [Cli.stdin Cli.outputMd Cli.previousReport Cli.events app].
    rewrite IH by (simpl in Hlen; lia).
    unfold mret, Cli.M_ret. by rewrite <- app_assoc.
Qed.

(** X15: the answers of the user are read and dropped.  The initial
    research asks the questions that [generateFeedback] returns and reads
    one line for each; but the query it gives [deepResearch] and the prompt
    it gives [writeFinalReport] are the query as it was typed, and the text
    that combines it with the answers goes nowhere: with other answers, as
    many, the research makes the same calls, writes the same report and
    leaves the same world. *)
Theorem initial_research_drops_the_answers (query : string)
    (breadth depth : Z) (w : Cli.World) (report : string) (w' : Cli.World) :
  performResearch query breadth depth false w = (Cli.Done report, w') →
  ∃ questions answers result,
    generateFeedback (Cli.events w) query = Some questions ∧
    length answers = length questions ∧
    Cli.stdin w = answers ++ Cli.stdin w' ∧
    Cli.events w'
    = Cli.events w
      ++ Cli.FeedbackCall query
         :: (Cli.Asked <$> (Cli.questionPrompt <$> questions))
      ++ [Cli.ResearchCall query breadth depth;
          Cli.Called (ReportCall (reportPrompt trimPrompt query
                                    (learnings result)))] ∧
    Cli.outputMd w' = Some report ∧
    Cli.previousReport w' = report ∧
    ∀ others,
      length others = length questions →
      performResearch query breadth depth false
        (Cli.typing (others ++ Cli.stdin w') w)
      = (Cli.Done report, w').
Proof.
  intros Hrun.
  destruct (performResearch_spec _ _ _ _ _ _ _ Hrun)
    as (typed & asked & rest & Hin & Hev & _ & result & body & _ & -> & _
        & Hfile & Hprev & questions & Hfeedback & Hlen & ->).
  exists questions, typed, result. split_and!; try done.
  intros others Hothers. rewrite <- Hrun.
  assert (Hw : w = Cli.typing (typed ++ Cli.stdin w') w).
  { destruct w. unfold Cli.typing. simpl in *. by rewrite Hin. }
  transitivity (performResearch query breadth depth false
                  (Cli.typing (typed ++ Cli.stdin w') w)); [| by rewrite <- Hw].
  unfold Cli.performResearch, mbind, Cli.M_bind, mret, Cli.M_ret,
    Cli.getPreviousReport, Cli.feedback, Cli.typing.
  cbn [negb Cli.stdin Cli.outputMd Cli.previousReport Cli.events
       Cli.contextualQuery].
  rewrite Hfeedback.
  by rewrite !askAll_answers by done.
Qed.

(** X16: the program stops, and only [exit] ends it well.  With the lines
    the user types given, the program comes to an end: it has finished, or
    a call has rejected, or it waits for a line or an answer that does not
    come; fuel beyond the number of lines is enough, and more changes
    nothing.  It finishes only when a line typed is [exit] in lower case. *)
Theorem cli_stops_on_exit (lines : list string) (file : option string) :
  (∀ fuel, (length lines < fuel)%nat →
           is_Some (program fuel (Cli.initialWorld lines file))) ∧
  (∀ fuel fuel' r,
     program fuel (Cli.initialWorld lines file) = Some r →
     (fuel ≤ fuel')%nat →
     program fuel' (Cli.initialWorld lines file) = Some r) ∧
  (∀ fuel w',
     program fuel (Cli.initialWorld lines file) = Some (Cli.Done tt, w') →
     ∃ line, line ∈ lines ∧ toLowerCase line = "exit").
Proof.
  split_and!.
  - intros fuel Hfuel. unfold Cli.run.
    destruct (initialResearch (Cli.initialWorld lines file)) as [o0 w0] eqn:Hfirst.
    apply initialResearch_spec in Hfirst as (typed0 & _ & Hin0 & _).
    destruct o0 as [[breadth depth] | |]; [| by eexists..].
    apply followUps_enough. simpl in Hin0. rewrite Hin0, length_app in Hfuel.
    lia.
  - intros fuel fuel' r Hrun Hle. unfold Cli.run in *.
    destruct (initialResearch (Cli.initialWorld lines file))
      as [[[breadth depth] | |] w0]; try done.
    by eapply followUps_more.
  - intros fuel w' Hrun.
    destruct (program_spec _ _ _ _ Hrun) as (typed & _ & Hin & _ & _ & _ & _ & Hdone).
    destruct (Hdone eq_refl) as (line & Hline & Hexit).
    exists line. split; [| done]. simpl in Hin. rewrite Hin.
    apply elem_of_app. by left.
Qed.

End CliFacts.

(** ** The theorems at sample runs *)

(** X1, witness: the limiter of the top-level call of [twoLevels], with two
    branches that have recursed and two in the queue. *)
Lemma limiter_runs_all_it_can_witness :
  run keepText true twoLevels (start emptyResult 4 2) = Some twoLevelsState ∧
  ∀ breadth depth progress branches,
    callAt [] (call twoLevelsState)
    = Some (Running breadth depth progress branches) →
    activeCount branches
    = (ConcurrencyLimit `min` unresolvedCount branches)%nat ∧
    queuedCount branches = (unresolvedCount branches - ConcurrencyLimit)%nat ∧
    (0 < unresolvedCount branches)%nat.
Proof.
  assert (Hrun : run keepText true twoLevels (start emptyResult 4 2)
                 = Some twoLevelsState) by (by vm_compute).
  split; [exact Hrun |].
  exact (limiter_runs_all_it_can keepText true emptyResult 4 2 twoLevels
           twoLevelsState Hrun []).
Defined.

(** X2, witness: in the top-level call of [twoLevels] the third branch
    waits, and so does the fourth. *)
Lemma limiter_starts_in_queue_order_witness :
  run keepText true twoLevels (start emptyResult 4 2) = Some twoLevelsState ∧
  ∀ breadth depth progress branches q b,
    callAt [] (call twoLevelsState)
    = Some (Running breadth depth progress branches) →
    (2 ≤ 3)%nat →
    branches !! 2%nat = Some (Queued q) → branches !! 3%nat = Some b →
    ∃ q', b = Queued q'.
Proof.
  assert (Hrun : run keepText true twoLevels (start emptyResult 4 2)
                 = Some twoLevelsState) by (by vm_compute).
  split; [exact Hrun |].
  intros breadth depth progress branches q b.
  exact (limiter_starts_in_queue_order keepText true emptyResult 4 2 twoLevels
           twoLevelsState Hrun [] breadth depth progress branches 2%nat 3%nat
           q b).
Defined.

(** X3, witness: the first recursive call of [twoLevels] awaits an
    answer. *)
Lemma pending_call_awaits_an_answer_witness :
  run keepText true twoLevels (start emptyResult 4 2) = Some twoLevelsState ∧
  ∀ inv,
    callAt [0%nat] (call twoLevelsState) = Some inv → pending inv →
    ∃ q a s', exec keepText true ([0%nat] ++ q, a) twoLevelsState = Some s'.
Proof.
  assert (Hrun : run keepText true twoLevels (start emptyResult 4 2)
                 = Some twoLevelsState) by (by vm_compute).
  split; [exact Hrun |].
  exact (pending_call_awaits_an_answer keepText true emptyResult 4 2 twoLevels
           twoLevelsState Hrun [0%nat]).
Defined.

(** X4, witness: [twoLevels] reaches both bounds of a recursion of depth 2,
    six permits and four searches. *)
Lemma concurrency_of_recursion_witness :
  run keepText true twoLevels (start emptyResult 4 2) = Some twoLevelsState ∧
  (permitsHeld (call twoLevelsState) ≤ 2 ^ (2 + 1) - 2)%nat ∧
  (searchesInFlight (call twoLevelsState) ≤ 2 ^ 2)%nat ∧
  permitsHeld (call twoLevelsState) = 6%nat ∧
  searchesInFlight (call twoLevelsState) = 4%nat.
Proof.
  assert (Hrun : run keepText true twoLevels (start emptyResult 4 2)
                 = Some twoLevelsState) by (by vm_compute).
  split; [exact Hrun |].
  destruct (concurrency_of_recursion keepText true emptyResult 4 2 twoLevels
              twoLevelsState Hrun) as [Hpermits Hsearches].
  split; [exact Hpermits |]. split; [exact Hsearches |].
  split; reflexivity.
Defined.

(** X5, witness: the learnings after [twoLevels]. *)
Lemma accumulators_append_only_witness :
  run keepText true twoLevels (start emptyResult 4 2) = Some twoLevelsState ∧
  learnings (shared twoLevelsState)
  = [] ++ ["learning of a"; "learning of b"] ∧
  visitedUrls (shared (start emptyResult 4 2))
  `prefix_of` visitedUrls (shared twoLevelsState).
Proof.
  assert (Hrun : run keepText true twoLevels (start emptyResult 4 2)
                 = Some twoLevelsState) by (by vm_compute).
  split; [exact Hrun |].
  destruct (accumulators_append_only keepText true twoLevels
              (start emptyResult 4 2) twoLevelsState Hrun)
    as (_ & Hlinks & _ & Hlearn).
  split; [exact Hlearn | exact Hlinks].
Defined.

(** X6, witness: the strings of the result of [oneTimeout]. *)
Lemma nothing_made_up_witness :
  run keepText true oneTimeout (start emptyResult 2 1) = Some oneTimeoutState ∧
  ∀ r, call oneTimeoutState = Returned r →
       (∀ learning, learning ∈ learnings r →
          learning ∈ [] ∨ learningFound oneTimeout learning) ∧
       (∀ link, link ∈ visitedUrls r → link ∈ [] ∨ urlFound oneTimeout link) ∧
       (∀ content, content ∈ sourceContents r →
          content ∈ [] ∨ contentFound keepText oneTimeout content).
Proof.
  assert (Hrun : run keepText true oneTimeout (start emptyResult 2 1)
                 = Some oneTimeoutState) by (by vm_compute).
  split; [exact Hrun |].
  exact (proj2 (nothing_made_up keepText true emptyResult 2 1 oneTimeout
                  oneTimeoutState Hrun)).
Defined.

(** X7, witness: the result of [oneTimeout]. *)
Lemma returned_result_is_distinct_witness :
  run keepText true oneTimeout (start emptyResult 2 1) = Some oneTimeoutState ∧
  ∀ r, call oneTimeoutState = Returned r →
       NoDup (learnings r) ∧ NoDup (visitedUrls r) ∧ NoDup (sourceContents r).
Proof.
  assert (Hrun : run keepText true oneTimeout (start emptyResult 2 1)
                 = Some oneTimeoutState) by (by vm_compute).
  split; [exact Hrun |].
  exact (proj1 (returned_result_is_distinct keepText true emptyResult 2 1
                  oneTimeout oneTimeoutState Hrun)).
Defined.

(** X8, witness: the notifications of [oneThenDeeper], two of the
    top-level call and one of its recursive call. *)
Lemma notification_totals_witness :
  run keepText true oneThenDeeper (start emptyResult 1 2)
  = Some oneThenDeeperState ∧
  fst <$> sink oneThenDeeperState = [[]; []; [0%nat]] ∧
  ∀ p note,
    (p, note) ∈ sink oneThenDeeperState →
    totalDepth note = 2 - Z.of_nat (length p) ∧
    totalBreadth note
    = Qceiling (inject_Z 1 / inject_Z (2 ^ Z.of_nat (length p))) ∧
    0 ≤ completedQueries note ≤ totalQueries note ∧
    (0 ≤ 1 → totalQueries note ≤ totalBreadth note) ∧
    (currentDepth note = totalDepth note ∨
     currentDepth note = Z.max (totalDepth note - 1) 0) ∧
    (currentBreadth note = totalBreadth note ∨
     currentBreadth note = Qceiling (inject_Z (totalBreadth note) / 2)).
Proof.
  assert (Hrun : run keepText true oneThenDeeper (start emptyResult 1 2)
                 = Some oneThenDeeperState) by (by vm_compute).
  split; [exact Hrun |]. split; [reflexivity |].
  exact (notification_totals keepText true emptyResult 1 2 oneThenDeeper
           oneThenDeeperState Hrun).
Defined.

(** X9, witness: breadth -1 and three generated pairs: the call works on
    the first two. *)
Lemma negative_breadth_drops_last_witness :
  -1 < 0 ∧
  ∃ s',
    exec keepText true ([], GenerateOk threeQueries) (start emptyResult (-1) 1)
    = Some s' ∧
    shared s' = emptyResult ∧
    ∃ progress branches,
      call s' = Running (-1) 1 progress branches ∧
      serpQueryOf <$> branches
      = [Some (sampleQuery "Q1"); Some (sampleQuery "Q2")] ∧
      totalQueries progress = 2.
Proof.
  split; [lia |].
  exact (negative_breadth_drops_last keepText true emptyResult (-1) 1
           threeQueries ltac:(lia)).
Defined.

(** X12, witness: the initial research of the sample session. *)
Lemma cli_reports_are_not_fact_checked_witness :
  Cli.performResearch keepText sampleFeedback sampleOutside sampleReportModel
    sampleFactCheckModel "topic" 2 1 false
    (Cli.initialWorld ["the 1990s"; "and later?"; "EXIT"] None)
  = (sampleResearch.1, sampleResearch.2) ∧
  (∀ e, e ∈ Cli.events sampleResearch.2 → Cli.isFactCheck e = true →
        e ∈ []) ∧
  (∀ report, sampleResearch.1 = Cli.Done report →
     ∃ asked s result body,
       (∃ prompts, asked = Cli.FeedbackCall "topic" :: (Cli.Asked <$> prompts)) ∧
       run keepText true
         (sampleOutside
            (Cli.events
               (Cli.initialWorld ["the 1990s"; "and later?"; "EXIT"] None)
             ++ asked)
            (Cli.contextualQuery
               (Cli.previousReport
                  (Cli.initialWorld ["the 1990s"; "and later?"; "EXIT"] None))
               "topic" false)
            2 1)
         (start emptyResult 2 1) = Some s ∧
       call s = Returned result ∧
       sampleReportModel
         (Cli.events
            (Cli.initialWorld ["the 1990s"; "and later?"; "EXIT"] None)
          ++ asked
          ++ [Cli.ResearchCall
                (Cli.contextualQuery
                   (Cli.previousReport
                      (Cli.initialWorld ["the 1990s"; "and later?"; "EXIT"]
                         None))
                   "topic" false)
                2 1])
         (reportPrompt keepText
            (Cli.contextualQuery
               (Cli.previousReport
                  (Cli.initialWorld ["the 1990s"; "and later?"; "EXIT"] None))
               "topic" false)
            (learnings result)) = Some body ∧
       report = body +:+ factCheckSection factCheckFallback +:+
                urlsSection (visitedUrls result) ∧
       NoDup (visitedUrls result)).
Proof.
  assert (Hrun : Cli.performResearch keepText sampleFeedback sampleOutside
                   sampleReportModel sampleFactCheckModel "topic" 2 1 false
                   (Cli.initialWorld ["the 1990s"; "and later?"; "EXIT"] None)
                 = (sampleResearch.1, sampleResearch.2)) by (by vm_compute).
  split; [exact Hrun |].
  destruct (cli_reports_are_not_fact_checked keepText sampleParseInt
              sampleLower sampleFeedback sampleOutside sampleReportModel
              sampleFactCheckModel _ _ _ _ _ _ _ Hrun) as (Hnone & Hshape & _).
  split; [exact Hnone | exact Hshape].
Defined.

(** X13, witness: the sample session ends with a file that holds
    [previousReport]. *)
Lemma output_file_mirrors_previous_report_witness :
  Cli.run keepText sampleParseInt sampleLower sampleFeedback sampleOutside
    sampleReportModel sampleFactCheckModel 7 (Cli.initialWorld sampleLines None)
  = Some (sampleSession.1, sampleSession.2) ∧
  ((Cli.outputMd sampleSession.2 = None ∧
    Cli.previousReport sampleSession.2 = "") ∨
   Cli.outputMd sampleSession.2 = Some (Cli.previousReport sampleSession.2)) ∧
  Cli.outputMd sampleSession.2 = Some (Cli.previousReport sampleSession.2).
Proof.
  assert (Hrun : Cli.run keepText sampleParseInt sampleLower sampleFeedback sampleOutside
    sampleReportModel sampleFactCheckModel 7 (Cli.initialWorld sampleLines None)
                 = Some (sampleSession.1, sampleSession.2)) by (by vm_compute).
  split; [exact Hrun |]. split; [| reflexivity].
  exact (output_file_mirrors_previous_report keepText sampleParseInt
           sampleLower sampleFeedback sampleOutside sampleReportModel
           sampleFactCheckModel sampleLines None 7 sampleSession.1
           sampleSession.2 Hrun).
Defined.

(** X14, witness: the two research calls of the sample session. *)
Lemma cli_research_arguments_witness :
  Cli.run keepText sampleParseInt sampleLower sampleFeedback sampleOutside
    sampleReportModel sampleFactCheckModel 7 (Cli.initialWorld sampleLines None)
  = Some (sampleSession.1, sampleSession.2) ∧
  (snd <$> Cli.researchCalls (Cli.events sampleSession.2)) = [1; 1] ∧
  (Cli.researchCalls (Cli.events sampleSession.2) = [] ∨
   ∃ query breadthText depthText rest followUpCalls,
     sampleLines = query :: breadthText :: depthText :: rest ∧
     let breadth := Cli.orDefault (sampleParseInt breadthText) 4 in
     let depth := Cli.orDefault (sampleParseInt depthText) 2 in
     Cli.researchCalls (Cli.events sampleSession.2)
     = (query, breadth, depth) :: followUpCalls ∧
     breadth ≠ 0 ∧ depth ≠ 0 ∧
     (sampleParseInt breadthText = None ∨ sampleParseInt breadthText = Some 0 →
      breadth = 4) ∧
     (sampleParseInt depthText = None ∨ sampleParseInt depthText = Some 0 →
      depth = 2) ∧
     Forall (λ c, c.1.2 = Z.min breadth 2 ∧ c.2 = Z.min depth 2 ∧
                  c.1.2 ≤ 2 ∧ c.2 ≤ 2 ∧ c.1.2 ≠ 0 ∧ c.2 ≠ 0) followUpCalls).
Proof.
  assert (Hrun : Cli.run keepText sampleParseInt sampleLower sampleFeedback sampleOutside
    sampleReportModel sampleFactCheckModel 7 (Cli.initialWorld sampleLines None)
                 = Some (sampleSession.1, sampleSession.2)) by (by vm_compute).
  split; [exact Hrun |]. split; [reflexivity |].
  exact (cli_research_arguments keepText sampleParseInt sampleLower
           sampleFeedback sampleOutside sampleReportModel sampleFactCheckModel
           sampleLines None 7 sampleSession.1 sampleSession.2 Hrun).
Defined.

(** X15, witness: the initial research of the sample session, and the same
    research with another answer. *)
Lemma initial_research_drops_the_answers_witness :
  Cli.performResearch keepText sampleFeedback sampleOutside sampleReportModel
    sampleFactCheckModel "topic" 2 1 false
    (Cli.initialWorld ["the 1990s"; "and later?"; "EXIT"] None)
  = (Cli.Done sampleReport, sampleResearch.2) ∧
  Cli.performResearch keepText sampleFeedback sampleOutside sampleReportModel
    sampleFactCheckModel "topic" 2 1 false
    (Cli.initialWorld ["all of them"; "and later?"; "EXIT"] None)
  = (Cli.Done sampleReport, sampleResearch.2).
Proof.
  assert (Hrun : Cli.performResearch keepText sampleFeedback sampleOutside
                   sampleReportModel sampleFactCheckModel "topic" 2 1 false
                   (Cli.initialWorld ["the 1990s"; "and later?"; "EXIT"] None)
                 = (Cli.Done sampleReport, sampleResearch.2))
    by (by vm_compute).
  split; [exact Hrun |].
  destruct (initial_research_drops_the_answers keepText sampleFeedback
              sampleOutside sampleReportModel sampleFactCheckModel
              _ _ _ _ _ _ Hrun)
    as (questions & answers & result & Hfeedback & Hlen & _ & _ & _ & _ & Hsame).
  injection Hfeedback as <-.
  exact (Hsame ["all of them"] eq_refl).
Defined.

(** X18, witness: after the seven answers of [twoLevels] the call of breadth
    4 and depth 2 can take 22 more, which is the bound of 29 exactly. *)
Lemma external_calls_are_bounded_witness :
  0 ≤ 4 ∧
  run keepText true twoLevels (start emptyResult 4 2) = Some twoLevelsState ∧
  (length twoLevels + answersLeft (call twoLevelsState)
   ≤ answersBound (levelsBelow 2) 4)%nat ∧
  answersLeft (call twoLevelsState) = 22%nat ∧
  answersBound (levelsBelow 2) 4 = 29%nat.
Proof.
  assert (Hb0 : 0 ≤ 4) by lia.
  assert (Hrun : run keepText true twoLevels (start emptyResult 4 2)
                 = Some twoLevelsState) by (by vm_compute).
  split; [exact Hb0 |]. split; [exact Hrun |].
  split; [| split; reflexivity].
  exact (proj1 (external_calls_are_bounded keepText true 4 2 emptyResult
                  twoLevels twoLevelsState Hb0 Hrun)).
Defined.

(** ** What the surviving branches found *)

(** The limiter starts queued branches and changes no other. *)
Lemma lookup_startQueued room branches i b :
  startQueued room branches !! i = Some b →
  branches !! i = Some b ∨
  ∃ q, branches !! i = Some (Queued q) ∧ b = Searching q.
Proof.
  revert room i. induction branches as [| x branches IH]; intros room i Hi;
    [done |].
  destruct x; [destruct room |..]; destruct i as [| i]; simplify_eq/=;
    eauto.
Qed.

Lemma lookup_resolve_other branches i r j b :
  resolve i r branches !! j = Some b →
  (j = i ∧ b = Resolved r) ∨
  (j ≠ i ∧ (branches !! j = Some b ∨
            ∃ q, branches !! j = Some (Queued q) ∧ b = Searching q)).
Proof.
  intros Hj. unfold resolve, pLimit in Hj.
  apply lookup_startQueued in Hj.
  destruct (decide (j = i)) as [-> | Hne].
  - left. split; [done |].
    destruct Hj as [Hj | (q & Hj & _)];
      apply list_lookup_insert_Some in Hj as [(_ & ? & _) | [? _]];
      congruence.
  - right. split; [done |].
    by rewrite list_lookup_insert_ne in Hj by done.
Qed.

Lemma heldAt_joinAll p i shared inv result :
  heldAt p i (joinAll shared inv) = Some result → heldAt p i inv = Some result.
Proof.
  destruct (joinAll_cases shared inv) as [-> | [r ->]]; [done |].
  unfold heldAt. by destruct p.
Qed.

(** The branches that hold a response or a call are those of [branches]:
    so are the responses held. *)
Lemma heldAt_branches p i breadth depth progress progress' branches branches'
    result :
  (∀ j q r, branches' !! j = Some (Processing q r) →
            branches !! j = Some (Processing q r)) →
  (∀ j q child, branches' !! j = Some (Recursing q child) →
                branches !! j = Some (Recursing q child)) →
  heldAt p i (Running breadth depth progress' branches') = Some result →
  heldAt p i (Running breadth depth progress branches) = Some result.
Proof.
  intros Hproc Hrec Hheld. unfold heldAt in *. destruct p as [| j p]; simpl in *.
  - destruct (branches' !! i) as [[| | q r | |] |] eqn:Hi; simplify_eq/=.
    by rewrite (Hproc _ _ _ Hi).
  - destruct (branches' !! j) as [[| | | q child |] |] eqn:Hj; simplify_eq/=.
    by rewrite (Hrec _ _ _ Hj).
Qed.

Lemma heldAt_startQueued p i breadth depth progress room branches result :
  heldAt p i (Running breadth depth progress (startQueued room branches))
  = Some result →
  heldAt p i (Running breadth depth progress branches) = Some result.
Proof.
  apply heldAt_branches.
  - intros j q r Hj. by apply lookup_startQueued in Hj as [? | (? & _ & ?)].
  - intros j q c Hj. by apply lookup_startQueued in Hj as [? | (? & _ & ?)].
Qed.

Lemma heldAt_resolve p i breadth depth progress progress' branches i0 r result :
  heldAt p i (Running breadth depth progress' (resolve i0 r branches))
  = Some result →
  heldAt p i (Running breadth depth progress branches) = Some result.
Proof.
  apply heldAt_branches.
  - intros j q r' Hj.
    apply lookup_resolve_other in Hj
        as [[_ ?] | [_ [? | (? & _ & ?)]]]; done.
  - intros j q c Hj.
    apply lookup_resolve_other in Hj
        as [[_ ?] | [_ [? | (? & _ & ?)]]]; done.
Qed.

Lemma heldAt_queued p i breadth depth progress (qs : list SerpQuery) :
  heldAt p i (Running breadth depth progress (Queued <$> qs)) = None.
Proof.
  unfold heldAt. destruct p as [| j p]; simpl.
  - rewrite list_lookup_fmap. by destruct (qs !! i).
  - rewrite list_lookup_fmap. by destruct (qs !! j).
Qed.

Lemma responseAt_hold held a p i :
  responseAt p i (hold held a)
  = match broughtTo a p i with
    | Some result => Some result
    | None => responseAt p i held
    end.
Proof.
  destruct a as [p0 a]. unfold hold, broughtTo. destruct a; simpl; try done.
  by case_decide.
Qed.

Section Survivors.

Variable trimPrompt : string → Z → string.
Variable onProgress : bool.

Local Abbreviation execHere := (execHere trimPrompt onProgress).
Local Abbreviation execAt := (execAt trimPrompt onProgress).
Local Abbreviation exec := (exec trimPrompt onProgress).
Local Abbreviation run := (run trimPrompt onProgress).
Local Abbreviation pushAll := (pushAll trimPrompt).
Local Abbreviation foundAt := (foundAt trimPrompt).
Local Abbreviation foundBy := (foundBy trimPrompt).

(** The response a branch holds after a step is the one the answer has
    brought to it, or the one it held. *)
Lemma execHere_heldAt a shared inv shared' inv' notes p i result :
  execHere a shared inv = Some (shared', inv', notes) →
  heldAt p i inv' = Some result →
  match broughtTo ([], a) p i with
  | Some brought => result = brought
  | None => heldAt p i inv = Some result
  end.
Proof.
  intros Hexec Hheld.
  destruct a, inv as [breadth depth progress
                     | breadth depth progress branches | |];
    simplify_eq/=.
  - (* the queries arrive *)
    apply heldAt_joinAll in Hheld. unfold pLimit in Hheld.
    apply heldAt_startQueued in Hheld. by rewrite heldAt_queued in Hheld.
  - by destruct p.
  - (* a search result arrives *)
    destruct (branches !! i0) as [[] |] eqn:Hi; simplify_eq/=.
    unfold broughtTo. cbn [fst snd]. unfold heldAt in *.
    destruct p as [| j p]; cbn [callAt] in *.
    + case_decide as Hkey.
      * destruct Hkey as [_ ->].
        rewrite list_lookup_insert_eq in Hheld
          by (by eapply lookup_lt_Some). by simplify_eq.
      * rewrite list_lookup_insert_ne in Hheld by naive_solver. done.
    + rewrite decide_False by (by intros [? _]).
      destruct (decide (j = i0)) as [-> | Hne].
      * rewrite list_lookup_insert_eq in Hheld
          by (by eapply lookup_lt_Some). done.
      * by rewrite list_lookup_insert_ne in Hheld by done.
  - (* a search fails *)
    destruct (branches !! i0) as [[] |] eqn:Hi; simplify_eq/=.
    apply heldAt_joinAll in Hheld. eapply heldAt_resolve; eassumption.
  - (* an extraction arrives *)
    destruct (branches !! i0) as [[] |] eqn:Hi; simplify_eq/=.
    case_bool_decide as Hdepth; simplify_eq/=.
    + unfold heldAt in *. destruct p as [| j p]; simpl in *.
      * destruct (decide (i = i0)) as [-> | Hne].
        -- rewrite list_lookup_insert_eq in Hheld
             by (by eapply lookup_lt_Some). done.
        -- by rewrite list_lookup_insert_ne in Hheld by done.
      * destruct (decide (j = i0)) as [-> | Hne].
        -- rewrite list_lookup_insert_eq in Hheld
             by (by eapply lookup_lt_Some).
           by destruct p.
        -- by rewrite list_lookup_insert_ne in Hheld by done.
    + apply heldAt_joinAll in Hheld. eapply heldAt_resolve; eassumption.
  - (* an extraction fails *)
    destruct (branches !! i0) as [[] |] eqn:Hi; simplify_eq/=.
    apply heldAt_joinAll in Hheld. eapply heldAt_resolve; eassumption.
Qed.

(** A search result never ends a call. *)
Lemma execAt_SearchOk_pending p0 i result shared inv shared' inv' notes :
  execAt p0 (SearchOk i result) shared inv = Some (shared', inv', notes) →
  pending inv'.
Proof.
  revert inv inv'. induction p0 as [| j p0 IH]; intros inv inv' Hexec.
  - destruct inv as [| ? ? ? branches | |]; simplify_eq/=.
    destruct (branches !! i) as [[] |]; by simplify_eq/=.
  - destruct inv as [| ? ? ? branches | |]; simplify_eq/=.
    destruct (branches !! j) as [[| | | q child |] |]; simplify_eq/=.
    destruct (execAt p0 (SearchOk i result) shared child)
      as [[[shared1 child1] notes1] |] eqn:Hchild; simplify_eq/=.
    specialize (IH _ _ Hchild). by destruct child1.
Qed.

Lemma broughtTo_cons j p0 a p i :
  broughtTo (j :: p0, a) (j :: p) i = broughtTo (p0, a) p i.
Proof.
  unfold broughtTo. destruct a; cbn [fst snd]; try done.
  destruct (decide (p0 = p ∧ i0 = i)) as [[-> ->] | Hne].
  - by rewrite !decide_True.
  - rewrite !decide_False; [done.. |]. intros [[= ->] ->]. by apply Hne.
Qed.

Lemma broughtTo_elsewhere j p0 a p i :
  (p = [] ∨ ∃ k p', p = k :: p' ∧ k ≠ j) →
  broughtTo (j :: p0, a) p i = None.
Proof.
  intros Hp. unfold broughtTo. destruct a; cbn [fst snd]; try done.
  rewrite decide_False; [done |].
  intros [<- _]. destruct Hp as [? | (k & p' & [= -> ->] & Hne)]; done.
Qed.

Lemma execAt_heldAt p0 a shared inv shared' inv' notes p i result :
  execAt p0 a shared inv = Some (shared', inv', notes) →
  heldAt p i inv' = Some result →
  match broughtTo (p0, a) p i with
  | Some brought => result = brought
  | None => heldAt p i inv = Some result
  end.
Proof.
  revert inv inv' p. induction p0 as [| j p0 IH]; intros inv inv' p Hexec Hheld.
  - by eapply execHere_heldAt.
  - destruct inv as [| breadth depth progress branches | |]; try done.
    simpl in Hexec.
    destruct (branches !! j) as [[| | | q child |] |] eqn:Hj; try done.
    destruct (execAt p0 a shared child) as [[[shared1 child1] notes1] |]
      eqn:Hchild; [| done].
    simpl in Hexec. injection Hexec as Hs Hinv Hn. subst shared1 notes1.
    pose proof (lookup_lt_Some _ _ _ Hj) as Hlt.
    assert (Hinsert : ∀ c,
              heldAt p i (Running breadth depth progress
                            (<[j := Recursing q c]> branches)) = Some result →
              (∀ p', heldAt p' i c = Some result →
                     match broughtTo (p0, a) p' i with
                     | Some brought => result = brought
                     | None => heldAt p' i child = Some result
                     end) →
              match broughtTo (j :: p0, a) p i with
              | Some brought => result = brought
              | None =>
                  heldAt p i (Running breadth depth progress branches)
                  = Some result
              end).
    { intros c Hc Hbelow. unfold heldAt in Hc |- *.
      destruct p as [| k p]; simpl in *.
      - rewrite broughtTo_elsewhere by auto.
        destruct (decide (i = j)) as [-> | Hne].
        + by rewrite list_lookup_insert_eq in Hc by done.
        + by rewrite list_lookup_insert_ne in Hc by done.
      - destruct (decide (k = j)) as [-> | Hne].
        + rewrite list_lookup_insert_eq in Hc by done.
          rewrite broughtTo_cons, Hj. by apply Hbelow.
        + rewrite list_lookup_insert_ne in Hc by done.
          rewrite broughtTo_elsewhere by eauto. done. }
    assert (Hold : heldAt p i (Running breadth depth progress branches)
                   = Some result →
                   ¬ pending child1 →
                   match broughtTo (j :: p0, a) p i with
                   | Some brought => result = brought
                   | None =>
                       heldAt p i (Running breadth depth progress branches)
                       = Some result
                   end).
    { intros Hp Hover.
      destruct (broughtTo (j :: p0, a) p i) as [brought |] eqn:Hb; [| done].
      (* a search result never ends a call *)
      exfalso. apply Hover. unfold broughtTo in Hb. simpl in Hb.
      destruct a; try done. by eapply execAt_SearchOk_pending. }
    subst inv'. destruct child1 as [| | r |].
    + apply Hinsert in Hheld; [done |]. intros p'. by apply IH.
    + apply Hinsert in Hheld; [done |]. intros p'. by apply IH.
    + apply heldAt_joinAll in Hheld. apply Hold; [| by intros []].
      eapply heldAt_resolve; eassumption.
    + by destruct p.
Qed.

End Survivors.

Lemma resolvedShared_insert branches i b b' :
  branches !! i = Some b →
  b ≠ Resolved RShared → b' ≠ Resolved RShared →
  resolvedShared (<[i := b']> branches) ↔ resolvedShared branches.
Proof.
  intros Hi Hb Hb'. unfold resolvedShared. split; intros [j Hj].
  - destruct (decide (j = i)) as [-> | Hne].
    + rewrite list_lookup_insert_eq in Hj by (by eapply lookup_lt_Some).
      congruence.
    + rewrite list_lookup_insert_ne in Hj by done. eauto.
  - exists j. rewrite list_lookup_insert_ne; [done |]. congruence.
Qed.

Lemma resolvedShared_startQueued room branches :
  resolvedShared (startQueued room branches) ↔ resolvedShared branches.
Proof.
  unfold resolvedShared. split; intros [j Hj]; exists j.
  - by apply lookup_startQueued in Hj as [? | (? & _ & ?)].
  - by apply lookup_startQueued_resolved.
Qed.

Lemma resolvedShared_resolve branches i b r :
  branches !! i = Some b →
  b ≠ Resolved RShared →
  resolvedShared (resolve i r branches)
  ↔ r = RShared ∨ resolvedShared branches.
Proof.
  intros Hi Hb. unfold resolve, pLimit. rewrite resolvedShared_startQueued.
  pose proof (lookup_lt_Some _ _ _ Hi) as Hlt.
  unfold resolvedShared. split.
  - intros [j Hj]. destruct (decide (j = i)) as [-> | Hne].
    + rewrite list_lookup_insert_eq in Hj by done. left. congruence.
    + rewrite list_lookup_insert_ne in Hj by done. eauto.
  - intros [-> | [j Hj]].
    + exists i. by rewrite list_lookup_insert_eq.
    + exists j. rewrite list_lookup_insert_ne; [done |]. congruence.
Qed.

(** The join of one level of branches: the shared arrays without their
    duplicates when a branch has resolved with them, the empty result when
    none has. *)
Lemma Survived_joinAll flag shared breadth depth progress branches sink :
  Forall (flatBranch true) branches →
  (flag = true ↔ resolvedShared branches) →
  Survived flag
    {| shared := shared;
       call := joinAll shared (Running breadth depth progress branches);
       sink := sink |}.
Proof.
  intros Hall Hflag. unfold Survived, joinAll. simpl.
  destruct (mapM settled branches) as [results |] eqn:Hsettled; [| done].
  apply mapM_Some in Hsettled.
  assert (Hresults : Forall (λ r, r = RShared ∨ r = ROwn emptyResult) results).
  { apply Forall_forall. intros r Hr.
    apply list_elem_of_lookup in Hr as [i Hi].
    destruct (Forall2_lookup_r _ _ _ _ _ Hsettled Hi) as (b & Hb & Hbr).
    pose proof (Forall_lookup_1 _ _ _ _ Hall Hb) as Hflat.
    destruct b; simplify_eq/=. destruct r; simpl in Hflat; subst; auto. }
  assert (Hshared : resolvedShared branches ↔ RShared ∈ results).
  { unfold resolvedShared. split.
    - intros [i Hi].
      destruct (Forall2_lookup_l _ _ _ _ _ Hsettled Hi) as (r & Hr & Hbr).
      simplify_eq/=. by eapply list_elem_of_lookup_2.
    - intros [i Hi]%list_elem_of_lookup.
      destruct (Forall2_lookup_r _ _ _ _ _ Hsettled Hi) as (b & Hb & Hbr).
      exists i. destruct b; by simplify_eq/=. }
  destruct flag.
  - apply merge_copies.
    + apply Forall_fmap, Forall_forall. intros r Hr.
      rewrite Forall_forall in Hresults.
      destruct (Hresults _ Hr) as [-> | ->]; simpl; auto.
    + apply Exists_exists. exists shared. split; [| done].
      apply list_elem_of_fmap. exists RShared. split; [done |].
      by apply Hshared, Hflag.
  - apply merge_all_empty, Forall_fmap, Forall_forall. intros r Hr.
    rewrite Forall_forall in Hresults.
    destruct (Hresults _ Hr) as [-> | ->]; [| done].
    apply Hshared, Hflag in Hr. done.
Qed.

Section SurvivorRuns.

Variable trimPrompt : string → Z → string.
Variable onProgress : bool.

Local Abbreviation execHere := (execHere trimPrompt onProgress).
Local Abbreviation execAt := (execAt trimPrompt onProgress).
Local Abbreviation exec := (exec trimPrompt onProgress).
Local Abbreviation run := (run trimPrompt onProgress).
Local Abbreviation pushAll := (pushAll trimPrompt).
Local Abbreviation foundAt := (foundAt trimPrompt).
Local Abbreviation foundBy := (foundBy trimPrompt).

(** An extraction is accepted for a branch that holds a response, and
    pushes what was made of it. *)
Lemma execAt_extracted p i object shared inv shared' inv' notes :
  execAt p (ExtractOk i object) shared inv = Some (shared', inv', notes) →
  ∃ result,
    heldAt p i inv = Some result ∧ shared' = pushAll shared result object.
Proof.
  revert inv inv'. induction p as [| j p IH]; intros inv inv' Hexec.
  - destruct inv as [| breadth depth progress branches | |]; simplify_eq/=.
    unfold heldAt. simpl.
    destruct (branches !! i) as [[| | q result | |] |] eqn:Hi; simplify_eq/=.
    exists result. split; [done |].
    by case_bool_decide; simplify_eq/=.
  - destruct inv as [| breadth depth progress branches | |]; simplify_eq/=.
    unfold heldAt. simpl.
    destruct (branches !! j) as [[| | | q child |] |] eqn:Hj; simplify_eq/=.
    destruct (execAt p (ExtractOk i object) shared child)
      as [[[shared1 child1] notes1] |] eqn:Hchild; simplify_eq/=.
    by apply IH in Hchild.
Qed.

(** One step against the answers: the arrays afterwards are the arrays
    before and what the answer's branch has found. *)
Lemma exec_found held a s s' :
  (∀ p i result, heldAt p i (call s) = Some result →
                 responseAt p i held = Some result) →
  exec a s = Some s' →
  shared s' = foundAt held (shared s) a ∧
  (∀ p i result, heldAt p i (call s') = Some result →
                 responseAt p i (hold held a) = Some result).
Proof.
  intros Hheld Hexec. destruct a as [p0 a]. unfold exec in Hexec. simpl in Hexec.
  destruct (execAt p0 a (shared s) (call s)) as [[[shared1 call1] notes] |]
    eqn:Hat; simplify_eq/=.
  split.
  - unfold foundAt. simpl.
    destruct (isExtractOk a) eqn:Hok.
    + destruct a; try done.
      apply execAt_extracted in Hat as (result & Hr & ->).
      by rewrite (Hheld _ _ _ Hr).
    + pose proof (execAt_shared trimPrompt onProgress _ _ _ _ _ _ _ Hok Hat)
        as ->.
      by destruct a.
  - intros p i result Hr. rewrite responseAt_hold.
    pose proof (execAt_heldAt trimPrompt onProgress _ _ _ _ _ _ _ _ _ _
                  Hat Hr) as Hframe.
    destruct (broughtTo (p0, a) p i); [by subst | by apply Hheld].
Qed.

Lemma run_found answers :
  ∀ held s s',
    (∀ p i result, heldAt p i (call s) = Some result →
                   responseAt p i held = Some result) →
    run answers s = Some s' →
    shared s' = foundBy held (shared s) answers.
Proof.
  induction answers as [| a answers IH]; intros held s s' Hheld Hrun;
    simplify_eq/=; [done |].
  destruct (exec a s) as [s1 |] eqn:Hexec; simplify_eq/=.
  destruct (exec_found _ _ _ _ Hheld Hexec) as [Hshared Hheld1].
  rewrite <- Hshared. by apply IH.
Qed.

(** One step of a call of one level. *)
Lemma exec_Survived flag a s s' :
  Flat true s →
  Survived flag s →
  exec a s = Some s' →
  Survived (flag || isExtractOk a.2) s'.
Proof.
  intros Hflat Hsurv Hexec. destruct a as [p a], s as [shared root sink].
  unfold exec in Hexec. unfold Flat in Hflat. unfold Survived in Hsurv.
  simpl in *.
  destruct p as [| i p].
  - destruct a, root as [breadth depth progress
                        | breadth depth progress branches | |];
      simplify_eq/=; try done.
    + (* the queries arrive *)
      apply Survived_joinAll.
      * apply Forall_startQueued; [apply flatBranch_start |].
        by apply Forall_fmap, Forall_true.
      * unfold pLimit. rewrite resolvedShared_startQueued.
        split; [done |]. intros [i Hi]. rewrite list_lookup_fmap in Hi.
        by destruct (slice0 breadth queries !! i).
    + (* a search result arrives *)
      destruct (branches !! i) as [[] |] eqn:Hi; simplify_eq/=.
      unfold Survived. simpl. rewrite orb_false_r.
      by rewrite resolvedShared_insert.
    + (* a search fails *)
      destruct Hflat as (Hdepth & Hact & Hsat & Hall).
      destruct (branches !! i) as [[] |] eqn:Hi; simplify_eq/=.
      apply Survived_joinAll; [by apply Forall_resolve |].
      rewrite orb_false_r, resolvedShared_resolve by done.
      rewrite Hsurv. split; [by right | by intros [? | ?]].
    + (* an extraction arrives *)
      destruct Hflat as (Hdepth & Hact & Hsat & Hall).
      destruct (branches !! i) as [[] |] eqn:Hi; simplify_eq/=.
      specialize (Hdepth eq_refl).
      rewrite bool_decide_eq_false_2 in Hexec by lia. simplify_eq/=.
      apply Survived_joinAll; [by apply Forall_resolve |].
      rewrite orb_true_r, resolvedShared_resolve by done.
      split; [by left | done].
    + (* an extraction fails *)
      destruct Hflat as (Hdepth & Hact & Hsat & Hall).
      destruct (branches !! i) as [[] |] eqn:Hi; simplify_eq/=.
      apply Survived_joinAll; [by apply Forall_resolve |].
      rewrite orb_false_r, resolvedShared_resolve by done.
      rewrite Hsurv. split; [by right | by intros [? | ?]].
  - destruct root as [| breadth depth progress branches | |]; try done.
    simpl in Hexec. destruct Hflat as (_ & _ & _ & Hall).
    destruct (branches !! i) as [[| | | q child |] |] eqn:Hi; try done.
    by pose proof (Forall_lookup_1 _ _ _ _ Hall Hi).
Qed.

Lemma run_Survived answers :
  ∀ flag s s',
    Flat true s →
    Survived flag s →
    run answers s = Some s' →
    Survived (flag || survived answers) s'.
Proof.
  induction answers as [| a answers IH]; intros flag s s' Hflat Hsurv Hrun;
    simplify_eq/=; [by rewrite orb_false_r |].
  destruct (exec a s) as [s1 |] eqn:Hexec; simplify_eq/=.
  unfold survived. simpl. rewrite orb_assoc. apply (IH _ s1); [| | done].
  - eapply (exec_Flat trimPrompt onProgress); [done | by left | done].
  - by eapply exec_Survived.
Qed.

End SurvivorRuns.

Lemma foundBy_none trimPrompt held found answers :
  survived answers = false → foundBy trimPrompt held found answers = found.
Proof.
  revert held found.
  induction answers as [| [p a] answers IH]; intros held found Hnone; [done |].
  unfold survived in Hnone. simpl in Hnone.
  apply orb_false_iff in Hnone as [Ha Hnone].
  cbn [foundBy]. rewrite IH by done. by destruct a.
Qed.

Lemma survived_false answers :
  survived answers = false ↔ Forall (λ a, isExtractOk a.2 = false) answers.
Proof.
  unfold survived. induction answers as [| a answers IH]; simpl.
  - split; [constructor | done].
  - rewrite orb_false_iff, Forall_cons, IH. done.
Qed.

Section Isolation.

Variable trimPrompt : string → Z → string.
Variable onProgress : bool.

Local Abbreviation exec := (exec trimPrompt onProgress).
Local Abbreviation run := (run trimPrompt onProgress).
Local Abbreviation foundBy := (foundBy trimPrompt).


End Isolation.


